(** * Face identity resolution engine: enrollment, registry build, live matching

    A shallow embedding of the recognition and enrollment logic of
    [main_modern.py], [face_scanner_modern.py], [settings_manager.py] and
    [settings_dialog.py].

    Conventions of the embedding:
    - Python [str] values are lists of Unicode code points ([pystr]).
    - numpy / OpenCV floating point numbers are idealised as real numbers
      in the engine; the matching block is given a second time over the
      arithmetic of the dtype of the encodings, with exact arithmetic and
      IEEE binary64 as instances.
    - [ndarray.astype("int")] is the conversion to [int64], and products of
      [np.int64] values wrap around.
    - The calls of [save_profile] are carried out on a model of a POSIX
      disk.
    - The two neural networks, [cv2.resize], [get_profile], the clock and
      [os.path.join] are external collaborators and appear as section
      variables; everything the repository itself decides (thresholds,
      best-detection selection, nearest neighbour search, frame counters,
      validation) is written out. *)

From Stdlib Require Import PrimFloat.
From Stdlib Require Import Reals Lra Lia List ZArith Bool String Ascii.
From Stdlib Require Import DecimalString DecimalNat FinFun Sorted.
From Stdlib Require Vector.
Import ListNotations.

Set Implicit Arguments.

(** ** Python strings *)

Definition pystr := list N.

Definition str (s : string) : pystr :=
  List.map N_of_ascii (list_ascii_of_string s).

Definition pystr_eqb (a b : pystr) : bool :=
  if list_eq_dec N.eq_dec a b then true else false.

(** [str.isspace] on one code point (CPython's [_PyUnicode_IsWhitespace]). *)
Definition is_whitespace (c : N) : bool :=
  ((9 <=? c) && (c <=? 13) || (28 <=? c) && (c <=? 32)
   || (c =? 133) || (c =? 160) || (c =? 5760)
   || (8192 <=? c) && (c <=? 8202)
   || (c =? 8232) || (c =? 8233) || (c =? 8239) || (c =? 8287)
   || (c =? 12288))%N.

Fixpoint lstrip (s : pystr) : pystr :=
  match s with
  | c :: t => if is_whitespace c then lstrip t else s
  | [] => []
  end.

Definition rstrip (s : pystr) : pystr := rev (lstrip (rev s)).

(** [s.strip()] *)
Definition strip (s : pystr) : pystr := rstrip (lstrip s).

Fixpoint startswith (s prefix : pystr) : bool :=
  match prefix, s with
  | [], _ => true
  | p :: prefix', c :: s' => (p =? c)%N && startswith s' prefix'
  | _ :: _, [] => false
  end.

(** [s.endswith(suffix)] *)
Definition endswith (s suffix : pystr) : bool :=
  startswith (rev s) (rev suffix).

(** [s.endswith((a, b, ...))] *)
Definition endswith_any (s : pystr) (suffixes : list pystr) : bool :=
  existsb (endswith s) suffixes.

(** [str(n)] for a non-negative integer, as used by f-strings. *)
Definition str_of_nat (n : nat) : pystr :=
  str (NilEmpty.string_of_uint (Nat.to_uint n)).

(** ** Numbers *)

Open Scope R_scope.

(** The integer part of a float, rounding toward zero. *)
Definition truncate (r : R) : Z :=
  if Rle_dec 0 r then Int_part r else (- Int_part (- r))%Z.

Definition INT64_MIN : Z := (- 2 ^ 63)%Z.

Definition INT64_MAX : Z := (2 ^ 63 - 1)%Z.

(** [ndarray.astype("int")] on one float64: the C conversion to [int64].
    It truncates toward zero; a value whose integer part does not fit gives
    [INT64_MIN], the result of the x86-64 conversion instruction. *)
Definition astype_int (r : R) : Z :=
  let z := truncate r in
  if ((INT64_MIN <=? z) && (z <=? INT64_MAX))%Z then z else INT64_MIN.

(** Arithmetic on [np.int64] scalars wraps around. *)
Definition wrap_int64 (z : Z) : Z :=
  ((z - INT64_MIN) mod 2 ^ 64 + INT64_MIN)%Z.

(** ** Images as numpy arrays of shape (height, width, 3) *)

Record Image := mkImage {
  height : Z;
  width : Z;
  pixel : Z -> Z -> Z * Z * Z
}.

(** Bounds of the Python slice [a:b] on an axis of length [n]. *)
Definition slice_bound (n i : Z) : Z :=
  (if i <? 0 then Z.max (i + n) 0 else Z.min i n)%Z.

Definition slice_len (n a b : Z) : Z :=
  Z.max 0 (slice_bound n b - slice_bound n a).

(** [image[y1:y2, x1:x2]] *)
Definition crop (image : Image) (y1 y2 x1 x2 : Z) : Image :=
  {| height := slice_len (height image) y1 y2;
     width := slice_len (width image) x1 x2;
     pixel := fun r c =>
       pixel image (slice_bound (height image) y1 + r)
                   (slice_bound (width image) x1 + c)%Z |}.

(** [image.size] *)
Definition size (image : Image) : Z := (height image * width image * 3)%Z.

(** [cv2.flip(frame, 1)] *)
Definition flip (frame : Image) : Image :=
  {| height := height frame;
     width := width frame;
     pixel := fun r c => pixel frame r (width frame - 1 - c)%Z |}.

(** One row [detections[0, 0, i, :]] of the detector output: the confidence
    (column 2) and the relative box (columns 3 to 6). *)
Record Detection := mkDetection {
  confidence : R;
  rel_x1 : R;
  rel_y1 : R;
  rel_x2 : R;
  rel_y2 : R
}.

(** [detections[0, 0, i, 3:7] * np.array([w, h, w, h])] *)
Definition scale_box (d : Detection) (w h : Z) : R * R * R * R :=
  (rel_x1 d * IZR w, rel_y1 d * IZR h, rel_x2 d * IZR w, rel_y2 d * IZR h).

(** [box.astype("int")] *)
Definition box_astype_int (b : R * R * R * R) : Z * Z * Z * Z :=
  let '(x1, y1, x2, y2) := b in
  (astype_int x1, astype_int y1, astype_int x2, astype_int y2).

(** [np.argmin]: index of the first occurrence of the minimum; the scan keeps
    the running best and replaces it only by a strictly smaller value. *)
Fixpoint argmin_from (l : list R) (i best_i : nat) (best : R) : nat :=
  match l with
  | [] => best_i
  | x :: t =>
      if Rlt_dec x best then argmin_from t (S i) i x
      else argmin_from t (S i) best_i best
  end.

(** [None] stands for the [ValueError] numpy raises on an empty array. *)
Definition argmin (l : list R) : option nat :=
  match l with
  | [] => None
  | x :: t => Some (argmin_from t 1%nat 0%nat x)
  end.

Definition Unknown : pystr := str "Unknown".

(** ** Settings store: [SettingsManager] *)

(** Values a settings dictionary holds. *)
Unset Elimination Schemes.
Inductive Value : Type :=
| VBool (b : bool)
| VFloat (r : R)
| VInt (z : Z)
| VStr (s : string)
| VList (l : list Value)
| VDict (d : list (string * Value)).
Set Elimination Schemes.

(** A Python dict with string keys, in insertion order. *)
Definition Dict := list (string * Value).

Definition item (key : string) (v : Value) : string * Value := (key, v).

(** [d.get(key, default)] *)
Fixpoint dict_get (d : Dict) (key : string) (default : option Value) : option Value :=
  match d with
  | [] => default
  | (k, v) :: rest => if String.eqb k key then Some v else dict_get rest key default
  end.

(** [d[key] = value] *)
Fixpoint dict_set (d : Dict) (key : string) (value : Value) : Dict :=
  match d with
  | [] => [(key, value)]
  | (k, v) :: rest =>
      if String.eqb k key then (k, value) :: rest
      else (k, v) :: dict_set rest key value
  end.

(** [d.update(other)] *)
Definition dict_update (d other : Dict) : Dict :=
  fold_left (fun acc kv => dict_set acc (fst kv) (snd kv)) other d.

Definition named_color (name color : string) : Value :=
  VDict [item "name" (VStr name); item "color" (VStr color)].

Definition DEFAULT_SETTINGS : Dict :=
  [ item "auto_capture_enabled" (VBool false);
    item "auto_capture_interval" (VFloat 2.0);
    item "capture_count_target" (VInt 5);
    item "scanner_camera_index" (VInt 0);
    item "recognition_threshold" (VFloat 0.8);
    item "confidence_threshold" (VFloat 0.5);
    item "process_every_n_frames" (VInt 2);
    item "camera_index" (VInt 0);
    item "camera_width" (VInt 1280);
    item "camera_height" (VInt 720);
    item "mirror_mode" (VBool true);
    item "show_fps" (VBool true);
    item "show_confidence" (VBool false);
    item "animation_speed" (VFloat 1.0);
    item "threat_levels"
      (VList [named_color "LOW" "#00C864"; named_color "MODERATE" "#FFA500";
              named_color "HIGH" "#FF4444"; named_color "CRITICAL" "#8B0000"]);
    item "status_types"
      (VList [named_color "CIVILIAN" "#6C757D"; named_color "VIP" "#FFD700";
              named_color "EMPLOYEE" "#0096FF"; named_color "VISITOR" "#9370DB";
              named_color "WANTED" "#DC143C"; named_color "UNKNOWN" "#808080"]);
    item "gender_options"
      (VList [VStr "Male"; VStr "Female"; VStr "Other"; VStr "Prefer not to say"]);
    item "default_status" (VStr "CIVILIAN");
    item "default_threat_level" (VStr "LOW");
    item "default_gender" (VStr "Male") ].

(** [SettingsManager.load_settings].  The argument is the settings file:
    [None] when it does not exist, [Some None] when reading it raises,
    [Some (Some d)] when it parses to the dict [d]. *)
Definition load_settings (file : option (option Dict)) : Dict :=
  match file with
  | Some (Some loaded_settings) => dict_update DEFAULT_SETTINGS loaded_settings
  | Some None => DEFAULT_SETTINGS
  | None => DEFAULT_SETTINGS
  end.

(** [SettingsManager.get] and [SettingsManager.set] on the [settings] dict. *)
Definition settings_get (settings : Dict) (key : string) (default : option Value)
  : option Value :=
  dict_get settings key default.

Definition settings_set (settings : Dict) (key : string) (value : Value) : Dict :=
  dict_set settings key value.

(** ** Python objects: dicts and lists as shared, mutable objects

    [SettingsManager] and [SettingsDialog] copy the settings dict with
    [dict.copy()], which is shallow: the lists of threat levels, status
    types and gender options, and the dicts inside them, stay shared between
    the copies.  The operations below therefore work on a store of objects;
    a value is an immediate or a reference into the store.  An exception
    ends the computation and keeps the store as it was when it was raised. *)

Inductive PyVal : Type :=
| PBool (b : bool)
| PFloat (r : R)
| PInt (z : Z)
| PStr (s : pystr)
| PRef (l : nat).

Inductive PyObj : Type :=
| PyList (elems : list PyVal)
| PyDict (entries : list (string * PyVal)).

Definition Heap := list PyObj.

(** A computation on the store: [None] stands for a raised exception. *)
Definition Py (A : Type) : Type := Heap -> option A * Heap.

Definition ret {A : Type} (a : A) : Py A := fun h => (Some a, h).

Definition raise {A : Type} : Py A := fun h => (None, h).

Definition bind {A B : Type} (c : Py A) (k : A -> Py B) : Py B :=
  fun h =>
    match c h with
    | (Some a, h') => k a h'
    | (None, h') => (None, h')
    end.

Notation "x <- c ;; k" := (bind c (fun x => k))
  (at level 61, c at next level, right associativity).

Notation "c ;;; k" := (bind c (fun _ => k))
  (at level 61, right associativity).

(** A new object, placed after the existing ones. *)
Definition alloc (o : PyObj) : Py nat :=
  fun h => (Some (List.length h), h ++ [o]).

Definition deref (l : nat) : Py PyObj :=
  fun h => (nth_error h l, h).

Fixpoint replace_nth {A : Type} (n : nat) (a : A) (l : list A) : list A :=
  match l, n with
  | [], _ => []
  | _ :: t, O => a :: t
  | x :: t, S n' => x :: replace_nth n' a t
  end.

Definition store (l : nat) (o : PyObj) : Py unit :=
  fun h => (Some tt, replace_nth l o h).

Fixpoint entries_get (entries : list (string * PyVal)) (key : string) : option PyVal :=
  match entries with
  | [] => None
  | (k, v) :: rest => if String.eqb k key then Some v else entries_get rest key
  end.

Fixpoint entries_set (entries : list (string * PyVal)) (key : string) (v : PyVal)
  : list (string * PyVal) :=
  match entries with
  | [] => [(key, v)]
  | (k, old) :: rest =>
      if String.eqb k key then (k, v) :: rest
      else (k, old) :: entries_set rest key v
  end.

(** [d.copy()] on the dict at [d]: a new dict object with the same values. *)
Definition py_copy (d : nat) : Py nat :=
  o <- deref d ;;
  match o with
  | PyDict entries => alloc (PyDict entries)
  | PyList _ => raise
  end.

(** [d.get(key, [])] on the dict at [d]: the stored value, or a new empty
    list when the key is missing. *)
Definition py_get_or_new_list (d : nat) (key : string) : Py PyVal :=
  o <- deref d ;;
  match o with
  | PyDict entries =>
      match entries_get entries key with
      | Some v => ret v
      | None => l <- alloc (PyList []) ;; ret (PRef l)
      end
  | PyList _ => raise
  end.

(** [d[key] = v] on the dict at [d]. *)
Definition py_setitem (d : nat) (key : string) (v : PyVal) : Py unit :=
  o <- deref d ;;
  match o with
  | PyDict entries => store d (PyDict (entries_set entries key v))
  | PyList _ => raise
  end.

(** [v[key]] with a string key: defined on dicts only ([KeyError] when the
    key is missing, [TypeError] on every other kind of value). *)
Definition py_getitem (v : PyVal) (key : string) : Py PyVal :=
  match v with
  | PRef l =>
      o <- deref l ;;
      match o with
      | PyDict entries =>
          match entries_get entries key with
          | Some x => ret x
          | None => raise
          end
      | PyList _ => raise
      end
  | _ => raise
  end.

(** [v[key] = x] with a string key: defined on dicts only. *)
Definition py_setitem_val (v : PyVal) (key : string) (x : PyVal) : Py unit :=
  match v with
  | PRef l => py_setitem l key x
  | _ => raise
  end.

(** The items [for item in v] visits: the elements of a list, the keys of a
    dict, the characters of a string; other values are not iterable. *)
Definition py_iter (v : PyVal) : Py (list PyVal) :=
  match v with
  | PRef l =>
      o <- deref l ;;
      match o with
      | PyList elems => ret elems
      | PyDict entries => ret (List.map (fun kv => PStr (str (fst kv))) entries)
      end
  | PStr s => ret (List.map (fun c => PStr [c]) s)
  | _ => raise
  end.

(** [v.append(x)]: lists only. *)
Definition py_append (v x : PyVal) : Py unit :=
  match v with
  | PRef l =>
      o <- deref l ;;
      match o with
      | PyList elems => store l (PyList (elems ++ [x]))
      | PyDict _ => raise
      end
  | _ => raise
  end.

(** [v == s] for a string [s]. *)
Definition py_eq_str (v : PyVal) (s : pystr) : bool :=
  match v with
  | PStr t => pystr_eqb t s
  | _ => false
  end.

(** [any(item["name"] == name for item in items)] *)
Fixpoint any_named (items : list PyVal) (name : pystr) : Py bool :=
  match items with
  | [] => ret false
  | item :: rest =>
      n <- py_getitem item "name" ;;
      if py_eq_str n name then ret true else any_named rest name
  end.

(** [[item["name"] for item in items]] *)
Fixpoint names_of (items : list PyVal) : Py (list PyVal) :=
  match items with
  | [] => ret []
  | item :: rest =>
      n <- py_getitem item "name" ;;
      ns <- names_of rest ;;
      ret (n :: ns)
  end.

(** [[item for item in items if item["name"] != name]] *)
Fixpoint without_name (items : list PyVal) (name : pystr) : Py (list PyVal) :=
  match items with
  | [] => ret []
  | item :: rest =>
      n <- py_getitem item "name" ;;
      kept <- without_name rest name ;;
      ret (if py_eq_str n name then kept else item :: kept)
  end.

(** The loop of [get_threat_level_color] and [get_status_color]. *)
Fixpoint color_of (items : list PyVal) (name : pystr) : Py PyVal :=
  match items with
  | [] => ret (PStr (str "#808080"))
  | item :: rest =>
      n <- py_getitem item "name" ;;
      if py_eq_str n name then py_getitem item "color" else color_of rest name
  end.

(** The loop of [update_threat_level] and [update_status_type], with its
    [break]. *)
Fixpoint rename_first (items : list PyVal) (old_name new_name color : pystr) : Py unit :=
  match items with
  | [] => ret tt
  | item :: rest =>
      n <- py_getitem item "name" ;;
      if py_eq_str n old_name then
        py_setitem_val item "name" (PStr new_name) ;;;
        py_setitem_val item "color" (PStr color)
      else rename_first rest old_name new_name color
  end.

(** *** [SettingsManager] on the list stored under [key]

    [settings] is the dict object [self.settings] refers to. *)

Definition get_names (settings : nat) (key : string) : Py (list PyVal) :=
  lst <- py_get_or_new_list settings key ;;
  items <- py_iter lst ;;
  names_of items.

Definition get_color (settings : nat) (key : string) (name : pystr) : Py PyVal :=
  lst <- py_get_or_new_list settings key ;;
  items <- py_iter lst ;;
  color_of items name.

Definition add_named (settings : nat) (key : string) (name color : pystr) : Py bool :=
  lst <- py_get_or_new_list settings key ;;
  items <- py_iter lst ;;
  present <- any_named items name ;;
  if present then ret false
  else
    item <- alloc (PyDict [("name"%string, PStr name); ("color"%string, PStr color)]) ;;
    py_append lst (PRef item) ;;;
    py_setitem settings key lst ;;;
    ret true.

Definition remove_named (settings : nat) (key : string) (name : pystr) : Py unit :=
  lst <- py_get_or_new_list settings key ;;
  items <- py_iter lst ;;
  kept <- without_name items name ;;
  fresh <- alloc (PyList kept) ;;
  py_setitem settings key (PRef fresh).

Definition update_named (settings : nat) (key : string)
  (old_name new_name color : pystr) : Py unit :=
  lst <- py_get_or_new_list settings key ;;
  items <- py_iter lst ;;
  rename_first items old_name new_name color ;;;
  py_setitem settings key lst.

Definition get_threat_levels (settings : nat) := get_names settings "threat_levels".
Definition get_threat_level_color (settings : nat) := get_color settings "threat_levels".
Definition add_threat_level (settings : nat) := add_named settings "threat_levels".
Definition remove_threat_level (settings : nat) := remove_named settings "threat_levels".
Definition update_threat_level (settings : nat) := update_named settings "threat_levels".

Definition get_status_types (settings : nat) := get_names settings "status_types".
Definition get_status_color (settings : nat) := get_color settings "status_types".
Definition add_status_type (settings : nat) := add_named settings "status_types".
Definition remove_status_type (settings : nat) := remove_named settings "status_types".
Definition update_status_type (settings : nat) := update_named settings "status_types".

(** [self.settings = self.DEFAULT_SETTINGS.copy()], as [load_settings] does
    when there is no readable settings file and as [reset_to_defaults]
    does; the result is the new [self.settings].  ([reset_to_defaults] then
    calls [save_settings], which only reads the objects.) *)
Definition copy_defaults (defaults : nat) : Py nat := py_copy defaults.

(** *** [SettingsDialog] on its [temp_settings] *)

(** [self.temp_settings = settings.settings.copy()] in [__init__]. *)
Definition dialog_init (settings : nat) : Py nat := py_copy settings.

Inductive DialogOutcome : Type :=
| Dismissed
| AlreadyExists (name : pystr)
| Changed.

(** [add_threat_level] and [add_status_type] of the dialog.  [text] and [ok]
    are what [QInputDialog.getText] returns, [picked] the name of the colour
    chosen in [QColorDialog] ([None] when that dialog is cancelled), [upper]
    is [str.upper]. *)
Definition dialog_add_named (upper : pystr -> pystr) (temp : nat) (key : string)
  (text : pystr) (ok : bool) (picked : option pystr) : Py DialogOutcome :=
  if ok && negb (pystr_eqb text []) then
    let name := strip (upper text) in
    lst <- py_get_or_new_list temp key ;;
    items <- py_iter lst ;;
    present <- any_named items name ;;
    if present then ret (AlreadyExists name)
    else
      match picked with
      | Some color =>
          lst' <- py_get_or_new_list temp key ;;
          item <- alloc (PyDict [("name"%string, PStr name);
                                 ("color"%string, PStr color)]) ;;
          py_append lst' (PRef item) ;;;
          py_setitem temp key lst' ;;;
          ret Changed
      | None => ret Dismissed
      end
  else ret Dismissed.

(** [edit_threat_level] and [edit_status_type] of the dialog, for the
    selected entry [old_name]. *)
Definition dialog_edit_named (upper : pystr -> pystr) (temp : nat) (key : string)
  (old_name text : pystr) (ok : bool) (picked : option pystr) : Py DialogOutcome :=
  if ok && negb (pystr_eqb text []) then
    let name := strip (upper text) in
    match picked with
    | Some color =>
        lst <- py_get_or_new_list temp key ;;
        items <- py_iter lst ;;
        rename_first items old_name name color ;;;
        ret Changed
    | None => ret Dismissed
    end
  else ret Dismissed.

(** [remove_threat_level] and [remove_status_type] of the dialog, for the
    selected entry [name]; [confirmed] is the answer to the question box. *)
Definition dialog_remove_named (temp : nat) (key : string) (name : pystr)
  (confirmed : bool) : Py DialogOutcome :=
  if confirmed then
    lst <- py_get_or_new_list temp key ;;
    items <- py_iter lst ;;
    kept <- without_name items name ;;
    fresh <- alloc (PyList kept) ;;
    py_setitem temp key (PRef fresh) ;;;
    ret Changed
  else ret Dismissed.

(** [reset_to_defaults] of the dialog: the new [temp_settings]. *)
Definition dialog_reset_to_defaults (defaults temp : nat) (confirmed : bool) : Py nat :=
  if confirmed then py_copy defaults else ret temp.

(** *** Reading the store *)

(** The dict at [d] maps [key] to [v]. *)
Definition dict_has (h : Heap) (d : nat) (key : string) (v : PyVal) : Prop :=
  exists entries,
    nth_error h d = Some (PyDict entries) /\ entries_get entries key = Some v.

(** [v] refers to a dict with the given name and colour. *)
Definition is_named_color (h : Heap) (v : PyVal) (item : pystr * pystr) : Prop :=
  exists i entries,
    v = PRef i /\ nth_error h i = Some (PyDict entries) /\
    entries_get entries "name" = Some (PStr (fst item)) /\
    entries_get entries "color" = Some (PStr (snd item)).

(** The list at [l] holds dicts with these names and colours, in order. *)
Definition holds_named_colors (h : Heap) (l : nat) (items : list (pystr * pystr)) : Prop :=
  exists elems,
    nth_error h l = Some (PyList elems) /\ Forall2 (is_named_color h) elems items.

(** Every dict of [h] is still a dict in [h'], with the same name and
    colour. *)
Definition keeps_names (h h' : Heap) : Prop :=
  forall i entries,
    nth_error h i = Some (PyDict entries) ->
    exists entries',
      nth_error h' i = Some (PyDict entries') /\
      entries_get entries' "name" = entries_get entries "name" /\
      entries_get entries' "color" = entries_get entries "color".

(** The first entry with the given name. *)
Definition first_named (items : list (pystr * pystr)) (name : pystr)
  : option (pystr * pystr) :=
  find (fun it => pystr_eqb (fst it) name) items.

(** The entries kept by a removal. *)
Definition others (items : list (pystr * pystr)) (name : pystr) : list (pystr * pystr) :=
  filter (fun it => negb (pystr_eqb (fst it) name)) items.

(** The entries after the first one named [old_name] got a new name and
    colour. *)
Fixpoint renamed (items : list (pystr * pystr)) (old_name new_name color : pystr)
  : list (pystr * pystr) :=
  match items with
  | [] => []
  | it :: rest =>
      if pystr_eqb (fst it) old_name then (new_name, color) :: rest
      else it :: renamed rest old_name new_name color
  end.

(** The list at [l] holds distinct dicts with these names and colours. *)
Definition holds_distinct_named_colors (h : Heap) (l : nat)
  (items : list (pystr * pystr)) : Prop :=
  exists elems,
    nth_error h l = Some (PyList elems) /\ NoDup elems /\
    Forall2 (is_named_color h) elems items.

(** [h'] differs from [h] at most in the objects [elems] refer to, which
    stay dicts with their other keys as before. *)
Definition changes_only (elems : list PyVal) (h h' : Heap) : Prop :=
  (forall j, ~ In (PRef j) elems -> nth_error h' j = nth_error h j) /\
  (forall j es, nth_error h j = Some (PyList es) -> nth_error h' j = Some (PyList es)) /\
  (forall j key v, key <> "name"%string -> key <> "color"%string ->
     dict_has h j key v -> dict_has h' j key v).

(** *** The status badge of [ProfileCard] *)

(** [str(z)] for an int. *)
Definition str_of_Z (z : Z) : pystr :=
  match z with
  | Zneg p => str "-" ++ str_of_nat (Pos.to_nat p)
  | _ => str_of_nat (Z.to_nat z)
  end.

(** [s.lstrip(c)] for a single character [c]. *)
Fixpoint lstrip_char (c : N) (s : pystr) : pystr :=
  match s with
  | [] => []
  | x :: rest => if N.eqb x c then lstrip_char c rest else s
  end.

(** [bool(v)] *)
Definition truthy (v : PyVal) : Py bool :=
  match v with
  | PBool b => ret b
  | PFloat r => ret (if Req_dec_T r 0 then false else true)
  | PInt z => ret (negb (Z.eqb z 0))
  | PStr s => ret (negb (pystr_eqb s []))
  | PRef l =>
      o <- deref l ;;
      match o with
      | PyList elems => ret (negb (Nat.eqb (List.length elems) 0))
      | PyDict entries => ret (negb (Nat.eqb (List.length entries) 0))
      end
  end.

Section Badge.

(** [int(s, 16)], with [None] for [ValueError]. *)
Variable int16 : pystr -> option Z.

(** [ProfileCard._hex_to_rgba]; only a [str] has [lstrip]. *)
Definition hex_to_rgba (hex_color : PyVal) : Py pystr :=
  match hex_color with
  | PStr s =>
      let hex := lstrip_char 35 s in
      match int16 (firstn 2 hex) with
      | Some r =>
          match int16 (firstn 2 (skipn 2 hex)) with
          | Some g =>
              match int16 (firstn 2 (skipn 4 hex)) with
              | Some b =>
                  ret (str "rgba(" ++ str_of_Z r ++ str ", " ++ str_of_Z g ++
                       str ", " ++ str_of_Z b ++ str ", 255)")
              | None => raise
              end
          | None => raise
          end
      | None => raise
      end
  | _ => raise
  end.

(** The badge colour [ProfileCard.updateProfile] computes for a profile with
    the given [status] and [threat_level]; [settings] is the manager's
    dict. *)
Definition badge_color (settings : nat) (status threat_level : pystr) : Py pystr :=
  if pystr_eqb status (str "SCANNING") then ret (str "rgba(100, 150, 255, 255)")
  else if pystr_eqb status (str "UNIDENTIFIED") then ret (str "rgba(255, 152, 0, 255)")
  else
    status_color <- get_status_color settings status ;;
    colored <- truthy status_color ;;
    if colored then hex_to_rgba status_color
    else if negb (pystr_eqb threat_level []) then
      threat_color <- get_threat_level_color settings threat_level ;;
      colored' <- truthy threat_color ;;
      if colored' then hex_to_rgba threat_color
      else ret (str "rgba(120, 144, 156, 255)")
    else ret (str "rgba(120, 144, 156, 255)").

End Badge.

Section Engine.

(** Length of the vectors the recognizer network emits. *)
Variable dim : nat.

Definition Encoding := Vector.t R dim.

(** [a - b] on two encodings. *)
Definition sub (a b : Encoding) : Encoding := Vector.map2 Rminus a b.

(** [np.linalg.norm] of one row. *)
Definition norm (x : Encoding) : R :=
  sqrt (Vector.fold_right (fun c s => c * c + s) x 0).

(** [np.linalg.norm(known_face_encodings - encoding, axis=1)] *)
Definition distances_to (known : list Encoding) (encoding : Encoding) : list R :=
  List.map (fun k => norm (sub k encoding)) known.

(** The registry, as the two parallel lists the window object holds. *)
Record Registry := mkRegistry {
  known_face_encodings : list Encoding;
  known_face_names : list pystr
}.

Definition empty_registry : Registry :=
  {| known_face_encodings := []; known_face_names := [] |}.

(** Result of the matching block of [update_frame]: the name it assigns, and
    the distance array when [np.linalg.norm] was evaluated. *)
Record Matched := mkMatched {
  matched_name : pystr;
  computed_distances : option (list R)
}.

(** The matching block inside the [try] of [ModernMainWindow.update_frame].
    [None] stands for an exception raised inside the block. *)
Definition match_known (reg : Registry) (encoding : Encoding) : option Matched :=
  if (0 <? List.length (known_face_encodings reg))%nat then
    let distances := distances_to (known_face_encodings reg) encoding in
    match argmin distances with
    | None => None
    | Some best_match_idx =>
        match nth_error distances best_match_idx with
        | None => None
        | Some min_distance =>
            match nth_error (known_face_names reg) best_match_idx with
            | None => None
            | Some candidate =>
                Some {| matched_name :=
                          if Rlt_dec min_distance 0.8 then candidate else Unknown;
                        computed_distances := Some distances |}
            end
        end
    end
  else Some {| matched_name := Unknown; computed_distances := None |}.

(** The name appended to [face_names] for an encoding: the [except] clause
    turns any exception of the block into ["Unknown"]. *)
Definition resolve_name (reg : Registry) (encoding : Encoding) : pystr :=
  match match_known reg encoding with
  | Some m => matched_name m
  | None => Unknown
  end.

(** ** Registry build: [ModernMainWindow.load_known_faces] *)

(** A Python loop body either completes or raises; the state reached so far
    is kept in both cases. *)
Inductive Outcome (S : Type) : Type :=
| Completed (s : S)
| Raised (s : S).

Arguments Completed {S} s.
Arguments Raised {S} s.

Definition state_of {S : Type} (o : Outcome S) : S :=
  match o with Completed s => s | Raised s => s end.

(** [for a in l: body(a)] with exceptions propagating out of the loop. *)
Fixpoint for_each {A S : Type} (body : A -> S -> Outcome S) (l : list A) (s : S)
  : Outcome S :=
  match l with
  | [] => Completed s
  | a :: t =>
      match body a s with
      | Completed s' => for_each body t s'
      | Raised s' => Raised s'
      end
  end.

(** The detector network with its preprocessing: [blobFromImage], [setInput],
    [forward], read as the list of rows [detections[0, 0, i, :]]. *)
Variable face_detector : Image -> list Detection.

(** The recognizer network with its preprocessing, [forward()[0]].  [None]
    stands for an exception raised by one of these calls. *)
Variable face_recognizer : Image -> option Encoding.

(** The loop that picks [best_detection]; it starts from [None] and [0]. *)
Fixpoint select_best (detections : list Detection) (w h : Z)
  (best_detection : option (R * R * R * R)) (best_confidence : R)
  : option (R * R * R * R) * R :=
  match detections with
  | [] => (best_detection, best_confidence)
  | d :: rest =>
      if Rgt_dec (confidence d) 0.5 then
        if Rgt_dec (confidence d) best_confidence then
          select_best rest w h (Some (scale_box d w h)) (confidence d)
        else select_best rest w h best_detection best_confidence
      else select_best rest w h best_detection best_confidence
  end.

(** Clipping of the integer box to the image, then the crop. *)
Definition clip_box (b : Z * Z * Z * Z) (w h : Z) : Z * Z * Z * Z :=
  let '(x1, y1, x2, y2) := b in
  (Z.max 0 x1, Z.max 0 y1, Z.min w x2, Z.min h y2).

Definition crop_box (image : Image) (b : Z * Z * Z * Z) : Image :=
  let '(x1, y1, x2, y2) := b in crop image y1 y2 x1 x2.

Definition image_suffixes : list pystr := [str ".jpg"; str ".jpeg"; str ".png"].

Definition append_face (reg : Registry) (encoding : Encoding) (person_name : pystr)
  : Registry :=
  {| known_face_encodings := known_face_encodings reg ++ [encoding];
     known_face_names := known_face_names reg ++ [person_name] |}.

(** Body of [if image is not None:]. *)
Definition load_image (person_name : pystr) (image : Image) (reg : Registry)
  : Outcome Registry :=
  let h := height image in
  let w := width image in
  let detections := face_detector image in
  match fst (select_best detections w h None 0) with
  | Some best_detection =>
      let face_image := crop_box image (clip_box (box_astype_int best_detection) w h) in
      if (size face_image >? 0)%Z then
        match face_recognizer face_image with
        | Some encoding => Completed (append_face reg encoding person_name)
        | None => Raised reg
        end
      else Completed reg
  | None => Completed reg
  end.

(** One entry of a person directory: its file name and what [cv2.imread]
    returns for it ([None] when the file cannot be decoded). *)
Definition ImageFile : Type := pystr * option Image.

(** Body of [for image_file in os.listdir(person_dir):]. *)
Definition load_image_file (person_name : pystr) (f : ImageFile) (reg : Registry)
  : Outcome Registry :=
  if endswith_any (fst f) image_suffixes then
    match snd f with
    | Some image => load_image person_name image reg
    | None => Completed reg
    end
  else Completed reg.

(** One entry of the dataset directory: not a directory
    ([os.path.isdir] is false), a directory that [os.listdir] lists, or a
    directory on which [os.listdir] raises (no read permission). *)
Inductive DatasetEntry : Type :=
| NotADirectory
| PersonDirectory (files : list ImageFile)
| UnreadableDirectory.

(** What is at the path ["dataset"]: nothing ([os.path.exists] is false),
    a directory that [os.listdir] lists, in listing order, or something
    on which [os.listdir] raises (a regular file, a directory without read
    permission). *)
Inductive Dataset : Type :=
| Missing
| Listed (listing : list (pystr * DatasetEntry))
| Unlistable.

(** Body of [for person_name in os.listdir(dataset_dir):]. *)
Definition load_person (e : pystr * DatasetEntry) (reg : Registry) : Outcome Registry :=
  match snd e with
  | NotADirectory => Completed reg
  | PersonDirectory files => for_each (load_image_file (fst e)) files reg
  | UnreadableDirectory => Raised reg
  end.

Definition load_known_faces (dataset : Dataset) : Outcome Registry :=
  match dataset with
  | Missing => Completed empty_registry
  | Listed listing => for_each load_person listing empty_registry
  | Unlistable => Raised empty_registry
  end.

(** ** Live matching: [ModernMainWindow.update_frame] *)

(** A profile as the window hands it to the profile card: the arguments of the
    [PersonProfile] constructor. *)
Record PersonProfile := mkPersonProfile {
  profile_name : pystr;
  profile_age : pystr;
  profile_gender : pystr;
  profile_occupation : pystr;
  profile_nationality : pystr;
  profile_status : pystr;
  profile_threat_level : pystr;
  profile_notes : pystr
}.

(** [get_profile] of [person_profiles]. *)
Variable get_profile : pystr -> PersonProfile.

(** [cv2.resize(frame, (0, 0), fx=0.5, fy=0.5)] *)
Variable resize_half : Image -> Image.

Definition unknown_profile : PersonProfile :=
  {| profile_name := str "Unknown Person";
     profile_age := str "?";
     profile_gender := str "Unknown";
     profile_occupation := str "Unknown";
     profile_nationality := str "Unknown";
     profile_status := str "UNIDENTIFIED";
     profile_threat_level := str "UNKNOWN";
     profile_notes :=
       str "Face detected but not in database. Use Face Scanner to register." |}.

Definition scanning_profile : PersonProfile :=
  {| profile_name := str "Scanning";
     profile_age := str "---";
     profile_gender := str "---";
     profile_occupation := str "Searching for faces...";
     profile_nationality := str "---";
     profile_status := str "SCANNING";
     profile_threat_level := str "UNKNOWN";
     profile_notes :=
       str "Position a face in the camera view to begin recognition." |}.

Record MainWindow := mkMainWindow {
  frame_count : Z;
  process_this_frame : bool;
  registry : Registry;
  current_profile : option PersonProfile
}.

(** The window right after [__init__] has loaded the registry. *)
Definition initial_window (reg : Registry) : MainWindow :=
  {| frame_count := 0;
     process_this_frame := true;
     registry := reg;
     current_profile := None |}.

(** What one call of [update_frame] shows: the profile handed to
    [profile_card.updateProfile] (if any), and the two lists the drawing loop
    zips. *)
Record FrameOutput := mkFrameOutput {
  card_update : option PersonProfile;
  face_locations : list (Z * Z * Z * Z);
  face_names : list pystr
}.

Definition no_output : FrameOutput :=
  {| card_update := None; face_locations := []; face_names := [] |}.

(** Box of one kept detection: scaled to the small frame, converted to
    [int64], doubled (as [np.int64] products) and clipped to the full frame. *)
Definition live_box (d : Detection) (small_frame frame : Image) : Z * Z * Z * Z :=
  let '(x1, y1, x2, y2) :=
    box_astype_int (scale_box d (width small_frame) (height small_frame)) in
  clip_box (wrap_int64 (x1 * 2), wrap_int64 (y1 * 2),
            wrap_int64 (x2 * 2), wrap_int64 (y2 * 2))
           (width frame) (height frame).

(** Name appended to [face_names] for one kept detection. *)
Definition live_name (reg : Registry) (frame : Image) (box : Z * Z * Z * Z) : pystr :=
  let face_image := crop_box frame box in
  if (size face_image >? 0)%Z then
    match face_recognizer face_image with
    | Some encoding => resolve_name reg encoding
    | None => Unknown
    end
  else Unknown.

(** The loop [for i in range(detections.shape[2])], returning
    [(face_locations, face_names)]. *)
Fixpoint detect_faces (reg : Registry) (small_frame frame : Image)
  (detections : list Detection) : list (Z * Z * Z * Z) * list pystr :=
  match detections with
  | [] => ([], [])
  | d :: rest =>
      let '(locations, names) := detect_faces reg small_frame frame rest in
      if Rgt_dec (confidence d) 0.5 then
        let box := live_box d small_frame frame in
        (box :: locations, live_name reg frame box :: names)
      else (locations, names)
  end.

(** The block [# Update profile for first detected face]: the profile passed
    to the card, and the new [current_profile]. *)
Definition update_profile (win : MainWindow) (count : Z) (names : list pystr)
  : option PersonProfile * option PersonProfile :=
  match names with
  | first :: _ =>
      if pystr_eqb first Unknown then (Some unknown_profile, current_profile win)
      else (Some (get_profile first), Some (get_profile first))
  | [] =>
      if (count mod 100 =? 0)%Z then (Some scanning_profile, current_profile win)
      else (None, current_profile win)
  end.

(** One timer tick.  [read] is what [video_capture.read()] returns: [None]
    when [ret] is false. *)
Definition update_frame (win : MainWindow) (read : option Image)
  : MainWindow * FrameOutput :=
  match read with
  | None => (win, no_output)
  | Some raw =>
      let count := (frame_count win + 1)%Z in
      let frame := flip raw in
      if process_this_frame win then
        let small_frame := resize_half frame in
        let '(locations, names) :=
          detect_faces (registry win) small_frame frame (face_detector small_frame) in
        let '(shown, current) := update_profile win count names in
        ({| frame_count := count;
            process_this_frame := negb (process_this_frame win);
            registry := registry win;
            current_profile := current |},
         {| card_update := shown;
            face_locations := locations;
            face_names := names |})
      else
        ({| frame_count := count;
            process_this_frame := negb (process_this_frame win);
            registry := registry win;
            current_profile := current_profile win |},
         no_output)
  end.

(** A run of the timer: the outputs of the successive ticks. *)
Fixpoint run (win : MainWindow) (reads : list (option Image))
  : MainWindow * list FrameOutput :=
  match reads with
  | [] => (win, [])
  | r :: rest =>
      let '(win1, out) := update_frame win r in
      let '(win2, outs) := run win1 rest in
      (win2, out :: outs)
  end.

(** A tick is a processed frame when the camera delivered a frame and
    [process_this_frame] was set. *)
Definition is_processed (win : MainWindow) (read : option Image) : bool :=
  match read with
  | Some _ => process_this_frame win
  | None => false
  end.

(** Number of processed frames in a run of ticks. *)
Fixpoint processed_ticks (win : MainWindow) (reads : list (option Image)) : nat :=
  match reads with
  | [] => 0
  | r :: rest =>
      ((if is_processed win r then 1 else 0)
       + processed_ticks (fst (update_frame win r)) rest)%nat
  end.

(** ** Enrollment: [FaceScannerWindow] *)

(** A combo box: its items and the selected index. *)
Record ComboBox := mkComboBox {
  items : list pystr;
  current_index : nat
}.

Definition currentText (c : ComboBox) : pystr := nth (current_index c) (items c) [].

Definition setCurrentIndex (c : ComboBox) (i : nat) : ComboBox :=
  {| items := items c; current_index := i |}.

Record FormFields := mkFormFields {
  field_name : pystr;
  field_age : Z;
  field_gender : ComboBox;
  field_occupation : pystr;
  field_nationality : pystr;
  field_status : ComboBox;
  field_threat_level : ComboBox;
  field_notes : pystr
}.

Record Scanner := mkScanner {
  captured_images : list Image;
  auto_capture : bool;
  scanner_frame_count : Z;
  form_fields : FormFields
}.

(** [capture_image]: one more camera read, appended when it succeeds. *)
Definition capture_image (s : Scanner) (read : option Image) : Scanner :=
  match read with
  | Some frame =>
      {| captured_images := captured_images s ++ [flip frame];
         auto_capture := auto_capture s;
         scanner_frame_count := scanner_frame_count s;
         form_fields := form_fields s |}
  | None => s
  end.

Definition toggle_auto_capture (s : Scanner) : Scanner :=
  {| captured_images := captured_images s;
     auto_capture := negb (auto_capture s);
     scanner_frame_count := scanner_frame_count s;
     form_fields := form_fields s |}.

(** [face_detected] after the detection loop of the scanner. *)
Definition scanner_face_detected (frame : Image) : bool :=
  existsb (fun d => if Rgt_dec (confidence d) 0.5 then true else false)
          (face_detector frame).

(** The two camera reads one scanner tick can make: the one of
    [update_frame], and the one [capture_image] makes if it is called. *)
Record ScannerReads := mkScannerReads {
  frame_read : option Image;
  capture_read : option Image
}.

(** The auto-capture test of [update_frame], on the incremented counter. *)
Definition auto_capture_due (s : Scanner) (count : Z) (face_detected : bool) : bool :=
  auto_capture s && face_detected && (count mod 60 =? 0)%Z
  && (List.length (captured_images s) <? 10)%nat.

(** [FaceScannerWindow.update_frame] *)
Definition scanner_update_frame (s : Scanner) (reads : ScannerReads) : Scanner :=
  match frame_read reads with
  | None => s
  | Some raw =>
      let count := (scanner_frame_count s + 1)%Z in
      let frame := flip raw in
      let face_detected := scanner_face_detected frame in
      let s1 := {| captured_images := captured_images s;
                   auto_capture := auto_capture s;
                   scanner_frame_count := count;
                   form_fields := form_fields s |} in
      if auto_capture s && face_detected && (count mod 60 =? 0)%Z then
        if (List.length (captured_images s) <? 10)%nat then
          capture_image s1 (capture_read reads)
        else s1
      else s1
  end.

Definition scanner_run (s : Scanner) (ticks : list ScannerReads) : Scanner :=
  fold_left scanner_update_frame ticks s.

(** The record [profile_data] written to [profile.json]. *)
Record ProfileData := mkProfileData {
  pd_name : pystr;
  pd_age : Z;
  pd_gender : pystr;
  pd_occupation : pystr;
  pd_nationality : pystr;
  pd_status : pystr;
  pd_threat_level : pystr;
  pd_last_seen : pystr;
  pd_notes : pystr;
  pd_sightings : Z
}.

(** The calls [save_profile] makes on the outside world, in order. *)
Inductive Effect : Type :=
| MessageWarning (title text : pystr)
| MessageInformation (title text : pystr)
| MakeDirs (path : pystr)
| ImWrite (path : pystr) (img : Image)
| JsonDump (path : pystr) (data : ProfileData).

(** [os.path.join] of the platform. *)
Variable path_join : pystr -> pystr -> pystr.

(** [datetime.now().strftime("%Y-%m-%d %H:%M:%S")] at the time of the call. *)
Variable now : pystr.

(** [text or default] *)
Definition or_default (text default : pystr) : pystr :=
  match text with [] => default | _ => text end.

(** [os.path.join(person_dir, f"{name}_{i+1}.jpg")] *)
Definition image_path (person_dir name : pystr) (i : nat) : pystr :=
  path_join person_dir (name ++ str "_" ++ str_of_nat (i + 1) ++ str ".jpg").

(** [for i, img in enumerate(self.captured_images): cv2.imwrite(...)],
    with [i] counting from [start]. *)
Fixpoint save_images (person_dir name : pystr) (start : nat) (images : list Image)
  : list Effect :=
  match images with
  | [] => []
  | img :: rest =>
      ImWrite (image_path person_dir name start) img
      :: save_images person_dir name (S start) rest
  end.

Definition clear_form (s : Scanner) : Scanner :=
  let f := form_fields s in
  {| captured_images := [];
     auto_capture := auto_capture s;
     scanner_frame_count := scanner_frame_count s;
     form_fields :=
       {| field_name := [];
          field_age := 30;
          field_gender := setCurrentIndex (field_gender f) 0;
          field_occupation := [];
          field_nationality := [];
          field_status := setCurrentIndex (field_status f) 0;
          field_threat_level := setCurrentIndex (field_threat_level f) 0;
          field_notes := [] |} |}.

Definition make_profile_data (name : pystr) (f : FormFields) : ProfileData :=
  {| pd_name := name;
     pd_age := field_age f;
     pd_gender := currentText (field_gender f);
     pd_occupation := or_default (field_occupation f) (str "Unknown");
     pd_nationality := or_default (field_nationality f) (str "Unknown");
     pd_status := currentText (field_status f);
     pd_threat_level := currentText (field_threat_level f);
     pd_last_seen := now;
     pd_notes := or_default (field_notes f) (str "No additional information.");
     pd_sightings := 0 |}.

(** [FaceScannerWindow.save_profile]: the scanner afterwards and the calls
    made. *)
Definition save_profile (s : Scanner) : Scanner * list Effect :=
  let name := strip (field_name (form_fields s)) in
  match name with
  | [] => (s, [MessageWarning (str "Error") (str "Please enter a name")])
  | _ :: _ =>
      if (List.length (captured_images s) <? 3)%nat then
        (s, [MessageWarning (str "Error") (str "Please capture at least 3 images")])
      else
        let dataset_dir := str "dataset" in
        let person_dir := path_join dataset_dir name in
        (clear_form s,
         [MakeDirs dataset_dir; MakeDirs person_dir]
         ++ save_images person_dir name 0 (captured_images s)
         ++ [JsonDump (path_join person_dir (str "profile.json"))
                      (make_profile_data name (form_fields s));
             MessageInformation (str "Success")
               (str "Profile for " ++ name ++ str " saved successfully!"
                ++ [10%N]
                ++ str_of_nat (List.length (captured_images s))
                ++ str " images saved.")])
  end.

(** An effect that touches the disk. *)
Definition writes_disk (e : Effect) : bool :=
  match e with
  | MakeDirs _ | ImWrite _ _ | JsonDump _ _ => true
  | MessageWarning _ _ | MessageInformation _ _ => false
  end.

(** ** The disk under [save_profile]

    A POSIX file system as far as [os.makedirs], [cv2.imwrite] and
    [open(path, "w")] touch it: directories and regular files, no symbolic
    links, every permission granted.  A location is the list of names that
    leads to it from the root directory. *)

Inductive FileContent : Type :=
| ImageContent (img : Image)
| JsonContent (data : ProfileData).

Record FileSystem := mkFileSystem {
  working_directory : list pystr;
  directories : list (list pystr);
  files : list (list pystr * FileContent)
}.

Definition location_eqb (a b : list pystr) : bool :=
  if list_eq_dec (list_eq_dec N.eq_dec) a b then true else false.

(** The root always exists. *)
Definition is_directory (fs : FileSystem) (loc : list pystr) : bool :=
  match loc with
  | [] => true
  | _ :: _ => existsb (location_eqb loc) (directories fs)
  end.

Definition is_file (fs : FileSystem) (loc : list pystr) : bool :=
  existsb (fun f => location_eqb loc (fst f)) (files fs).

(** The components of a path, separated by ["/"]. *)
Fixpoint components (path : pystr) : list pystr :=
  match path with
  | [] => [[]]
  | c :: rest =>
      if (c =? 47)%N then [] :: components rest
      else match components rest with
           | first :: others => (c :: first) :: others
           | [] => [[c]]
           end
  end.

(** Where the resolution of a path starts. *)
Definition origin (fs : FileSystem) (path : pystr) : list pystr :=
  if startswith path (str "/") then [] else working_directory fs.

Inductive Component : Type :=
| Stay
| Parent
| Child (name : pystr).

Definition classify (c : pystr) : Component :=
  if pystr_eqb c [] then Stay
  else if pystr_eqb c (str ".") then Stay
  else if pystr_eqb c (str "..") then Parent
  else Child c.

(** Resolution of a path whose components must all be existing
    directories; [None] stands for [ENOENT] or [ENOTDIR]. *)
Fixpoint walk (fs : FileSystem) (loc : list pystr) (names : list pystr)
  : option (list pystr) :=
  match names with
  | [] => Some loc
  | c :: rest =>
      match classify c with
      | Stay => walk fs loc rest
      | Parent => walk fs (removelast loc) rest
      | Child name =>
          if is_directory fs (loc ++ [name]) then walk fs (loc ++ [name]) rest
          else None
      end
  end.

Definition add_directory (fs : FileSystem) (loc : list pystr) : FileSystem :=
  {| working_directory := working_directory fs;
     directories := directories fs ++ [loc];
     files := files fs |}.

(** [os.makedirs(path, exist_ok=True)]: every missing directory on the way
    is created; [None] stands for the exception raised when a name on the
    way is a regular file. *)
Fixpoint makedirs_from (fs : FileSystem) (loc : list pystr) (names : list pystr)
  : option FileSystem :=
  match names with
  | [] => Some fs
  | c :: rest =>
      match classify c with
      | Stay => makedirs_from fs loc rest
      | Parent => makedirs_from fs (removelast loc) rest
      | Child name =>
          let next := loc ++ [name] in
          if is_file fs next then None
          else if is_directory fs next then makedirs_from fs next rest
          else makedirs_from (add_directory fs next) next rest
      end
  end.

Definition makedirs (fs : FileSystem) (path : pystr) : option FileSystem :=
  makedirs_from fs (origin fs path) (components path).

(** The file a path names for writing: its directory must exist, and the
    last component must be a name that is not a directory. *)
Definition writable_location (fs : FileSystem) (path : pystr) : option (list pystr) :=
  let names := components path in
  match walk fs (origin fs path) (removelast names) with
  | Some dir =>
      match classify (last names []) with
      | Child name =>
          if is_directory fs (dir ++ [name]) then None else Some (dir ++ [name])
      | Stay | Parent => None
      end
  | None => None
  end.

(** A regular file is created, or replaced. *)
Definition write_file (fs : FileSystem) (loc : list pystr) (content : FileContent)
  : FileSystem :=
  {| working_directory := working_directory fs;
     directories := directories fs;
     files := filter (fun f => negb (location_eqb loc (fst f))) (files fs)
              ++ [(loc, content)] |}.

(** [cv2.imwrite(path, img)] for a path with an image suffix: the value it
    returns, and the disk afterwards.  It returns [False], and writes
    nothing, when the file cannot be opened. *)
Definition imwrite (fs : FileSystem) (path : pystr) (img : Image) : bool * FileSystem :=
  match writable_location fs path with
  | Some loc => (true, write_file fs loc (ImageContent img))
  | None => (false, fs)
  end.

(** [with open(path, "w") as f: json.dump(data, f)]; [None] stands for the
    exception [open] raises. *)
Definition dump_json (fs : FileSystem) (path : pystr) (data : ProfileData)
  : option FileSystem :=
  match writable_location fs path with
  | Some loc => Some (write_file fs loc (JsonContent data))
  | None => None
  end.

(** One call of [save_profile] carried out on the disk.  The value
    [cv2.imwrite] returns is dropped, as in the source. *)
Definition perform (e : Effect) (fs : FileSystem) : Outcome FileSystem :=
  match e with
  | MessageWarning _ _ | MessageInformation _ _ => Completed fs
  | MakeDirs path =>
      match makedirs fs path with
      | Some fs' => Completed fs'
      | None => Raised fs
      end
  | ImWrite path img => Completed (snd (imwrite fs path img))
  | JsonDump path data =>
      match dump_json fs path data with
      | Some fs' => Completed fs'
      | None => Raised fs
      end
  end.

Definition perform_all (calls : list Effect) (fs : FileSystem) : Outcome FileSystem :=
  for_each perform calls fs.

(** The image files on the disk. *)
Definition stored_images (fs : FileSystem) : list (list pystr * Image) :=
  flat_map (fun f => match snd f with
                     | ImageContent img => [(fst f, img)]
                     | JsonContent _ => []
                     end) (files fs).

(** ** Predicates used in the statements *)

(** [k] is the index of the first occurrence of the minimum [m] of [l]. *)
Definition first_min (l : list R) (k : nat) (m : R) : Prop :=
  nth_error l k = Some m /\
  (forall j x, nth_error l j = Some x -> m <= x) /\
  (forall j x, (j < k)%nat -> nth_error l j = Some x -> m < x).

(** The two lists of the registry have equal length. *)
Definition aligned (reg : Registry) : Prop :=
  List.length (known_face_encodings reg) = List.length (known_face_names reg).

(** State of the selection loop after the detections [pre]: nothing kept while
    no confidence exceeded 0.5, otherwise the first detection of greatest
    confidence. *)
Definition best_so_far (pre : list Detection) (w h : Z)
  (best_detection : option (R * R * R * R)) (best_confidence : R) : Prop :=
  match best_detection with
  | None =>
      best_confidence = 0 /\ forall d, In d pre -> confidence d <= 0.5
  | Some b =>
      exists i d,
        nth_error pre i = Some d /\ b = scale_box d w h /\
        best_confidence = confidence d /\ confidence d > 0.5 /\
        (forall j d', nth_error pre j = Some d' -> confidence d' <= confidence d) /\
        (forall j d', (j < i)%nat -> nth_error pre j = Some d' ->
           confidence d' < confidence d)
  end.

(** The detections the live loop keeps, in model output order. *)
Definition kept_detections (detections : list Detection) : list Detection :=
  filter (fun d => if Rgt_dec (confidence d) 0.5 then true else false) detections.

(** The toggle is set exactly when the counter is even. *)
Definition parity_invariant (win : MainWindow) : Prop :=
  Z.even (frame_count win) = process_this_frame win.

(** The four conditions under which [update_frame] calls [capture_image]. *)
Definition capture_due (s : Scanner) (raw : Image) : Prop :=
  auto_capture s = true /\
  scanner_face_detected (flip raw) = true /\
  ((scanner_frame_count s + 1) mod 60 = 0)%Z /\
  (List.length (captured_images s) < 10)%nat.

(** ** Further predicates and measures *)

(** [reg'] holds the entries of [reg] at the same positions, then more. *)
Definition extends (reg reg' : Registry) : Prop :=
  exists encodings names,
    known_face_encodings reg' = known_face_encodings reg ++ encodings /\
    known_face_names reg' = known_face_names reg ++ names.

(** A directory entry the build hands to the detector: its name ends in an
    image suffix and [cv2.imread] decodes it. *)
Definition is_loadable (f : ImageFile) : bool :=
  endswith_any (fst f) image_suffixes &&
  match snd f with Some _ => true | None => false end.

Definition loadable_in_entry (e : pystr * DatasetEntry) : nat :=
  match snd e with
  | NotADirectory => 0
  | PersonDirectory files => List.length (filter is_loadable files)
  | UnreadableDirectory => 0
  end.

(** Number of loadable image files under the person directories. *)
Definition loadable_count (dataset : Dataset) : nat :=
  match dataset with
  | Missing => 0
  | Listed listing => list_sum (List.map loadable_in_entry listing)
  | Unlistable => 0
  end.

(** Number of ticks of a run whose camera read succeeded. *)
Definition successful_reads (reads : list (option Image)) : nat :=
  List.length (filter (fun r => match r with Some _ => true | None => false end) reads).

(** ["dataset"] and every directory in it can be listed. *)
Definition listable (dataset : Dataset) : Prop :=
  match dataset with
  | Missing => True
  | Listed listing => forall name, ~ In (name, UnreadableDirectory) listing
  | Unlistable => False
  end.

(** ** Cameras *)

(** [detect_cameras], of both windows.  [opens i] is what
    [cv2.VideoCapture(i).isOpened()] answers. *)
Definition detect_cameras (opens : nat -> bool) : list nat :=
  let cameras := filter opens (seq 0 10) in
  match cameras with
  | [] => [0%nat]
  | _ :: _ => cameras
  end.

(** The frames of the reads that succeeded, in order. *)
Fixpoint delivered (reads : list (option Image)) : list Image :=
  match reads with
  | [] => []
  | Some frame :: rest => frame :: delivered rest
  | None :: rest => delivered rest
  end.

(** The file name [f"{name}_{i+1}.jpg"] handed to [os.path.join]. *)
Definition image_file_name (name : pystr) (i : nat) : pystr :=
  name ++ str "_" ++ str_of_nat (i + 1) ++ str ".jpg".

(** The paths of the [cv2.imwrite] calls among some effects. *)
Fixpoint written_images (effects : list Effect) : list pystr :=
  match effects with
  | [] => []
  | ImWrite path _ :: rest => path :: written_images rest
  | _ :: rest => written_images rest
  end.

(** A tick on which the camera delivers both reads and a face is seen. *)
Definition face_tick (t : ScannerReads) : Prop :=
  exists a b,
    t = {| frame_read := Some a; capture_read := Some b |} /\
    scanner_face_detected (flip a) = true.

End Engine.

Unset Implicit Arguments.

(** * The matching block over the arithmetic of the encodings

    The encodings are arrays of floating-point numbers, and what the
    matching block compares are the distances numpy computes from them in
    the arithmetic of their dtype.  The block is given here over the
    operations numpy applies to the elements; exact arithmetic on the reals,
    on which [match_known] is written, and IEEE binary64 are two
    instances. *)

(** The element type of an array with the numpy operations the matching
    block applies to it. *)
Record Dtype := mkDtype {
  scalar : Type;
  np_subtract : scalar -> scalar -> scalar;
  np_multiply : scalar -> scalar -> scalar;
  (** [np.add.reduce] over one row, in numpy's order of summation *)
  np_add_reduce : list scalar -> scalar;
  np_sqrt : scalar -> scalar;
  np_less : scalar -> scalar -> bool;
  np_greater_equal : scalar -> scalar -> bool;
  np_isnan : scalar -> bool;
  (** the literal [0.8] as the comparison with a distance takes it *)
  literal_0_8 : scalar
}.

Section Matching.

Variable T : Dtype.

Variable dim : nat.

Definition Row := Vector.t (scalar T) dim.

(** [row - encoding] *)
Definition row_subtract (row encoding : Row) : Row :=
  Vector.map2 (np_subtract T) row encoding.

(** [np.linalg.norm] of one row [x]: [sqrt(add.reduce(x * x))]. *)
Definition np_linalg_norm (x : Row) : scalar T :=
  np_sqrt T (np_add_reduce T (Vector.to_list (Vector.map (fun c => np_multiply T c c) x))).

(** [np.linalg.norm(known_face_encodings - encoding, axis=1)] *)
Definition row_distances (known : list Row) (encoding : Row) : list (scalar T) :=
  List.map (fun row => np_linalg_norm (row_subtract row encoding)) known.

(** The scan of [np.argmin] over floating-point numbers: the running
    minimum [mp] is replaced by an element [x] when [x >= mp] does not
    hold, and the scan stops at the first NaN. *)
Fixpoint np_argmin_from (l : list (scalar T)) (i min_ind : nat) (mp : scalar T) : nat :=
  match l with
  | [] => min_ind
  | x :: rest =>
      if negb (np_greater_equal T x mp) then
        if np_isnan T x then i else np_argmin_from rest (S i) i x
      else np_argmin_from rest (S i) min_ind mp
  end.

(** [None] stands for the [ValueError] raised on an empty array. *)
Definition np_argmin (l : list (scalar T)) : option nat :=
  match l with
  | [] => None
  | x :: rest => Some (if np_isnan T x then 0%nat else np_argmin_from rest 1 0 x)
  end.

Record RowMatch := mkRowMatch {
  row_name : pystr;
  row_computed_distances : option (list (scalar T))
}.

(** The matching block of [update_frame] on the two lists of the registry;
    [None] stands for an exception raised inside the block. *)
Definition match_rows (known : list Row) (names : list pystr) (encoding : Row)
  : option RowMatch :=
  if (0 <? List.length known)%nat then
    let distances := row_distances known encoding in
    match np_argmin distances with
    | None => None
    | Some best_match_idx =>
        match nth_error distances best_match_idx with
        | None => None
        | Some min_distance =>
            match nth_error names best_match_idx with
            | None => None
            | Some candidate =>
                Some {| row_name :=
                          if np_less T min_distance (literal_0_8 T) then candidate
                          else Unknown;
                        row_computed_distances := Some distances |}
            end
        end
    end
  else Some {| row_name := Unknown; row_computed_distances := None |}.

(** The Euclidean distance of the spec between a stored vector and the
    query, evaluated in the arithmetic of the dtype: the square root of the
    sum over the coordinates of the squared differences. *)
Definition euclidean_distance (v q : Row) : scalar T :=
  np_sqrt T
    (np_add_reduce T
       (Vector.to_list
          (Vector.map2 (fun a b => np_multiply T (np_subtract T a b) (np_subtract T a b))
                       v q))).

(** The values of [ds] are numbers (none is a NaN), which [<] and [>=]
    compare as a total order does. *)
Definition numbers (ds : list (scalar T)) : Prop :=
  (forall x, In x ds -> np_isnan T x = false) /\
  (forall x y, In x ds -> In y ds -> np_greater_equal T x y = negb (np_less T x y)) /\
  (forall x y, In x ds -> In y ds -> np_less T x y = true -> np_less T y x = false) /\
  (forall x y z, In x ds -> In y ds -> In z ds ->
     np_less T x y = true -> np_less T x z = true \/ np_less T z y = true).

(** [v], stored at position [i], is a vector at the least distance from the
    query, and the first such in insertion order. *)
Definition first_nearest (known : list Row) (q : Row) (i : nat) (v : Row) : Prop :=
  nth_error known i = Some v /\
  (forall j u, nth_error known j = Some u ->
     np_less T (euclidean_distance u q) (euclidean_distance v q) = false) /\
  (forall j u, (j < i)%nat -> nth_error known j = Some u ->
     np_less T (euclidean_distance v q) (euclidean_distance u q) = true).

(** [k] is the first position of [ds] that holds a least value, [m]. *)
Definition first_least (ds : list (scalar T)) (k : nat) (m : scalar T) : Prop :=
  nth_error ds k = Some m /\
  (forall j x, nth_error ds j = Some x -> np_less T x m = false) /\
  (forall j x, (j < k)%nat -> nth_error ds j = Some x -> np_less T m x = true).

End Matching.

(** Exact arithmetic on the reals, the idealisation [norm] and [match_known]
    are written in. *)
Definition exact : Dtype :=
  {| scalar := R;
     np_subtract := Rminus;
     np_multiply := Rmult;
     np_add_reduce := fun l => fold_right Rplus 0 l;
     np_sqrt := sqrt;
     np_less := fun a b => if Rlt_dec a b then true else false;
     np_greater_equal := fun a b => if Rge_dec a b then true else false;
     np_isnan := fun _ => false;
     literal_0_8 := 0.8 |}.

(** IEEE binary64, with rows summed from left to right, as numpy sums rows
    of fewer than 8 elements. *)
Definition binary64 : Dtype :=
  {| scalar := float;
     np_subtract := PrimFloat.sub;
     np_multiply := PrimFloat.mul;
     np_add_reduce := fun l => fold_left PrimFloat.add l 0%float;
     np_sqrt := PrimFloat.sqrt;
     np_less := PrimFloat.ltb;
     np_greater_equal := fun a b => PrimFloat.leb b a;
     np_isnan := PrimFloat.is_nan;
     literal_0_8 := 0x1.999999999999ap-1%float |}.

Set Implicit Arguments.

(** * Sample inputs *)

Definition blank (h w : Z) : Image :=
  {| height := h; width := w; pixel := fun _ _ => (0, 0, 0)%Z |}.

Definition halve (img : Image) : Image :=
  {| height := height img / 2; width := width img / 2;
     pixel := fun r c => pixel img (2 * r) (2 * c)%Z |}.

Definition frame100 : Image := blank 100 100.

Definition vec1 (x : R) : Encoding 1 := Vector.cons R x 0 (Vector.nil R).

Definition width_recognizer (img : Image) : option (Encoding 1) :=
  Some (vec1 (IZR (width img))).

Definition two_faces (_ : Image) : list Detection :=
  [mkDetection 0.9 0.1 0.1 0.5 0.5; mkDetection 0.8 0.5 0.5 0.7 0.9].

Definition alice : pystr := str "alice".

Definition bob : pystr := str "bob".

Definition two_people : Registry 1 :=
  {| known_face_encodings := [vec1 40; vec1 20];
     known_face_names := [alice; bob] |}.

Definition profile_of (name : pystr) : PersonProfile :=
  {| profile_name := name; profile_age := str "30"; profile_gender := str "Other";
     profile_occupation := str "Unknown"; profile_nationality := str "Unknown";
     profile_status := str "CIVILIAN"; profile_threat_level := str "LOW";
     profile_notes := str "No additional information." |}.

Definition live_two_faces : MainWindow 1 * FrameOutput :=
  update_frame two_faces width_recognizer profile_of halve
               (initial_window two_people) (Some frame100).

(** A detector that sees three faces in a 100-row image (the last two with
    the same, greatest confidence) and, in any other image, one face whose
    box lies beyond the right edge. *)
Definition by_height (img : Image) : list Detection :=
  if (height img =? 100)%Z then
    [mkDetection 0.6 0.1 0.1 0.5 0.5;
     mkDetection 0.9 0.2 0.2 0.6 0.6;
     mkDetection 0.9 0 0 1 1]
  else [mkDetection 0.9 1.2 0.2 1.5 0.8].

Definition offside : Image := blank 80 100.

(** A detector whose one box has a right edge beyond what [int64] holds. *)
Definition far_right (_ : Image) : list Detection :=
  [mkDetection 0.9 0 0 (IZR (10 ^ 20)) 1].

Definition alice_dataset : Dataset :=
  Listed [ (alice, PersonDirectory [ (str "alice_1.jpg", Some frame100);
                                     (str "alice_2.jpg", Some offside);
                                     (str "notes.txt", None) ]);
           (str "README.md", NotADirectory) ].

Definition one_face (_ : Image) : list Detection :=
  [mkDetection 0.9 0.1 0.1 0.5 0.5].

Definition alice_form : FormFields :=
  {| field_name := str "  Alice ";
     field_age := 30;
     field_gender := mkComboBox [str "Male"; str "Female"; str "Other"] 1;
     field_occupation := [];
     field_nationality := str "Wonderland";
     field_status := mkComboBox [str "CIVILIAN"; str "VIP"] 0;
     field_threat_level := mkComboBox [str "LOW"; str "HIGH"] 0;
     field_notes := [] |}.

Definition blank_form : FormFields :=
  {| field_name := str "  ";
     field_age := 30;
     field_gender := mkComboBox [str "Male"; str "Female"; str "Other"] 0;
     field_occupation := [];
     field_nationality := [];
     field_status := mkComboBox [str "CIVILIAN"; str "VIP"] 0;
     field_threat_level := mkComboBox [str "LOW"; str "HIGH"] 0;
     field_notes := [] |}.

(** A session with auto-capture on, 59 frames polled, nothing captured. *)
Definition scanner59 : Scanner :=
  {| captured_images := [];
     auto_capture := true;
     scanner_frame_count := 59;
     form_fields := alice_form |}.

(** [posixpath.join] on two components. *)
Definition posix_join (a b : pystr) : pystr :=
  if startswith b (str "/") then b
  else match a with
       | [] => b
       | _ :: _ => if endswith a (str "/") then a ++ b else a ++ str "/" ++ b
       end.

Definition alice_session : Scanner :=
  {| captured_images := [frame100; offside; frame100];
     auto_capture := false;
     scanner_frame_count := 200;
     form_fields := alice_form |}.

Definition blank_session : Scanner :=
  {| captured_images := [frame100; offside; frame100; offside; frame100];
     auto_capture := false;
     scanner_frame_count := 200;
     form_fields := blank_form |}.

(** A settings file asking for a strict matcher that processes every frame. *)
Definition strict_file : Dict :=
  [ item "recognition_threshold" (VFloat 0.1);
    item "confidence_threshold" (VFloat 0.95);
    item "process_every_n_frames" (VInt 1) ].

Definition strict_settings : Dict := load_settings (Some (Some strict_file)).

Definition one_person : Registry 1 :=
  {| known_face_encodings := [vec1 40]; known_face_names := [alice] |}.

(** A session just opened with auto-capture switched on. *)
Definition fresh_session : Scanner :=
  {| captured_images := [];
     auto_capture := true;
     scanner_frame_count := 0;
     form_fields := alice_form |}.

(** A tick on which both camera reads succeed. *)
Definition both_reads : ScannerReads :=
  {| frame_read := Some frame100; capture_read := Some offside |}.

Definition four_frames_session : Scanner :=
  {| captured_images := [frame100; offside; frame100; offside];
     auto_capture := false;
     scanner_frame_count := 300;
     form_fields := alice_form |}.

(** A form whose name holds a path separator. *)
Definition slash_form : FormFields :=
  {| field_name := str "a/b";
     field_age := 30;
     field_gender := mkComboBox [str "Male"; str "Female"; str "Other"] 1;
     field_occupation := [];
     field_nationality := [];
     field_status := mkComboBox [str "CIVILIAN"; str "VIP"] 0;
     field_threat_level := mkComboBox [str "LOW"; str "HIGH"] 0;
     field_notes := [] |}.

Definition slash_session : Scanner :=
  {| captured_images := [frame100; offside; frame100];
     auto_capture := false;
     scanner_frame_count := 200;
     form_fields := slash_form |}.

(** A disk that holds the working directory [/app] and nothing else. *)
Definition fresh_disk : FileSystem :=
  {| working_directory := [str "app"];
     directories := [[str "app"]];
     files := [] |}.

(** ** Encodings in binary64 *)

Definition row1 (x : float) : Row binary64 1 := Vector.cons float x 0 (Vector.nil float).

(** Two stored vectors, [0] first and [2^-60] second, and the query [0.5]:
    the second is the nearer one, by [2^-60], but both differences round to
    [-0.5]. *)
Definition near_tie : list (Row binary64 1) := [row1 0%float; row1 0x1p-60%float].

(** ** Settings objects *)

(** The objects of [DEFAULT_SETTINGS], some scalar keys left out: the dict
    at 0, its threat levels at 1 and status types at 2, their entries after
    them. *)
Definition default_threat_levels : list (pystr * pystr) :=
  [(str "LOW", str "#00C864"); (str "MODERATE", str "#FFA500");
   (str "HIGH", str "#FF4444"); (str "CRITICAL", str "#8B0000")].

Definition default_status_types : list (pystr * pystr) :=
  [(str "CIVILIAN", str "#6C757D"); (str "VIP", str "#FFD700");
   (str "EMPLOYEE", str "#0096FF"); (str "VISITOR", str "#9370DB");
   (str "WANTED", str "#DC143C"); (str "UNKNOWN", str "#808080")].

Definition named_color_dict (item : pystr * pystr) : PyObj :=
  PyDict [("name"%string, PStr (fst item)); ("color"%string, PStr (snd item))].

Definition default_heap : Heap :=
  [PyDict [("auto_capture_enabled"%string, PBool false);
           ("auto_capture_interval"%string, PFloat 2);
           ("capture_count_target"%string, PInt 5);
           ("recognition_threshold"%string, PFloat 0.8);
           ("threat_levels"%string, PRef 1);
           ("status_types"%string, PRef 2);
           ("default_status"%string, PStr (str "CIVILIAN"));
           ("default_threat_level"%string, PStr (str "LOW"))];
   PyList [PRef 3; PRef 4; PRef 5; PRef 6];
   PyList [PRef 7; PRef 8; PRef 9; PRef 10; PRef 11; PRef 12]]
  ++ List.map named_color_dict default_threat_levels
  ++ List.map named_color_dict default_status_types.

(** [str.upper] on ASCII text. *)
Definition ascii_upper (s : pystr) : pystr :=
  List.map (fun c => if (N.leb 97 c && N.leb c 122)%bool then (c - 32)%N else c) s.

(** [int(s, 16)] on strings of hexadecimal digits. *)
Definition hex_digit (c : N) : option Z :=
  if (N.leb 48 c && N.leb c 57)%bool then Some (Z.of_N c - 48)%Z
  else if (N.leb 65 c && N.leb c 70)%bool then Some (Z.of_N c - 55)%Z
  else if (N.leb 97 c && N.leb c 102)%bool then Some (Z.of_N c - 87)%Z
  else None.

Fixpoint hex_value (acc : Z) (s : pystr) : option Z :=
  match s with
  | [] => Some acc
  | c :: rest =>
      match hex_digit c with
      | Some d => hex_value (16 * acc + d)%Z rest
      | None => None
      end
  end.

Definition int16_of_digits (s : pystr) : option Z :=
  match s with
  | [] => None
  | _ => hex_value 0%Z s
  end.

(** * Properties *)

Unset Implicit Arguments.

Section Properties.

Set Default Proof Using "Type".

Variable dim : nat.
Variable face_detector : Image -> list Detection.
Variable face_recognizer : Image -> option (Encoding dim).
Variable get_profile : pystr -> PersonProfile.
Variable resize_half : Image -> Image.
Variable path_join : pystr -> pystr -> pystr.
Variable now : pystr.

(** ** Nearest neighbour search *)

Lemma argmin_from_first_min (t pre : list R) (best_i : nat) (best : R) :
  first_min pre best_i best ->
  exists m, first_min (pre ++ t) (argmin_from t (List.length pre) best_i best) m.
Proof.
  revert pre best_i best.
  induction t as [|x t IH]; intros pre best_i best Hmin; simpl.
  - exists best. now rewrite app_nil_r.
  - destruct Hmin as (Hk & Hle & Hlt).
    assert (Hlen : List.length (pre ++ [x]) = S (List.length pre))
      by (rewrite length_app; simpl; lia).
    replace (pre ++ x :: t) with ((pre ++ [x]) ++ t)
      by (rewrite <- app_assoc; reflexivity).
    destruct (Rlt_dec x best) as [Hx|Hx]; rewrite <- Hlen; apply IH.
    + repeat split.
      * rewrite nth_error_app2 by lia. now rewrite Nat.sub_diag.
      * intros j y Hj.
        destruct (Nat.lt_ge_cases j (List.length pre)) as [Hjl|Hjl].
        -- rewrite nth_error_app1 in Hj by lia. apply Hle in Hj. lra.
        -- rewrite nth_error_app2 in Hj by lia.
           destruct (j - List.length pre)%nat as [|n]; simpl in Hj.
           ++ injection Hj as <-. lra.
           ++ destruct n; discriminate.
      * intros j y Hjl Hj.
        rewrite nth_error_app1 in Hj by lia. apply Hle in Hj. lra.
    + assert (Hbi : (best_i < List.length pre)%nat)
        by (apply nth_error_Some; congruence).
      repeat split.
      * rewrite nth_error_app1 by lia. exact Hk.
      * intros j y Hj.
        destruct (Nat.lt_ge_cases j (List.length pre)) as [Hjl|Hjl].
        -- rewrite nth_error_app1 in Hj by lia. now apply Hle in Hj.
        -- rewrite nth_error_app2 in Hj by lia.
           destruct (j - List.length pre)%nat as [|n]; simpl in Hj.
           ++ injection Hj as <-. lra.
           ++ destruct n; discriminate.
      * intros j y Hjl Hj.
        rewrite nth_error_app1 in Hj by lia. now apply Hlt with (j := j).
Qed.

Lemma argmin_first_min (l : list R) :
  l <> [] -> exists k m, argmin l = Some k /\ first_min l k m.
Proof.
  destruct l as [|x t]; [congruence|]. intros _.
  destruct (argmin_from_first_min t [x] 0%nat x) as [m Hm].
  - repeat split.
    + intros j y Hj. destruct j as [|[|j]]; simpl in Hj; try discriminate.
      injection Hj as <-. lra.
    + intros j y Hj. lia.
  - exists (argmin_from t 1 0 x), m. split; [reflexivity|exact Hm].
Qed.

Lemma first_min_unique (l : list R) (k k' : nat) (m m' : R) :
  first_min l k m -> first_min l k' m' -> k = k' /\ m = m'.
Proof.
  intros (Hk & Hle & Hlt) (Hk' & Hle' & Hlt').
  assert (m = m') by (apply Hle in Hk'; apply Hle' in Hk; lra). subst m'.
  split; [|reflexivity].
  destruct (Nat.lt_trichotomy k k') as [H|[H|H]]; [|exact H|].
  - specialize (Hlt' _ _ H Hk). lra.
  - specialize (Hlt _ _ H Hk'). lra.
Qed.

(** ** Euclidean norm *)

Lemma sum_squares_nonneg (n : nat) (x : Vector.t R n) :
  0 <= Vector.fold_right (fun c s => c * c + s) x 0.
Proof.
  induction x as [|c n x IH]; simpl; [lra|]. nra.
Qed.

Lemma norm_nonneg (x : Encoding dim) : 0 <= norm x.
Proof. apply sqrt_pos. Qed.

Lemma sum_squares_sub_self (n : nat) (v : Vector.t R n) :
  Vector.fold_right (fun c s => c * c + s) (Vector.map2 Rminus v v) 0 = 0.
Proof.
  induction v as [|c n v IH]; simpl; [reflexivity|]. rewrite IH. lra.
Qed.

Lemma norm_sub_self (v : Encoding dim) : norm (sub v v) = 0.
Proof.
  unfold norm, sub. rewrite sum_squares_sub_self. apply sqrt_0.
Qed.

Lemma sum_squares_sub_zero (n : nat) (u v : Vector.t R n) :
  Vector.fold_right (fun c s => c * c + s) (Vector.map2 Rminus u v) 0 = 0 ->
  u = v.
Proof.
  revert n u v.
  refine (@Vector.rect2 R R (fun n u v =>
    Vector.fold_right (fun c s => c * c + s) (Vector.map2 Rminus u v) 0 = 0 ->
    u = v) _ _); [reflexivity|].
  intros n u v IH a b H. simpl in H.
  pose proof (sum_squares_nonneg _ (Vector.map2 Rminus u v)) as Hs.
  assert (Ha : a = b) by nra.
  assert (Hr : Vector.fold_right (fun c s => c * c + s)
                 (Vector.map2 Rminus u v) 0 = 0) by nra.
  rewrite (IH Hr), Ha. reflexivity.
Qed.

Lemma norm_sub_zero (u v : Encoding dim) : norm (sub u v) = 0 -> u = v.
Proof.
  unfold norm, sub. intros H.
  apply sum_squares_sub_zero.
  apply sqrt_eq_0; [apply sum_squares_nonneg|exact H].
Qed.

(** ** The matching block *)

Lemma nth_error_distances (known : list (Encoding dim)) (q : Encoding dim) (i : nat) :
  nth_error (distances_to known q) i =
  option_map (fun k => norm (sub k q)) (nth_error known i).
Proof. unfold distances_to. apply nth_error_map. Qed.

Lemma match_known_nonempty (reg : Registry dim) (q : Encoding dim) :
  known_face_encodings reg <> [] ->
  List.length (known_face_encodings reg) = List.length (known_face_names reg) ->
  exists i v label,
    nth_error (known_face_encodings reg) i = Some v /\
    nth_error (known_face_names reg) i = Some label /\
    first_min (distances_to (known_face_encodings reg) q) i (norm (sub v q)) /\
    match_known reg q =
      Some {| matched_name :=
                if Rlt_dec (norm (sub v q)) 0.8 then label else Unknown;
              computed_distances :=
                Some (distances_to (known_face_encodings reg) q) |}.
Proof.
  intros Hne Hlen.
  assert (Hd : distances_to (known_face_encodings reg) q <> []).
  { unfold distances_to. destruct (known_face_encodings reg); simpl; congruence. }
  destruct (argmin_first_min _ Hd) as (k & m & Harg & Hmin).
  pose proof Hmin as (Hk & _ & _).
  rewrite nth_error_distances in Hk.
  destruct (nth_error (known_face_encodings reg) k) as [v|] eqn:Hv;
    [|discriminate].
  simpl in Hk. injection Hk as Hm.
  assert (Hkl : (k < List.length (known_face_names reg))%nat).
  { rewrite <- Hlen. apply nth_error_Some. congruence. }
  destruct (nth_error (known_face_names reg) k) as [label|] eqn:Hl;
    [|apply nth_error_Some in Hkl; congruence].
  exists k, v, label. repeat split; try assumption; try (rewrite Hm; apply Hmin).
  unfold match_known.
  assert (Hpos : (0 <? List.length (known_face_encodings reg))%nat = true).
  { apply Nat.ltb_lt. destruct (known_face_encodings reg);
      [congruence|simpl; lia]. }
  rewrite Hpos, Harg.
  destruct Hmin as (Hk' & _ & _). rewrite Hk', Hl, Hm. reflexivity.
Qed.

(** C7. Against a registry with no stored vector the matching block assigns
    ["Unknown"] for every query, raises nothing, and does not evaluate
    [np.linalg.norm]. *)
Theorem query_empty_registry_unknown (names : list pystr) (q : Encoding dim) :
  match_known {| known_face_encodings := []; known_face_names := names |} q =
    Some {| matched_name := Unknown; computed_distances := None |} /\
  resolve_name {| known_face_encodings := []; known_face_names := names |} q =
    Unknown.
Proof. split; reflexivity. Qed.

Lemma match_known_identical (reg : Registry dim) (q : Encoding dim) (i : nat) :
  List.length (known_face_encodings reg) = List.length (known_face_names reg) ->
  nth_error (known_face_encodings reg) i = Some q ->
  exists j label,
    (j <= i)%nat /\
    nth_error (known_face_encodings reg) j = Some q /\
    nth_error (known_face_names reg) j = Some label /\
    first_min (distances_to (known_face_encodings reg) q) j 0 /\
    match_known reg q =
      Some {| matched_name := label;
              computed_distances :=
                Some (distances_to (known_face_encodings reg) q) |}.
Proof.
  intros Hlen Hq.
  assert (Hne : known_face_encodings reg <> []).
  { intros E. rewrite E in Hq. destruct i; discriminate. }
  destruct (match_known_nonempty reg q Hne Hlen)
    as (j & v & label & Hv & Hl & Hmin & Hm).
  pose proof Hmin as (Hj & Hle & Hlt).
  assert (H0 : norm (sub v q) = 0).
  { assert (norm (sub v q) <= 0).
    { apply (Hle i). rewrite nth_error_distances, Hq. simpl.
      now rewrite norm_sub_self. }
    pose proof (norm_nonneg (sub v q)). lra. }
  assert (v = q) by (now apply norm_sub_zero). subst v.
  assert (Hji : (j <= i)%nat).
  { destruct (Nat.le_gt_cases j i) as [H|H]; [exact H|].
    assert (norm (sub q q) < 0); [|lra].
    apply (Hlt i _ H). rewrite nth_error_distances, Hq. simpl.
    now rewrite norm_sub_self. }
  exists j, label.
  assert (Hname : (if Rlt_dec (norm (sub q q)) 0.8 then label else Unknown) = label).
  { destruct (Rlt_dec (norm (sub q q)) 0.8); [reflexivity|lra]. }
  rewrite Hname in Hm. rewrite H0 in Hmin.
  split; [exact Hji|]. split; [exact Hv|]. split; [exact Hl|].
  split; [exact Hmin|exact Hm].
Qed.


(** ** Registry build *)

Lemma for_each_invariant {A S : Type} (P : S -> Prop)
  (body : A -> S -> Outcome S) (l : list A) :
  (forall a s, P s -> P (state_of (body a s))) ->
  forall s, P s -> P (state_of (for_each body l s)).
Proof.
  intros Hbody. induction l as [|a t IH]; intros s Hs; simpl; [exact Hs|].
  pose proof (Hbody a s Hs) as Ha.
  destruct (body a s) as [s'|s']; simpl in *; [apply IH|]; exact Ha.
Qed.

Lemma append_face_aligned (reg : Registry dim) (e : Encoding dim) (n : pystr) :
  aligned reg -> aligned (append_face reg e n).
Proof.
  unfold aligned, append_face. simpl. intros H.
  rewrite !length_app, H. reflexivity.
Qed.

Lemma load_image_aligned (person_name : pystr) (image : Image) (reg : Registry dim) :
  aligned reg ->
  aligned (state_of (load_image face_detector face_recognizer person_name image reg)).
Proof.
  intros H. unfold load_image.
  destruct (fst (select_best _ _ _ None 0)) as [b|]; [|exact H].
  destruct (size _ >? 0)%Z; [|exact H].
  destruct (face_recognizer _); simpl; [now apply append_face_aligned|exact H].
Qed.

Lemma load_image_file_aligned (person_name : pystr) (f : ImageFile) (reg : Registry dim) :
  aligned reg ->
  aligned (state_of (load_image_file face_detector face_recognizer person_name f reg)).
Proof.
  intros H. unfold load_image_file.
  destruct (endswith_any _ _); [|exact H].
  destruct (snd f); [now apply load_image_aligned|exact H].
Qed.

Lemma load_person_aligned (e : pystr * DatasetEntry) (reg : Registry dim) :
  aligned reg -> aligned (state_of (load_person face_detector face_recognizer e reg)).
Proof.
  intros H. unfold load_person. destruct (snd e) as [|files|]; [exact H| |exact H].
  apply for_each_invariant; [|exact H].
  intros f s. apply load_image_file_aligned.
Qed.

Lemma load_known_faces_aligned (dataset : Dataset) :
  aligned (state_of (load_known_faces face_detector face_recognizer dataset)).
Proof.
  destruct dataset as [|listing|]; simpl; [reflexivity| |reflexivity].
  apply for_each_invariant; [|reflexivity].
  intros e s. apply load_person_aligned.
Qed.

(** C10. After every registry build, whether it ran to the end or stopped on
    an exception, the encoding list and the name list have the same length;
    hence for every query against a non-empty built registry [np.argmin]
    returns an index at which the name list has an element. *)
Theorem build_keeps_lists_aligned (dataset : Dataset) (q : Encoding dim) :
  let reg := state_of (load_known_faces face_detector face_recognizer dataset) in
  List.length (known_face_encodings reg) = List.length (known_face_names reg) /\
  (known_face_encodings reg <> [] ->
   exists idx label,
     argmin (distances_to (known_face_encodings reg) q) = Some idx /\
     (idx < List.length (known_face_names reg))%nat /\
     nth_error (known_face_names reg) idx = Some label).
Proof.
  intros reg. pose proof (load_known_faces_aligned dataset) as Hal.
  fold reg in Hal. split; [exact Hal|]. intros Hne.
  assert (Hd : distances_to (known_face_encodings reg) q <> []).
  { unfold distances_to. destruct (known_face_encodings reg); simpl; congruence. }
  destruct (argmin_first_min _ Hd) as (k & m & Harg & Hk & _).
  assert (Hkl : (k < List.length (known_face_names reg))%nat).
  { rewrite <- Hal. unfold distances_to in Hk.
    rewrite <- (length_map (fun e => norm (sub e q))).
    apply nth_error_Some. congruence. }
  destruct (nth_error (known_face_names reg) k) as [label|] eqn:Hl;
    [|apply nth_error_Some in Hkl; congruence].
  exists k, label. repeat split; assumption.
Qed.

Lemma select_best_invariant (t pre : list Detection) (w h : Z)
  (bd : option (R * R * R * R)) (bc : R) :
  best_so_far pre w h bd bc ->
  best_so_far (pre ++ t) w h (fst (select_best t w h bd bc))
              (snd (select_best t w h bd bc)).
Proof.
  revert pre bd bc.
  induction t as [|x t IH]; intros pre bd bc H; simpl.
  - now rewrite app_nil_r.
  - replace (pre ++ x :: t) with ((pre ++ [x]) ++ t)
      by (rewrite <- app_assoc; reflexivity).
    assert (Hnew : forall j d', nth_error (pre ++ [x]) j = Some d' ->
              (j < List.length pre)%nat /\ nth_error pre j = Some d' \/
              j = List.length pre /\ d' = x).
    { intros j d' Hj.
      destruct (Nat.lt_ge_cases j (List.length pre)) as [Hjl|Hjl].
      - left. rewrite nth_error_app1 in Hj by lia. auto.
      - right. rewrite nth_error_app2 in Hj by lia.
        destruct (j - List.length pre)%nat as [|n] eqn:E; simpl in Hj.
        + injection Hj as <-. split; [lia|reflexivity].
        + destruct n; discriminate. }
    destruct (Rgt_dec (confidence x) 0.5) as [Hx|Hx];
      [destruct (Rgt_dec (confidence x) bc) as [Hb|Hb]|]; apply IH.
    + (* x replaces the running best *)
      exists (List.length pre), x. repeat split; try assumption.
      * rewrite nth_error_app2 by lia. now rewrite Nat.sub_diag.
      * intros j d' Hj. destruct (Hnew j d' Hj) as [[Hjl Hp]|[_ ->]]; [|lra].
        destruct bd as [b|]; simpl in H.
        -- destruct H as (i & d & _ & _ & -> & _ & Hle & _).
           specialize (Hle j d' Hp). lra.
        -- destruct H as [_ H]. apply nth_error_In in Hp. specialize (H d' Hp). lra.
      * intros j d' Hjl Hj. rewrite nth_error_app1 in Hj by lia.
        destruct bd as [b|]; simpl in H.
        -- destruct H as (i & d & _ & _ & -> & _ & Hle & _).
           specialize (Hle j d' Hj). lra.
        -- destruct H as [_ H]. apply nth_error_In in Hj. specialize (H d' Hj). lra.
    + (* x is above 0.5 but does not beat the running best *)
      destruct bd as [b|]; simpl in H.
      * destruct H as (i & d & Hi & -> & -> & Hd & Hle & Hlt).
        assert (Hil : (i < List.length pre)%nat)
          by (apply nth_error_Some; congruence).
        exists i, d. repeat split; try assumption.
        -- rewrite nth_error_app1 by lia. exact Hi.
        -- intros j d' Hj. destruct (Hnew j d' Hj) as [[_ Hp]|[_ ->]]; [|lra].
           now apply (Hle j).
        -- intros j d' Hji Hj. rewrite nth_error_app1 in Hj by lia.
           now apply (Hlt j).
      * destruct H as [-> _]. lra.
    + (* x is not above 0.5 *)
      destruct bd as [b|]; simpl in H.
      * destruct H as (i & d & Hi & -> & -> & Hd & Hle & Hlt).
        assert (Hil : (i < List.length pre)%nat)
          by (apply nth_error_Some; congruence).
        exists i, d. repeat split; try assumption.
        -- rewrite nth_error_app1 by lia. exact Hi.
        -- intros j d' Hj. destruct (Hnew j d' Hj) as [[_ Hp]|[_ ->]]; [|lra].
           now apply (Hle j).
        -- intros j d' Hji Hj. rewrite nth_error_app1 in Hj by lia.
           now apply (Hlt j).
      * destruct H as [-> H]. split; [reflexivity|].
        intros d Hd. apply in_app_or in Hd. destruct Hd as [Hd|[<-|[]]].
        -- now apply H.
        -- lra.
Qed.

Lemma select_best_spec (detections : list Detection) (w h : Z) :
  best_so_far detections w h (fst (select_best detections w h None 0))
              (snd (select_best detections w h None 0)).
Proof.
  apply (select_best_invariant detections [] w h None 0).
  split; [reflexivity|]. intros d [].
Qed.

Lemma load_image_no_detection (person_name : pystr) (image : Image) (reg : Registry dim) :
  (forall d, In d (face_detector image) -> confidence d <= 0.5) ->
  load_image face_detector face_recognizer person_name image reg = Completed reg.
Proof.
  intros Hall. unfold load_image.
  pose proof (select_best_spec (face_detector image) (width image) (height image))
    as Hs.
  destruct (fst (select_best _ _ _ None 0)) as [b|]; [|reflexivity].
  destruct Hs as (i & d & Hi & _ & _ & Hd & _).
  apply nth_error_In in Hi. specialize (Hall d Hi). lra.
Qed.

(** C8 (amended). For one image of a subject directory the build keeps at most
    one detection: none when no confidence exceeds 0.5, in which case the
    image is skipped and the loop goes on with the remaining files; otherwise
    the first detection of greatest confidence.  For the kept detection one
    (embedding, label) pair is appended when its clipped crop is not empty and
    the recognizer returns an embedding; when the clipped crop is empty nothing
    is appended and the build goes on.  The registry never grows by more than
    one pair per image, and a missing dataset directory gives the empty
    registry without an error. *)
Theorem build_keeps_first_best_detection_with_nonempty_crop
  (person_name : pystr) (image : Image) (reg : Registry dim) :
  let detections := face_detector image in
  let w := width image in
  let h := height image in
  ((forall d, In d detections -> confidence d <= 0.5) ->
   load_image face_detector face_recognizer person_name image reg = Completed reg /\
   forall file_name rest,
     for_each (load_image_file face_detector face_recognizer person_name)
              ((file_name, Some image) :: rest) reg =
     for_each (load_image_file face_detector face_recognizer person_name) rest reg) /\
  ((exists d, In d detections /\ confidence d > 0.5) ->
   exists i d,
     nth_error detections i = Some d /\
     confidence d > 0.5 /\
     (forall j d', nth_error detections j = Some d' -> confidence d' <= confidence d) /\
     (forall j d', (j < i)%nat -> nth_error detections j = Some d' ->
        confidence d' < confidence d) /\
     let face_image :=
       crop_box image (clip_box (box_astype_int (scale_box d w h)) w h) in
     ((size face_image > 0)%Z ->
      forall encoding, face_recognizer face_image = Some encoding ->
        load_image face_detector face_recognizer person_name image reg =
          Completed (append_face reg encoding person_name)) /\
     ((size face_image <= 0)%Z ->
      load_image face_detector face_recognizer person_name image reg = Completed reg)) /\
  (List.length
     (known_face_encodings
        (state_of (load_image face_detector face_recognizer person_name image reg)))
   <= S (List.length (known_face_encodings reg)))%nat /\
  load_known_faces face_detector face_recognizer Missing = Completed (empty_registry dim).
Proof.
  intros detections w h. repeat split.
  - now apply load_image_no_detection.
  - intros file_name rest.
    assert (Hskip : load_image_file face_detector face_recognizer person_name
                      (file_name, Some image) reg =
                    Completed reg).
    { unfold load_image_file. cbn [fst snd].
      destruct (endswith_any file_name image_suffixes); [|reflexivity].
      now apply load_image_no_detection. }
    cbn [for_each]. rewrite Hskip. reflexivity.
  - intros (d0 & Hin & Hd0).
    pose proof (select_best_spec detections w h) as Hs.
    destruct (fst (select_best detections w h None 0)) as [b|] eqn:Hb.
    + destruct Hs as (i & d & Hi & -> & _ & Hd & Hle & Hlt).
      exists i, d. repeat split; try assumption.
      * intros Hsize encoding Henc. unfold load_image.
        fold detections w h. rewrite Hb.
        replace (size _ >? 0)%Z with true
          by (symmetry; apply Z.gtb_lt; lia).
        rewrite Henc. reflexivity.
      * intros Hsize. unfold load_image. fold detections w h. rewrite Hb.
        replace (size _ >? 0)%Z with false; [reflexivity|].
        symmetry. rewrite Z.gtb_ltb. apply Z.ltb_ge. exact Hsize.
    + destruct Hs as [_ Hall]. specialize (Hall d0 Hin). lra.
  - unfold load_image.
    destruct (fst (select_best _ _ _ None 0)); [|simpl; lia].
    destruct (size _ >? 0)%Z; [|simpl; lia].
    destruct (face_recognizer _); simpl; [|lia].
    rewrite length_app. simpl. lia.
Qed.

(** ** Live matching *)

Lemma detect_faces_kept (reg : Registry dim) (small_frame frame : Image)
  (detections : list Detection) :
  detect_faces face_recognizer reg small_frame frame detections =
  (List.map (fun d => live_box d small_frame frame) (kept_detections detections),
   List.map (fun d => live_name face_recognizer reg frame (live_box d small_frame frame))
            (kept_detections detections)).
Proof.
  induction detections as [|d rest IH]; simpl; [reflexivity|].
  rewrite IH. destruct (Rgt_dec (confidence d) 0.5); reflexivity.
Qed.

(** C4 (amended). On a processed frame every detection whose confidence
    exceeds 0.5 gets a box and a name, in model output order: its crop is
    embedded and matched against the registry whenever the crop is not empty
    and the recognizer returns an embedding, and its name is ["Unknown"] when
    the crop is empty or the recognizer raises.  Only the name of the first
    kept detection decides which profile is shown. *)
Theorem every_kept_detection_resolved_first_drives_profile
  (win : MainWindow dim) (raw : Image) :
  process_this_frame win = true ->
  let frame := flip raw in
  let small_frame := resize_half frame in
  let kept := kept_detections (face_detector small_frame) in
  let out :=
    snd (update_frame face_detector face_recognizer get_profile resize_half
                      win (Some raw)) in
  face_locations out = List.map (fun d => live_box d small_frame frame) kept /\
  face_names out =
    List.map (fun d => live_name face_recognizer (registry win) frame
                         (live_box d small_frame frame))
             kept /\
  (forall d encoding,
     In d kept ->
     (size (crop_box frame (live_box d small_frame frame)) > 0)%Z ->
     face_recognizer (crop_box frame (live_box d small_frame frame)) = Some encoding ->
     live_name face_recognizer (registry win) frame (live_box d small_frame frame) =
       resolve_name (registry win) encoding) /\
  (forall d,
     In d kept ->
     (size (crop_box frame (live_box d small_frame frame)) <= 0)%Z ->
     live_name face_recognizer (registry win) frame (live_box d small_frame frame) =
       Unknown) /\
  (forall d,
     In d kept ->
     face_recognizer (crop_box frame (live_box d small_frame frame)) = None ->
     live_name face_recognizer (registry win) frame (live_box d small_frame frame) =
       Unknown) /\
  (forall first others,
     face_names out = first :: others ->
     card_update out =
       Some (if pystr_eqb first Unknown then unknown_profile else get_profile first)).
Proof.
  intros Hproc frame small_frame kept out.
  assert (Hout : out =
    let names := List.map
      (fun d => live_name face_recognizer (registry win) frame
                  (live_box d small_frame frame)) kept in
    {| card_update :=
         fst (update_profile get_profile win (frame_count win + 1)%Z names);
       face_locations :=
         List.map (fun d => live_box d small_frame frame) kept;
       face_names := names |}).
  { unfold out, update_frame. rewrite Hproc.
    fold frame. fold small_frame. rewrite detect_faces_kept. fold kept.
    destruct (update_profile get_profile win (frame_count win + 1)%Z _); reflexivity. }
  rewrite Hout. cbn [face_locations face_names card_update].
  repeat split.
  - intros d encoding _ Hsize Henc. unfold live_name.
    replace (size _ >? 0)%Z with true by (symmetry; apply Z.gtb_lt; lia).
    rewrite Henc. reflexivity.
  - intros d _ Hsize. unfold live_name.
    replace (size _ >? 0)%Z with false; [reflexivity|].
    symmetry. rewrite Z.gtb_ltb. apply Z.ltb_ge. exact Hsize.
  - intros d _ Henc. unfold live_name. rewrite Henc.
    destruct (size _ >? 0)%Z; reflexivity.
  - intros first others Hnames. rewrite Hnames. unfold update_profile.
    destruct (pystr_eqb first Unknown); reflexivity.
Qed.

(** ** Frame counter and the scanning placeholder *)

Lemma update_frame_parity (win : MainWindow dim) (read : option Image) :
  parity_invariant win ->
  parity_invariant
    (fst (update_frame face_detector face_recognizer get_profile resize_half
                       win read)).
Proof.
  unfold parity_invariant, update_frame. intros H.
  destruct read as [raw|]; [|exact H].
  destruct (process_this_frame win) eqn:Hp.
  - destruct (detect_faces _ _ _ _ _) as [locations names].
    destruct (update_profile _ _ _ _) as [shown current]. cbn.
    rewrite Z.add_1_r, Z.even_succ, <- Z.negb_even, H. reflexivity.
  - cbn. rewrite Z.add_1_r, Z.even_succ, <- Z.negb_even, H. reflexivity.
Qed.

Lemma odd_not_multiple_of_100 (n : Z) :
  Z.even n = true -> ((n + 1) mod 100 =? 0)%Z = false.
Proof.
  intros He. apply Z.eqb_neq. intros Hm.
  apply Z.even_spec in He. destruct He as [k Hk].
  pose proof (Z.div_mod (n + 1) 100 ltac:(lia)) as Hd.
  rewrite Hm in Hd. lia.
Qed.

Lemma update_frame_no_placeholder (win : MainWindow dim) (read : option Image) :
  parity_invariant win ->
  face_names (snd (update_frame face_detector face_recognizer get_profile
                                resize_half win read)) = [] ->
  card_update (snd (update_frame face_detector face_recognizer get_profile
                                 resize_half win read)) = None.
Proof.
  unfold parity_invariant, update_frame. intros H.
  destruct read as [raw|]; [|reflexivity].
  destruct (process_this_frame win) eqn:Hp; [|reflexivity].
  destruct (detect_faces _ _ _ _ _) as [locations names].
  destruct (update_profile _ _ _ _) as [shown current] eqn:Hu. cbn.
  intros ->. unfold update_profile in Hu.
  rewrite (odd_not_multiple_of_100 _ H) in Hu. congruence.
Qed.

Lemma update_frame_toggles (win : MainWindow dim) (raw : Image) :
  process_this_frame
    (fst (update_frame face_detector face_recognizer get_profile resize_half
            win (Some raw))) = negb (process_this_frame win).
Proof.
  unfold update_frame. destruct (process_this_frame win); [|reflexivity].
  destruct (detect_faces _ _ _ _ _) as [locations names].
  destruct (update_profile _ _ _ _) as [shown current]. reflexivity.
Qed.

Lemma processed_every_other_tick (raw : Image) (n : nat) (win : MainWindow dim) :
  process_this_frame win = true ->
  processed_ticks face_detector face_recognizer get_profile resize_half
                  win (repeat (Some raw) (2 * n)%nat) = n.
Proof.
  revert win. induction n as [|n IH]; intros win Hp; [reflexivity|].
  replace (2 * S n)%nat with (S (S (2 * n))) by lia.
  cbn [repeat processed_ticks is_processed].
  rewrite Hp, update_frame_toggles, Hp. cbn [negb].
  rewrite IH; [reflexivity|].
  rewrite !update_frame_toggles, Hp. reflexivity.
Qed.

(** C5 (what the code does). Started from the window [__init__] builds, the
    counter is odd on every processed frame, so the test
    [frame_count % 100 == 0] never succeeds there: on a tick without a kept
    detection no profile at all is handed to the card, however long the run
    is, although every second tick of a run of successful reads is a
    processed frame. *)
Theorem scanning_placeholder_never_emitted
  (reg : Registry dim) (reads : list (option Image)) :
  Forall (fun out => face_names out = [] -> card_update out = None)
         (snd (run face_detector face_recognizer get_profile resize_half
                   (initial_window reg) reads)) /\
  (forall (raw : Image) (n : nat),
     processed_ticks face_detector face_recognizer get_profile resize_half
                     (initial_window reg) (repeat (Some raw) (2 * n)%nat) = n).
Proof.
  split; [|intros raw n; now apply processed_every_other_tick].
  assert (Hgen : forall win, parity_invariant win ->
            Forall (fun out => face_names out = [] -> card_update out = None)
                   (snd (run face_detector face_recognizer get_profile resize_half
                             win reads))).
  { induction reads as [|r rest IH]; intros win Hinv; simpl.
    - constructor.
    - pose proof (update_frame_parity win r Hinv) as Hinv'.
      pose proof (update_frame_no_placeholder win r Hinv) as Hout.
      destruct (update_frame face_detector face_recognizer get_profile resize_half
                             win r) as [win1 out]. simpl in *.
      specialize (IH win1 Hinv').
      destruct (run face_detector face_recognizer get_profile resize_half
                    win1 rest) as [win2 outs]. simpl in *.
      constructor; assumption. }
  apply Hgen. reflexivity.
Qed.

(** ** Enrollment *)

Lemma capture_due_test (s : Scanner) (raw : Image) :
  capture_due face_detector s raw <->
  auto_capture_due s (scanner_frame_count s + 1)%Z
                   (scanner_face_detected face_detector (flip raw)) = true.
Proof.
  unfold capture_due, auto_capture_due.
  rewrite !andb_true_iff, Z.eqb_eq, Nat.ltb_lt.
  split; [intros (A & B & C & D)|intros [[[A B] C] D]]; auto.
Qed.

Lemma scanner_update_frame_captured (s : Scanner) (raw : Image) (cap : option Image) :
  captured_images
    (scanner_update_frame face_detector s {| frame_read := Some raw; capture_read := cap |}) =
  if auto_capture_due s (scanner_frame_count s + 1)%Z
                      (scanner_face_detected face_detector (flip raw))
  then match cap with
       | Some f => captured_images s ++ [flip f]
       | None => captured_images s
       end
  else captured_images s.
Proof.
  unfold scanner_update_frame, auto_capture_due. cbn [frame_read capture_read].
  destruct (auto_capture s && scanner_face_detected face_detector (flip raw)
            && ((scanner_frame_count s + 1) mod 60 =? 0)%Z);
    [|reflexivity].
  destruct (List.length (captured_images s) <? 10)%nat; [|reflexivity].
  destruct cap; reflexivity.
Qed.

Lemma scanner_update_frame_bound (s : Scanner) (reads : ScannerReads) :
  (List.length (captured_images (scanner_update_frame face_detector s reads))
   <= Nat.max (List.length (captured_images s)) 10)%nat.
Proof.
  destruct reads as [[raw|] cap].
  - rewrite scanner_update_frame_captured. unfold auto_capture_due.
    destruct (List.length (captured_images s) <? 10)%nat eqn:Hlt.
    + apply Nat.ltb_lt in Hlt.
      destruct (auto_capture s && _ && _); cbn [andb]; [|lia].
      destruct cap; [|lia]. rewrite length_app. simpl. lia.
    + rewrite andb_false_r. lia.
  - unfold scanner_update_frame. cbn [frame_read]. lia.
Qed.

Lemma scanner_run_bound (ticks : list ScannerReads) (s : Scanner) :
  (List.length (captured_images (scanner_run face_detector s ticks))
   <= Nat.max (List.length (captured_images s)) 10)%nat.
Proof.
  unfold scanner_run. revert s.
  induction ticks as [|t rest IH]; intros s; simpl; [lia|].
  specialize (IH (scanner_update_frame face_detector s t)).
  pose proof (scanner_update_frame_bound s t). lia.
Qed.

(** C6 (amended). On a tick whose frame was read, the auto-capture path
    appends a frame exactly when auto-capture is on, a face is detected in the
    frame, the incremented counter is a multiple of 60, fewer than 10 frames
    are held, and the camera read made by [capture_image] succeeds; the
    appended frame is that second read, mirrored.  In every other case the
    captured frames are unchanged.  Hence no run of ticks brings the number of
    captured frames above 10 (or above what it was, if that was more).  A tick
    whose frame read fails changes nothing. *)
Theorem auto_capture_appends_when_due_and_read_ok
  (s : Scanner) (raw : Image) (cap : option Image) :
  let s' := scanner_update_frame face_detector s
              {| frame_read := Some raw; capture_read := cap |} in
  (forall f, capture_due face_detector s raw -> cap = Some f ->
     captured_images s' = captured_images s ++ [flip f]) /\
  (capture_due face_detector s raw -> cap = None -> captured_images s' = captured_images s) /\
  (~ capture_due face_detector s raw -> captured_images s' = captured_images s) /\
  (List.length (captured_images s') = S (List.length (captured_images s)) <->
   capture_due face_detector s raw /\ cap <> None) /\
  (forall ticks,
     (List.length (captured_images (scanner_run face_detector s ticks))
      <= Nat.max (List.length (captured_images s)) 10)%nat) /\
  scanner_update_frame face_detector s
    {| frame_read := None; capture_read := cap |} = s.
Proof.
  intros s'. unfold s'. rewrite scanner_update_frame_captured.
  pose proof (capture_due_test s raw) as Hdue.
  destruct (auto_capture_due s _ _).
  - assert (Hd : capture_due face_detector s raw) by (apply Hdue; reflexivity).
    split; [|split; [|split; [|split]]].
    + intros f _ ->. reflexivity.
    + intros _ ->. reflexivity.
    + intros Hn. contradiction.
    + split.
      * intros Hlen. split; [exact Hd|].
        destruct cap; [congruence|]. lia.
      * intros [_ Hc]. destruct cap; [|congruence].
        rewrite length_app. simpl. lia.
    + split; [intros ticks; apply scanner_run_bound|reflexivity].
  - assert (Hd : ~ capture_due face_detector s raw).
    { intros H. apply Hdue in H. discriminate. }
    split; [|split; [|split; [|split]]].
    + intros f H. contradiction.
    + intros H. contradiction.
    + reflexivity.
    + split; [lia|]. intros [H _]. contradiction.
    + split; [intros ticks; apply scanner_run_bound|reflexivity].
Qed.

(** ** Saving a profile *)

Lemma save_images_nth (person_dir name : pystr) (images : list Image)
  (start i : nat) :
  nth_error (save_images path_join person_dir name start images) i =
  option_map (fun img => ImWrite (image_path path_join person_dir name (start + i)) img)
             (nth_error images i).
Proof.
  revert start i. induction images as [|img rest IH]; intros start i; simpl.
  - destruct i; reflexivity.
  - destruct i as [|i]; simpl.
    + now rewrite Nat.add_0_r.
    + rewrite IH. now rewrite Nat.add_succ_r.
Qed.

(** X26. [save_profile] with an empty trimmed name, or with fewer than three
    captured frames, only shows a warning, the one about the name when the
    name is empty: the scanner is unchanged, no call that touches the disk
    is made, and whatever disk the calls are carried out on stays as it
    was. *)
Theorem save_profile_rejects_without_writing (s : Scanner) (fs : FileSystem) :
  let name := strip (field_name (form_fields s)) in
  name = [] \/ (List.length (captured_images s) < 3)%nat ->
  save_profile path_join now s =
    (s, [MessageWarning (str "Error")
           (if pystr_eqb name [] then str "Please enter a name"
            else str "Please capture at least 3 images")]) /\
  forallb (fun e => negb (writes_disk e)) (snd (save_profile path_join now s)) = true /\
  perform_all (snd (save_profile path_join now s)) fs = Completed fs.
Proof.
  intros name Hbad.
  assert (Hsave : save_profile path_join now s =
            (s, [MessageWarning (str "Error")
                   (if pystr_eqb name [] then str "Please enter a name"
                    else str "Please capture at least 3 images")])).
  { unfold save_profile. fold name.
    destruct name as [|c0 rest] eqn:Hname; [reflexivity|].
    destruct Hbad as [Hbad|Hbad]; [discriminate|].
    apply Nat.ltb_lt in Hbad. rewrite Hbad.
    unfold pystr_eqb. destruct (list_eq_dec N.eq_dec (c0 :: rest) []);
      [discriminate|reflexivity]. }
  rewrite Hsave. split; [reflexivity|]. split; reflexivity.
Qed.

(** ** Further properties of matching and of the registry build *)

Lemma resolve_name_known_or_unknown (reg : Registry dim) (q : Encoding dim) :
  resolve_name reg q = Unknown \/ In (resolve_name reg q) (known_face_names reg).
Proof.
  unfold resolve_name, match_known.
  destruct (0 <? List.length (known_face_encodings reg))%nat; [|left; reflexivity].
  destruct (argmin _) as [idx|]; [|left; reflexivity].
  destruct (nth_error (distances_to _ _) idx) as [d|]; [|left; reflexivity].
  destruct (nth_error (known_face_names reg) idx) as [candidate|] eqn:Hc;
    [|left; reflexivity].
  cbn [matched_name]. destruct (Rlt_dec d 0.8); [|left; reflexivity].
  right. now apply nth_error_In with idx.
Qed.

Lemma live_name_known_or_unknown (reg : Registry dim) (frame : Image)
  (box : Z * Z * Z * Z) :
  live_name face_recognizer reg frame box = Unknown \/
  In (live_name face_recognizer reg frame box) (known_face_names reg).
Proof.
  unfold live_name. destruct (size _ >? 0)%Z; [|left; reflexivity].
  destruct (face_recognizer _); [|left; reflexivity].
  apply resolve_name_known_or_unknown.
Qed.

(** X1. Whatever the camera delivers, every name the live loop assigns to a
    detection is either ["Unknown"] or a label held by the registry, and the
    only profiles handed to the card are the two placeholders and
    [get_profile] of a registry label other than ["Unknown"]. *)
Theorem live_names_come_from_registry (win : MainWindow dim) (read : option Image) :
  let out :=
    snd (update_frame face_detector face_recognizer get_profile resize_half
                      win read) in
  Forall (fun name => name = Unknown \/ In name (known_face_names (registry win)))
         (face_names out) /\
  (forall profile,
     card_update out = Some profile ->
     profile = unknown_profile \/ profile = scanning_profile \/
     exists label,
       In label (known_face_names (registry win)) /\ label <> Unknown /\
       profile = get_profile label).
Proof.
  intros out. unfold out, update_frame.
  destruct read as [raw|]; [|split; [constructor|discriminate]].
  destruct (process_this_frame win); [|split; [constructor|discriminate]].
  rewrite detect_faces_kept.
  set (names := List.map _ _).
  assert (Hall : Forall (fun name => name = Unknown \/
                           In name (known_face_names (registry win))) names).
  { unfold names. apply Forall_forall. intros n Hn.
    apply in_map_iff in Hn. destruct Hn as (d & <- & _).
    apply live_name_known_or_unknown. }
  destruct (update_profile get_profile win (frame_count win + 1)%Z names)
    as [shown current] eqn:Hu.
  cbn [snd face_names card_update]. split; [exact Hall|].
  intros profile Hp. subst shown. unfold update_profile in Hu.
  destruct names as [|first others].
  - destruct (_ =? 0)%Z; [|discriminate]. injection Hu as Hu _.
    right. left. congruence.
  - unfold pystr_eqb in Hu.
    destruct (list_eq_dec N.eq_dec first Unknown) as [E|E].
    + injection Hu as Hu _. left. congruence.
    + injection Hu as Hu _. right. right. exists first.
      apply Forall_inv in Hall. destruct Hall as [H|H]; [contradiction|].
      split; [exact H|]. split; [exact E|congruence].
Qed.

Lemma first_min_app (l l' : list R) (k : nat) (m : R) :
  first_min l k m -> (forall x, In x l' -> m <= x) -> first_min (l ++ l') k m.
Proof.
  intros (Hk & Hle & Hlt) Hmore.
  assert (Hkl : (k < List.length l)%nat) by (apply nth_error_Some; congruence).
  split; [|split].
  - rewrite nth_error_app1 by lia. exact Hk.
  - intros j x Hj.
    destruct (Nat.lt_ge_cases j (List.length l)) as [Hjl|Hjl].
    + rewrite nth_error_app1 in Hj by lia. now apply (Hle j).
    + rewrite nth_error_app2 in Hj by lia. apply Hmore.
      now apply nth_error_In with (j - List.length l)%nat.
  - intros j x Hjk Hj. rewrite nth_error_app1 in Hj by lia. now apply (Hlt j).
Qed.

(** X2. Appending vectors to a non-empty registry does not change the name a
    query gets, provided each appended vector is at least as far from the
    query as some vector already stored: a newcomer at exactly the minimal
    distance does not displace the earlier entry. *)
Theorem appended_vectors_not_closer_keep_match
  (reg : Registry dim) (more : list (Encoding dim)) (more_names : list pystr)
  (q : Encoding dim) :
  known_face_encodings reg <> [] ->
  List.length (known_face_encodings reg) = List.length (known_face_names reg) ->
  (forall e, In e more ->
     exists u, In u (known_face_encodings reg) /\ norm (sub u q) <= norm (sub e q)) ->
  resolve_name
    {| known_face_encodings := known_face_encodings reg ++ more;
       known_face_names := known_face_names reg ++ more_names |} q =
  resolve_name reg q.
Proof.
  intros Hne Hlen Hfar.
  destruct (match_known_nonempty reg q Hne Hlen)
    as (i & v & label & Hv & Hl & Hmin & Hm).
  assert (Hmin' : first_min
            (distances_to (known_face_encodings reg ++ more) q) i (norm (sub v q))).
  { unfold distances_to. rewrite map_app. apply first_min_app; [exact Hmin|].
    intros x Hx. apply in_map_iff in Hx. destruct Hx as (e & <- & He).
    destruct (Hfar e He) as (u & Hu & Hue).
    destruct (In_nth_error _ _ Hu) as [j Hj].
    destruct Hmin as (_ & Hle & _).
    assert (norm (sub v q) <= norm (sub u q)); [|lra].
    apply (Hle j). rewrite nth_error_distances, Hj. reflexivity. }
  unfold resolve_name at 2. rewrite Hm. cbn [matched_name].
  unfold resolve_name, match_known. cbn [known_face_encodings known_face_names].
  assert (Hpos : (0 <? List.length (known_face_encodings reg ++ more))%nat = true).
  { apply Nat.ltb_lt. rewrite length_app.
    destruct (known_face_encodings reg); [congruence|simpl; lia]. }
  rewrite Hpos.
  assert (Hd : distances_to (known_face_encodings reg ++ more) q <> []).
  { destruct Hmin' as (Hk & _). intros E. rewrite E in Hk. destruct i; discriminate. }
  destruct (argmin_first_min _ Hd) as (k & m & Harg & Hkm).
  destruct (first_min_unique _ _ _ _ _ Hkm Hmin') as [-> ->].
  rewrite Harg. destruct Hmin' as (Hk & _). rewrite Hk.
  assert (Hil : (i < List.length (known_face_names reg))%nat)
    by (apply nth_error_Some; congruence).
  rewrite nth_error_app1 by exact Hil. rewrite Hl. reflexivity.
Qed.

Lemma for_each_invariant_in {A S : Type} (P : S -> Prop)
  (body : A -> S -> Outcome S) (l : list A) :
  (forall a s, In a l -> P s -> P (state_of (body a s))) ->
  forall s, P s -> P (state_of (for_each body l s)).
Proof.
  induction l as [|a t IH]; intros Hbody s Hs; simpl; [exact Hs|].
  pose proof (Hbody a s (or_introl eq_refl) Hs) as Ha.
  destruct (body a s) as [s'|s']; simpl in *; [|exact Ha].
  apply IH; [|exact Ha]. intros b s0 Hb. apply Hbody. now right.
Qed.

Lemma for_each_app {A S : Type} (body : A -> S -> Outcome S) (l1 l2 : list A) (s : S) :
  for_each body (l1 ++ l2) s =
  match for_each body l1 s with
  | Completed s' => for_each body l2 s'
  | Raised s' => Raised s'
  end.
Proof.
  revert s. induction l1 as [|a t IH]; intros s; simpl; [reflexivity|].
  destruct (body a s) as [s'|s']; [apply IH|reflexivity].
Qed.

Lemma load_image_names (person_name : pystr) (image : Image) (reg : Registry dim) :
  let reg' := state_of (load_image face_detector face_recognizer person_name image reg) in
  reg' = reg \/
  (exists encoding d,
     reg' = append_face reg encoding person_name /\
     In d (face_detector image) /\ confidence d > 0.5).
Proof.
  intros reg'. unfold reg', load_image.
  pose proof (select_best_spec (face_detector image) (width image) (height image))
    as Hs.
  destruct (fst (select_best _ _ _ None 0)) as [b|]; [|left; reflexivity].
  destruct Hs as (i & d & Hi & _ & _ & Hd & _).
  destruct (size _ >? 0)%Z; [|left; reflexivity].
  destruct (face_recognizer _) as [encoding|]; [|left; reflexivity].
  right. exists encoding, d. split; [reflexivity|].
  split; [now apply nth_error_In with i|exact Hd].
Qed.

(** X3. After any build, every label of the registry is the name of a person
    directory of the dataset that holds a decodable file with an image suffix
    in which the detector reports a face with confidence above 0.5. *)
Theorem registry_labels_are_person_directories (dataset : Dataset) (label : pystr) :
  In label (known_face_names
              (state_of (load_known_faces face_detector face_recognizer dataset))) ->
  exists listing files file_name image d,
    dataset = Listed listing /\
    In (label, PersonDirectory files) listing /\
    In (file_name, Some image) files /\
    endswith_any file_name image_suffixes = true /\
    In d (face_detector image) /\ confidence d > 0.5.
Proof.
  destruct dataset as [|listing|]; [intros []| |intros []].
  cbn [load_known_faces].
  set (Q := fun label : pystr =>
    exists files file_name image d,
      In (label, PersonDirectory files) listing /\
      In (file_name, Some image) files /\
      endswith_any file_name image_suffixes = true /\
      In d (face_detector image) /\ confidence d > 0.5).
  assert (Hall : Forall Q (known_face_names
            (state_of (for_each (load_person face_detector face_recognizer)
                                listing (empty_registry dim))))).
  { apply (for_each_invariant_in (fun reg => Forall Q (known_face_names reg)));
      [|constructor].
    intros [name entry] reg Hin Hreg. unfold load_person. cbn [fst snd].
    destruct entry as [|files|]; [exact Hreg| |exact Hreg].
    apply (for_each_invariant_in (fun reg => Forall Q (known_face_names reg)));
      [|exact Hreg].
    intros [file_name decoded] reg0 Hf Hreg0. unfold load_image_file. cbn [fst snd].
    destruct (endswith_any file_name image_suffixes) eqn:Hsuffix; [|exact Hreg0].
    destruct decoded as [image|]; [|exact Hreg0].
    destruct (load_image_names name image reg0) as [->|(e & d & -> & Hd & Hc)];
      [exact Hreg0|].
    cbn [append_face known_face_names]. apply Forall_app. split; [exact Hreg0|].
    constructor; [|constructor].
    exists files, file_name, image, d. repeat split; assumption. }
  intros Hlabel. rewrite Forall_forall in Hall.
  destruct (Hall label Hlabel) as (files & file_name & image & d & H).
  exists listing, files, file_name, image, d. split; [reflexivity|exact H].
Qed.

Lemma extends_refl (reg : Registry dim) : extends reg reg.
Proof. exists [], []. now rewrite !app_nil_r. Qed.

Lemma extends_trans (a b c : Registry dim) : extends a b -> extends b c -> extends a c.
Proof.
  intros (e1 & n1 & He1 & Hn1) (e2 & n2 & He2 & Hn2).
  exists (e1 ++ e2), (n1 ++ n2).
  rewrite He2, He1, Hn2, Hn1, !app_assoc. split; reflexivity.
Qed.

Lemma for_each_extends {A : Type} (body : A -> Registry dim -> Outcome (Registry dim))
  (l : list A) :
  (forall a reg, extends reg (state_of (body a reg))) ->
  forall reg, extends reg (state_of (for_each body l reg)).
Proof.
  intros Hbody. induction l as [|a t IH]; intros reg; simpl; [apply extends_refl|].
  pose proof (Hbody a reg) as Ha.
  destruct (body a reg) as [reg'|reg']; simpl in *; [|exact Ha].
  apply extends_trans with reg'; [exact Ha|apply IH].
Qed.

Lemma load_person_extends (e : pystr * DatasetEntry) (reg : Registry dim) :
  extends reg (state_of (load_person face_detector face_recognizer e reg)).
Proof.
  unfold load_person.
  destruct (snd e) as [|files|]; [apply extends_refl| |apply extends_refl].
  apply for_each_extends. intros [file_name decoded] reg0.
  unfold load_image_file. cbn [fst snd].
  destruct (endswith_any _ _); [|apply extends_refl].
  destruct decoded as [image|]; [|apply extends_refl].
  destruct (load_image_names (fst e) image reg0) as [->|(enc & d & -> & _)];
    [apply extends_refl|].
  exists [enc], [fst e]. split; reflexivity.
Qed.

(** X4. Listing further entries after the ones already in the dataset
    directory leaves what the build produced for the earlier entries in
    place: the build over the longer listing continues from the registry of
    the shorter one (or stops on the same exception), so the earlier
    registry is a prefix of the new one, entry by entry. *)
Theorem build_over_longer_listing_extends
  (listing more : list (pystr * DatasetEntry)) :
  let earlier := load_known_faces face_detector face_recognizer (Listed listing) in
  let later :=
    load_known_faces face_detector face_recognizer (Listed (listing ++ more)) in
  later =
    match earlier with
    | Completed reg =>
        for_each (load_person face_detector face_recognizer) more reg
    | Raised reg => Raised reg
    end /\
  extends (state_of earlier) (state_of later).
Proof.
  intros earlier later. unfold earlier, later. cbn [load_known_faces].
  rewrite for_each_app. split; [reflexivity|].
  destruct (for_each _ listing _) as [reg|reg]; [|apply extends_refl].
  cbn [state_of]. apply for_each_extends. apply load_person_extends.
Qed.

Lemma for_each_completes {A S : Type} (body : A -> S -> Outcome S) (l : list A) :
  (forall a s, In a l -> exists s', body a s = Completed s') ->
  forall s, exists s', for_each body l s = Completed s'.
Proof.
  induction l as [|a t IH]; intros Hbody s; simpl; [now exists s|].
  destruct (Hbody a s (or_introl eq_refl)) as [s' ->].
  apply IH. intros b s0 Hb. apply Hbody. now right.
Qed.

(** X5. When ["dataset"] and every directory in it can be listed and the
    recognizer raises on no crop that holds a pixel, the build runs to the
    end: files that are not images or cannot be decoded, entries that are not
    directories, images without a face and empty crops (which never reach
    the recognizer) are passed over. *)
Theorem build_completes_when_recognizer_total (dataset : Dataset) :
  listable dataset ->
  (forall image, (size image > 0)%Z -> face_recognizer image <> None) ->
  exists reg,
    load_known_faces face_detector face_recognizer dataset = Completed reg.
Proof.
  intros Hlist Htotal.
  destruct dataset as [|listing|]; [now eexists| |destruct Hlist].
  cbn [load_known_faces]. apply for_each_completes.
  intros [name entry] reg Hin. unfold load_person. cbn [fst snd].
  destruct entry as [|files|];
    [now eexists| |exfalso; exact (Hlist name Hin)].
  apply for_each_completes. intros [file_name decoded] reg0 _.
  unfold load_image_file. cbn [fst snd].
  destruct (endswith_any _ _); [|now eexists].
  destruct decoded as [image|]; [|now eexists].
  unfold load_image.
  destruct (fst (select_best _ _ _ None 0)); [|now eexists].
  destruct (size _ >? 0)%Z eqn:Hsize; [|now eexists].
  destruct (face_recognizer _) eqn:E; [now eexists|].
  apply Htotal in E; [destruct E|]. apply Z.gtb_lt in Hsize. lia.
Qed.

Lemma for_each_length_bound {A : Type}
  (body : A -> Registry dim -> Outcome (Registry dim)) (cost : A -> nat) (l : list A) :
  (forall a reg,
     (List.length (known_face_encodings (state_of (body a reg)))
      <= List.length (known_face_encodings reg) + cost a)%nat) ->
  forall reg,
    (List.length (known_face_encodings (state_of (for_each body l reg)))
     <= List.length (known_face_encodings reg) + list_sum (List.map cost l))%nat.
Proof.
  intros Hbody. induction l as [|a t IH]; intros reg; simpl; [lia|].
  pose proof (Hbody a reg) as Ha.
  destruct (body a reg) as [reg'|reg']; simpl in *; [|lia].
  specialize (IH reg'). lia.
Qed.

(** X6. The registry never holds more vectors than the dataset has loadable
    image files (files of the person directories with an image suffix that
    [cv2.imread] decodes): each file contributes at most one vector. *)
Theorem registry_size_bounded_by_loadable_files (dataset : Dataset) :
  (List.length
     (known_face_encodings
        (state_of (load_known_faces face_detector face_recognizer dataset)))
   <= loadable_count dataset)%nat.
Proof.
  destruct dataset as [|listing|]; [simpl; lia| |simpl; lia].
  cbn [load_known_faces loadable_count].
  assert (Hperson : forall e reg,
    (List.length (known_face_encodings
                    (state_of (load_person face_detector face_recognizer e reg)))
     <= List.length (known_face_encodings reg) + loadable_in_entry e)%nat);
    [|exact (for_each_length_bound (load_person face_detector face_recognizer)
               loadable_in_entry listing Hperson (empty_registry dim))].
  intros [name entry] reg. unfold load_person, loadable_in_entry. cbn [fst snd].
  destruct entry as [|files|]; [simpl; lia| |simpl; lia].
  pose proof (for_each_length_bound
                (load_image_file face_detector face_recognizer name)
                (fun f => if is_loadable f then 1 else 0)%nat files) as H.
  assert (Hsum : list_sum (List.map (fun f => if is_loadable f then 1 else 0)%nat files)
                 = List.length (filter is_loadable files)).
  { clear. induction files as [|f t IH]; simpl; [reflexivity|].
    destruct (is_loadable f); simpl; lia. }
  rewrite <- Hsum. apply H. clear H Hsum.
  intros [file_name decoded] reg0. unfold load_image_file, is_loadable. cbn [fst snd].
  destruct (endswith_any _ _); [|simpl; lia].
  destruct decoded as [image|]; [|simpl; lia]. cbn [andb].
  destruct (load_image_names name image reg0) as [->|(enc & d & -> & _)]; [lia|].
  cbn [append_face known_face_encodings]. rewrite length_app. simpl. lia.
Qed.

(** X7. A run of timer ticks never changes the registry, produces one output
    per tick, and advances [frame_count] by exactly the number of ticks whose
    camera read succeeded. *)
Theorem run_counts_successful_reads (win : MainWindow dim) (reads : list (option Image)) :
  let result := run face_detector face_recognizer get_profile resize_half win reads in
  registry (fst result) = registry win /\
  frame_count (fst result) = (frame_count win + Z.of_nat (successful_reads reads))%Z /\
  List.length (snd result) = List.length reads.
Proof.
  revert win. induction reads as [|r rest IH]; intros win; cbn zeta.
  - simpl. repeat split. lia.
  - cbn [run].
    assert (Hstep : registry (fst (update_frame face_detector face_recognizer
                                     get_profile resize_half win r)) = registry win /\
                    frame_count (fst (update_frame face_detector face_recognizer
                                     get_profile resize_half win r)) =
                    (frame_count win + match r with Some _ => 1 | None => 0 end)%Z).
    { unfold update_frame. destruct r as [raw|]; [|split; [reflexivity|simpl; lia]].
      destruct (process_this_frame win); [|split; reflexivity].
      destruct (detect_faces _ _ _ _ _) as [locations names].
      destruct (update_profile _ _ _ _) as [shown current]. split; reflexivity. }
    destruct (update_frame face_detector face_recognizer get_profile resize_half win r)
      as [win1 out]. cbn [fst] in Hstep. destruct Hstep as [Hreg Hcount].
    specialize (IH win1). cbn zeta in IH.
    destruct (run face_detector face_recognizer get_profile resize_half win1 rest)
      as [win2 outs]. cbn [fst snd] in *.
    destruct IH as (IH1 & IH2 & IH3).
    split; [congruence|]. split; [|simpl; lia].
    rewrite IH2, Hcount. unfold successful_reads. destruct r; simpl; lia.
Qed.

(** ** Further properties of enrollment *)

(** X8. [capture_image], called any number of times, appends the mirrored
    frame of every read that succeeds, in order: there is no upper bound on
    manual captures and no face is required. *)
Theorem manual_capture_appends_every_delivered_frame
  (reads : list (option Image)) (s : Scanner) :
  captured_images (fold_left capture_image reads s) =
    captured_images s ++ List.map flip (delivered reads) /\
  auto_capture (fold_left capture_image reads s) = auto_capture s /\
  scanner_frame_count (fold_left capture_image reads s) = scanner_frame_count s.
Proof.
  revert s. induction reads as [|r rest IH]; intros s; cbn [fold_left delivered].
  - rewrite app_nil_r. repeat split.
  - destruct r as [frame|]; cbn [capture_image].
    + destruct (IH {| captured_images := captured_images s ++ [flip frame];
                      auto_capture := auto_capture s;
                      scanner_frame_count := scanner_frame_count s;
                      form_fields := form_fields s |}) as (H1 & H2 & H3).
      cbn [captured_images auto_capture scanner_frame_count] in *.
      rewrite H1, H2, H3, <- app_assoc. repeat split.
    + apply IH.
Qed.

Lemma face_tick_step (s : Scanner) (t : ScannerReads) :
  auto_capture s = true -> (0 <= scanner_frame_count s)%Z ->
  Z.of_nat (List.length (captured_images s)) =
    Z.min (scanner_frame_count s / 60) 10 ->
  face_tick face_detector t ->
  let s' := scanner_update_frame face_detector s t in
  auto_capture s' = true /\
  scanner_frame_count s' = (scanner_frame_count s + 1)%Z /\
  Z.of_nat (List.length (captured_images s')) =
    Z.min (scanner_frame_count s' / 60) 10.
Proof.
  intros Hauto Hpos Hlen (a & b & -> & Hface) s'.
  assert (Hc : scanner_frame_count s' = (scanner_frame_count s + 1)%Z /\
               auto_capture s' = true).
  { unfold s', scanner_update_frame. cbn [frame_read capture_read].
    destruct (_ && _ && _); [|split; [reflexivity|exact Hauto]].
    destruct (_ <? 10)%nat; split; try reflexivity; exact Hauto. }
  destruct Hc as [Hcount Hauto']. split; [exact Hauto'|]. split; [exact Hcount|].
  rewrite Hcount. unfold s'. rewrite scanner_update_frame_captured.
  unfold auto_capture_due. rewrite Hauto, Hface. cbn [andb].
  set (c := scanner_frame_count s) in *.
  pose proof (Z.div_mod c 60 ltac:(lia)) as Hd.
  pose proof (Z.mod_pos_bound c 60 ltac:(lia)) as Hb.
  pose proof (Z.div_mod (c + 1) 60 ltac:(lia)) as Hd'.
  pose proof (Z.mod_pos_bound (c + 1) 60 ltac:(lia)) as Hb'.
  destruct ((c + 1) mod 60 =? 0)%Z eqn:Hm.
  - apply Z.eqb_eq in Hm.
    assert (Hq : ((c + 1) / 60 = c / 60 + 1)%Z) by lia.
    destruct (List.length (captured_images s) <? 10)%nat eqn:Hlt; cbn [andb].
    + apply Nat.ltb_lt in Hlt. rewrite length_app. simpl. lia.
    + apply Nat.ltb_ge in Hlt. lia.
  - apply Z.eqb_neq in Hm.
    assert (Hq : ((c + 1) / 60 = c / 60)%Z) by lia.
    cbn [andb]. lia.
Qed.

(** X9. With auto-capture on, in a session that starts with no frame
    captured and a counter of 0, if every tick delivers its reads and shows
    a face, then after [n] ticks exactly [min (n / 60) 10] frames have been
    captured: one every 60 ticks, up to ten. *)
Theorem auto_capture_count_after_ticks (ticks : list ScannerReads) (s : Scanner) :
  auto_capture s = true ->
  scanner_frame_count s = 0%Z ->
  captured_images s = [] ->
  Forall (face_tick face_detector) ticks ->
  Z.of_nat (List.length (captured_images (scanner_run face_detector s ticks))) =
    Z.min (Z.of_nat (List.length ticks) / 60) 10.
Proof.
  intros Hauto Hzero Hnone Hticks.
  assert (Hgen : forall ticks s,
    auto_capture s = true -> (0 <= scanner_frame_count s)%Z ->
    Z.of_nat (List.length (captured_images s)) =
      Z.min (scanner_frame_count s / 60) 10 ->
    Forall (face_tick face_detector) ticks ->
    let s' := scanner_run face_detector s ticks in
    scanner_frame_count s' =
      (scanner_frame_count s + Z.of_nat (List.length ticks))%Z /\
    Z.of_nat (List.length (captured_images s')) =
      Z.min (scanner_frame_count s' / 60) 10).
  { clear. induction ticks as [|t rest IH]; intros s Ha Hp Hl Hf; cbn zeta.
    - unfold scanner_run. simpl. split; [lia|exact Hl].
    - inversion Hf as [|? ? Ht Hrest]; subst.
      destruct (face_tick_step s t Ha Hp Hl Ht) as (Ha' & Hc' & Hl').
      unfold scanner_run. cbn [fold_left].
      destruct (IH (scanner_update_frame face_detector s t) Ha'
                   ltac:(lia) Hl' Hrest) as [H1 H2].
      unfold scanner_run in H1, H2. split; [|exact H2].
      rewrite H1, Hc'. cbn [List.length]. lia. }
  destruct (Hgen ticks s Hauto ltac:(lia)
              ltac:(rewrite Hnone, Hzero; reflexivity) Hticks) as [Hc Hl].
  rewrite Hl, Hc, Hzero. reflexivity.
Qed.

(** X10. While auto-capture is off, or while the detector reports no face
    above 0.5 in any frame, no run of ticks captures anything. *)
Theorem no_auto_capture_without_flag_or_face (ticks : list ScannerReads) (s : Scanner) :
  auto_capture s = false \/
  (forall frame, scanner_face_detected face_detector frame = false) ->
  captured_images (scanner_run face_detector s ticks) = captured_images s /\
  auto_capture (scanner_run face_detector s ticks) = auto_capture s.
Proof.
  intros Hoff. unfold scanner_run. revert s Hoff.
  induction ticks as [|t rest IH]; intros s Hoff; cbn [fold_left];
    [split; reflexivity|].
  assert (Hstep : captured_images (scanner_update_frame face_detector s t) =
                  captured_images s /\
                  auto_capture (scanner_update_frame face_detector s t) =
                  auto_capture s).
  { unfold scanner_update_frame. destruct (frame_read t) as [raw|];
      [|split; reflexivity].
    assert (Hno : auto_capture s && scanner_face_detected face_detector (flip raw)
                  = false).
    { destruct Hoff as [-> | Hnone]; [reflexivity|].
      rewrite Hnone. apply andb_false_r. }
    rewrite Hno. cbn [andb]. split; reflexivity. }
  destruct Hstep as [Hc Ha].
  destruct (IH (scanner_update_frame face_detector s t)) as [H1 H2].
  { destruct Hoff as [Hoff|Hoff]; [left; congruence|right; exact Hoff]. }
  split; congruence.
Qed.

(** ** Further properties of saving a profile *)

Lemma str_inj (a b : string) : str a = str b -> a = b.
Proof.
  unfold str. intros H.
  rewrite <- (string_of_list_ascii_of_string a), <- (string_of_list_ascii_of_string b).
  f_equal. revert H.
  generalize (list_ascii_of_string a) (list_ascii_of_string b).
  induction l as [|x l IH]; intros [|y l'] H; simpl in H; try discriminate;
    [reflexivity|].
  injection H as Hxy Hl. f_equal; [|now apply IH].
  rewrite <- (ascii_N_embedding x), <- (ascii_N_embedding y). now f_equal.
Qed.

Lemma str_of_nat_inj (n m : nat) : str_of_nat n = str_of_nat m -> n = m.
Proof.
  unfold str_of_nat. intros H. apply str_inj in H.
  assert (Hu : Some (Nat.to_uint n) = Some (Nat.to_uint m)).
  { rewrite <- !NilEmpty.usu. now f_equal. }
  injection Hu as Hu.
  rewrite <- (Unsigned.of_to n), <- (Unsigned.of_to m). now f_equal.
Qed.

Lemma image_file_name_inj (name : pystr) (i j : nat) :
  image_file_name name i = image_file_name name j -> i = j.
Proof.
  unfold image_file_name. intros H.
  apply app_inv_head in H. apply app_inv_head in H. apply app_inv_tail in H.
  apply str_of_nat_inj in H. lia.
Qed.

Lemma written_images_app (a b : list Effect) :
  written_images (a ++ b) = written_images a ++ written_images b.
Proof.
  induction a as [|e t IH]; simpl; [reflexivity|].
  destruct e; simpl; rewrite IH; reflexivity.
Qed.

Lemma written_images_save_images (person_dir name : pystr) (images : list Image)
  (start : nat) :
  written_images (save_images path_join person_dir name start images) =
  List.map (fun i => path_join person_dir (image_file_name name i))
           (seq start (List.length images)).
Proof.
  revert start. induction images as [|img rest IH]; intros start; simpl;
    [reflexivity|].
  rewrite IH. reflexivity.
Qed.

Lemma save_images_length (person_dir name : pystr) (images : list Image) (start : nat) :
  List.length (save_images path_join person_dir name start images) = List.length images.
Proof.
  revert start. induction images as [|img rest IH]; intros start; simpl;
    [reflexivity|]. now rewrite IH.
Qed.

Lemma save_profile_accepted (s : Scanner) :
  strip (field_name (form_fields s)) <> [] ->
  (3 <= List.length (captured_images s))%nat ->
  save_profile path_join now s =
    (clear_form s,
     [MakeDirs (str "dataset");
      MakeDirs (path_join (str "dataset") (strip (field_name (form_fields s))))]
     ++ save_images path_join
          (path_join (str "dataset") (strip (field_name (form_fields s))))
          (strip (field_name (form_fields s))) 0 (captured_images s)
     ++ [JsonDump
           (path_join
              (path_join (str "dataset") (strip (field_name (form_fields s))))
              (str "profile.json"))
           (make_profile_data now (strip (field_name (form_fields s)))
                              (form_fields s));
         MessageInformation (str "Success")
           (str "Profile for " ++ strip (field_name (form_fields s))
            ++ str " saved successfully!" ++ [10%N]
            ++ str_of_nat (List.length (captured_images s))
            ++ str " images saved.")]).
Proof.
  intros Hname Hlen. unfold save_profile.
  destruct (strip (field_name (form_fields s))) as [|c rest]; [congruence|].
  replace (List.length (captured_images s) <? 3)%nat with false
    by (symmetry; apply Nat.ltb_ge; exact Hlen).
  reflexivity.
Qed.

Lemma save_images_map (person_dir name : pystr) (images : list Image) (start : nat) :
  save_images path_join person_dir name start images =
  List.map (fun p => ImWrite (path_join person_dir (image_file_name name (fst p))) (snd p))
           (combine (seq start (List.length images)) images).
Proof.
  revert start. induction images as [|img rest IH]; intros start; simpl;
    [reflexivity|].
  rewrite IH. reflexivity.
Qed.

(** X11. With a non-empty trimmed name and any number of captured frames
    from three up, the calls of [save_profile] are, in this order: the two
    [makedirs] calls, for [dataset] and for the person directory; one
    [cv2.imwrite] call per captured frame, in capture order, the frame at
    position [i] with the path [<name>_<i+1>.jpg] joined to the person
    directory; the dump of [profile.json]; the success message.  Afterwards
    the form is cleared and no captured frame is kept.  (Whether a frame
    reaches the disk is up to [cv2.imwrite]; its result is not looked
    at.) *)
Theorem save_profile_hands_every_captured_frame_to_imwrite (s : Scanner) :
  let name := strip (field_name (form_fields s)) in
  let person_dir := path_join (str "dataset") name in
  let calls := snd (save_profile path_join now s) in
  name <> [] ->
  (3 <= List.length (captured_images s))%nat ->
  fst (save_profile path_join now s) = clear_form s /\
  captured_images (fst (save_profile path_join now s)) = [] /\
  calls =
    [MakeDirs (str "dataset"); MakeDirs person_dir]
    ++ List.map (fun p => ImWrite (path_join person_dir (image_file_name name (fst p)))
                                  (snd p))
                (combine (seq 0 (List.length (captured_images s))) (captured_images s))
    ++ [JsonDump (path_join person_dir (str "profile.json"))
                 (make_profile_data now name (form_fields s));
        MessageInformation (str "Success")
          (str "Profile for " ++ name ++ str " saved successfully!" ++ [10%N]
           ++ str_of_nat (List.length (captured_images s)) ++ str " images saved.")] /\
  nth_error calls 0 = Some (MakeDirs (str "dataset")) /\
  nth_error calls 1 = Some (MakeDirs person_dir) /\
  written_images calls =
    List.map (fun i => path_join person_dir (image_file_name name i))
             (seq 0 (List.length (captured_images s))) /\
  (forall i img,
     nth_error (captured_images s) i = Some img ->
     nth_error calls (2 + i) =
       Some (ImWrite (path_join person_dir (image_file_name name i)) img)) /\
  List.length calls = (List.length (captured_images s) + 4)%nat.
Proof.
  intros name person_dir calls Hname Hlen. unfold calls.
  rewrite (save_profile_accepted s Hname Hlen). fold name. fold person_dir.
  cbn [fst snd]. split; [reflexivity|]. split; [reflexivity|].
  split; [now rewrite save_images_map|].
  split; [reflexivity|]. split; [reflexivity|]. split; [|split].
  - cbn [app written_images]. rewrite written_images_app.
    rewrite written_images_save_images. cbn [written_images].
    now rewrite app_nil_r.
  - intros i img Hi. cbn [app Nat.add nth_error].
    assert (Hil : (i < List.length (captured_images s))%nat)
      by (apply nth_error_Some; congruence).
    rewrite nth_error_app1 by (rewrite save_images_length; exact Hil).
    rewrite save_images_nth, Hi. reflexivity.
  - cbn [app List.length]. rewrite length_app, save_images_length.
    cbn [List.length]. lia.
Qed.

(** X12. When joining a file name to the person directory keeps different
    file names apart, no two captured frames are written to the same path:
    the paths of the image writes of one [save_profile] are pairwise
    different. *)
Theorem saved_frames_never_overwrite_each_other (s : Scanner) :
  let name := strip (field_name (form_fields s)) in
  let person_dir := path_join (str "dataset") name in
  (forall a b, path_join person_dir a = path_join person_dir b -> a = b) ->
  NoDup (written_images (snd (save_profile path_join now s))).
Proof.
  intros name person_dir Hinj. unfold save_profile. fold name.
  destruct name as [|c rest] eqn:Hname; [constructor|].
  destruct (List.length (captured_images s) <? 3)%nat; [constructor|].
  cbn [snd app written_images]. rewrite written_images_app.
  rewrite written_images_save_images. cbn [written_images].
  rewrite app_nil_r. apply Injective_map_NoDup; [|apply seq_NoDup].
  intros i j Hij. apply Hinj in Hij. now apply image_file_name_inj in Hij.
Qed.

(** X13. Right after a successful [save_profile] a second call is rejected:
    the form has been cleared, so it only warns that a name is missing and
    writes nothing. *)
Theorem save_profile_twice_second_rejected (s : Scanner) :
  strip (field_name (form_fields s)) <> [] ->
  (3 <= List.length (captured_images s))%nat ->
  let saved := fst (save_profile path_join now s) in
  save_profile path_join now saved =
    (saved, [MessageWarning (str "Error") (str "Please enter a name")]).
Proof.
  intros Hname Hlen saved. unfold saved.
  rewrite (save_profile_accepted s Hname Hlen). reflexivity.
Qed.

Lemma startswith_app (prefix rest : pystr) : startswith (prefix ++ rest) prefix = true.
Proof.
  induction prefix as [|c t IH]; simpl; [destruct rest; reflexivity|].
  now rewrite N.eqb_refl, IH.
Qed.

Lemma endswith_app (s suffix : pystr) : endswith (s ++ suffix) suffix = true.
Proof. unfold endswith. rewrite rev_app_distr. apply startswith_app. Qed.

(** X14. What enrollment writes is what the build reads: a file named as
    [save_profile] names its images passes the suffix test of
    [load_known_faces] and goes to the detector, whereas [profile.json] in
    the same directory is skipped whatever it holds. *)
Theorem saved_images_are_loaded_profile_json_is_skipped
  (name person_name : pystr) (i : nat) (image : Image) (decoded : option Image)
  (reg : Registry dim) :
  load_image_file face_detector face_recognizer person_name
                  (image_file_name name i, Some image) reg =
    load_image face_detector face_recognizer person_name image reg /\
  load_image_file face_detector face_recognizer person_name
                  (str "profile.json", decoded) reg = Completed reg.
Proof.
  split.
  - unfold load_image_file. cbn [fst snd].
    replace (endswith_any (image_file_name name i) image_suffixes) with true;
      [reflexivity|].
    symmetry. unfold endswith_any, image_suffixes. cbn [existsb].
    unfold image_file_name. rewrite !app_assoc. rewrite endswith_app. reflexivity.
  - reflexivity.
Qed.

(** ** Cameras *)

Lemma filter_sorted (f : nat -> bool) (l : list nat) :
  StronglySorted lt l -> StronglySorted lt (filter f l).
Proof.
  induction 1 as [|a l Hs IH Ha]; simpl; [constructor|].
  destruct (f a); [|exact IH]. constructor; [exact IH|].
  apply Forall_forall. intros x Hx. apply filter_In in Hx.
  rewrite Forall_forall in Ha. now apply Ha.
Qed.

Lemma seq_sorted (len start : nat) : StronglySorted lt (seq start len).
Proof.
  revert start. induction len as [|n IH]; intros start; simpl; constructor;
    [apply IH|].
  apply Forall_forall. intros x Hx. apply in_seq in Hx. lia.
Qed.

(** X15. [detect_cameras] never returns an empty list.  When at least one of
    the indices 0 to 9 opens it returns exactly the indices that open, in
    increasing order; when none opens it returns [[0]], although camera 0
    did not open. *)
Theorem detect_cameras_nonempty_sorted_in_range (opens : nat -> bool) :
  detect_cameras opens <> [] /\
  Forall (fun i => (i < 10)%nat) (detect_cameras opens) /\
  StronglySorted lt (detect_cameras opens) /\
  ((exists i, (i < 10)%nat /\ opens i = true) ->
   forall i, In i (detect_cameras opens) <-> (i < 10)%nat /\ opens i = true) /\
  ((forall i, (i < 10)%nat -> opens i = false) -> detect_cameras opens = [0%nat]).
Proof.
  unfold detect_cameras.
  assert (Hin : forall i, In i (filter opens (seq 0 10)) <->
                          (i < 10)%nat /\ opens i = true).
  { intros i. rewrite filter_In, in_seq.
    split; [intros [[_ H] Ho]|intros [H Ho]]; (split; [|exact Ho]); lia. }
  pose proof (filter_sorted opens _ (seq_sorted 10 0)) as Hsorted.
  destruct (filter opens (seq 0 10)) as [|c rest] eqn:Hf.
  - split; [discriminate|]. split; [constructor; [lia|constructor]|].
    split; [constructor; constructor|]. split; [|reflexivity].
    intros (i & Hi & Ho). exfalso. apply (proj2 (Hin i)). split; assumption.
  - split; [discriminate|]. split; [|split; [exact Hsorted|split]].
    + apply Forall_forall. intros i Hi. now apply Hin in Hi.
    + intros _. exact Hin.
    + intros Hnone. exfalso.
      destruct (proj1 (Hin c) (or_introl eq_refl)) as [Hc Ho].
      rewrite (Hnone c Hc) in Ho. discriminate.
Qed.

End Properties.

(** * Nearest neighbour in the arithmetic of the encodings *)

Section MatchingProperties.

Variable T : Dtype.

Variable dim : nat.

Lemma numbers_irreflexive (ds : list (scalar T)) (x : scalar T) :
  numbers T ds -> In x ds -> np_less T x x = false.
Proof.
  intros (_ & _ & Hasym & _) Hx.
  destruct (np_less T x x) eqn:E; [|reflexivity].
  now rewrite (Hasym x x Hx Hx E) in E.
Qed.

Lemma np_argmin_from_first_least (t pre : list (scalar T)) (min_ind : nat)
  (mp : scalar T) :
  numbers T (pre ++ t) ->
  first_least T pre min_ind mp ->
  exists m,
    first_least T (pre ++ t) (np_argmin_from T t (List.length pre) min_ind mp) m.
Proof.
  revert pre min_ind mp.
  induction t as [|x t IH]; intros pre min_ind mp Hnum Hmin; simpl.
  - exists mp. now rewrite app_nil_r.
  - pose proof Hnum as (Hnan & Hge & Hasym & Hco).
    destruct Hmin as (Hk & Hle & Hlt).
    assert (Hlen : List.length (pre ++ [x]) = S (List.length pre))
      by (rewrite length_app; simpl; lia).
    assert (Hsplit : pre ++ x :: t = (pre ++ [x]) ++ t)
      by (rewrite <- app_assoc; reflexivity).
    assert (Hx : In x (pre ++ x :: t)) by (apply in_or_app; right; now left).
    assert (Hpre : forall j y, nth_error pre j = Some y -> In y (pre ++ x :: t)).
    { intros j y Hj. apply in_or_app. left. now apply nth_error_In with j. }
    assert (Hmp : In mp (pre ++ x :: t)) by exact (Hpre _ _ Hk).
    rewrite (Hge x mp Hx Hmp), negb_involutive, (Hnan x Hx).
    rewrite Hsplit in Hnum. rewrite Hsplit.
    destruct (np_less T x mp) eqn:Hxmp; rewrite <- Hlen; apply IH; try exact Hnum.
    + split; [|split].
      * rewrite nth_error_app2 by lia. now rewrite Nat.sub_diag.
      * intros j y Hj.
        destruct (Nat.lt_ge_cases j (List.length pre)) as [Hjl|Hjl].
        -- rewrite nth_error_app1 in Hj by lia.
           destruct (np_less T y x) eqn:Hyx; [|reflexivity].
           destruct (Hco y x mp (Hpre _ _ Hj) Hx Hmp Hyx) as [H|H].
           ++ now rewrite (Hle _ _ Hj) in H.
           ++ now rewrite (Hasym x mp Hx Hmp Hxmp) in H.
        -- rewrite nth_error_app2 in Hj by lia.
           destruct (j - List.length pre)%nat as [|n]; simpl in Hj.
           ++ injection Hj as <-.
              apply numbers_irreflexive with (pre ++ x :: t); [|exact Hx].
              now rewrite Hsplit.
           ++ destruct n; discriminate.
      * intros j y Hjl Hj. rewrite nth_error_app1 in Hj by lia.
        destruct (Hco x mp y Hx Hmp (Hpre _ _ Hj) Hxmp) as [H|H]; [exact H|].
        now rewrite (Hle _ _ Hj) in H.
    + assert (Hbi : (min_ind < List.length pre)%nat)
        by (apply nth_error_Some; congruence).
      split; [|split].
      * rewrite nth_error_app1 by lia. exact Hk.
      * intros j y Hj.
        destruct (Nat.lt_ge_cases j (List.length pre)) as [Hjl|Hjl].
        -- rewrite nth_error_app1 in Hj by lia. now apply Hle with j.
        -- rewrite nth_error_app2 in Hj by lia.
           destruct (j - List.length pre)%nat as [|n]; simpl in Hj.
           ++ now injection Hj as <-.
           ++ destruct n; discriminate.
      * intros j y Hjl Hj.
        apply Hlt with j; [exact Hjl|].
        rewrite nth_error_app1 in Hj by lia. exact Hj.
Qed.

Lemma np_argmin_first_least (ds : list (scalar T)) :
  ds <> [] -> numbers T ds ->
  exists k m, np_argmin T ds = Some k /\ first_least T ds k m.
Proof.
  destruct ds as [|x t]; [congruence|]. intros _ Hnum.
  pose proof Hnum as (Hnan & _).
  destruct (np_argmin_from_first_least t [x] 0 x Hnum) as [m Hm].
  - split; [reflexivity|]. split.
    + intros j y Hj. destruct j as [|[|j]]; simpl in Hj; try discriminate.
      injection Hj as <-. apply numbers_irreflexive with (x :: t); [exact Hnum|].
      now left.
    + intros j y Hj. lia.
  - exists (np_argmin_from T t 1 0 x), m. split; [|exact Hm].
    unfold np_argmin. now rewrite (Hnan x (or_introl eq_refl)).
Qed.

Lemma first_least_unique (ds : list (scalar T)) (k k' : nat) (m m' : scalar T) :
  first_least T ds k m -> first_least T ds k' m' -> k = k'.
Proof.
  intros (Hk & Hle & Hlt) (Hk' & Hle' & Hlt').
  destruct (Nat.lt_trichotomy k k') as [H|[H|H]]; [|exact H|].
  - specialize (Hlt' _ _ H Hk). now rewrite (Hle _ _ Hk') in Hlt'.
  - specialize (Hlt _ _ H Hk'). now rewrite (Hle' _ _ Hk) in Hlt.
Qed.

Lemma map_map2 {A B C : Type} (f : C -> C) (g : A -> B -> C) (n : nat)
  (u : Vector.t A n) (v : Vector.t B n) :
  Vector.map f (Vector.map2 g u v) = Vector.map2 (fun a b => f (g a b)) u v.
Proof.
  revert n u v.
  refine (@Vector.rect2 A B (fun n u v =>
    Vector.map f (Vector.map2 g u v) = Vector.map2 (fun a b => f (g a b)) u v) _ _);
    [reflexivity|].
  intros n u v IH a b. simpl. now rewrite IH.
Qed.

(** What the block computes for a stored vector is the Euclidean distance. *)
Lemma np_linalg_norm_euclidean (v q : Row T dim) :
  np_linalg_norm T dim (row_subtract T dim v q) = euclidean_distance T dim v q.
Proof.
  unfold np_linalg_norm, row_subtract, euclidean_distance.
  now rewrite map_map2.
Qed.

Lemma row_distances_euclidean (known : list (Row T dim)) (q : Row T dim) :
  row_distances T dim known q = List.map (fun u => euclidean_distance T dim u q) known.
Proof.
  unfold row_distances. apply map_ext. intros u. apply np_linalg_norm_euclidean.
Qed.

Lemma first_nearest_first_least (known : list (Row T dim)) (q : Row T dim)
  (i : nat) (v : Row T dim) :
  first_nearest T dim known q i v <->
  nth_error known i = Some v /\
  first_least T (List.map (fun u => euclidean_distance T dim u q) known) i
              (euclidean_distance T dim v q).
Proof.
  unfold first_nearest, first_least. split.
  - intros (Hi & Hle & Hlt). split; [exact Hi|]. split; [|split].
    + now rewrite nth_error_map, Hi.
    + intros j x Hj. rewrite nth_error_map in Hj.
      destruct (nth_error known j) as [u|] eqn:Hu; [|discriminate].
      injection Hj as <-. now apply Hle with j.
    + intros j x Hji Hj. rewrite nth_error_map in Hj.
      destruct (nth_error known j) as [u|] eqn:Hu; [|discriminate].
      injection Hj as <-. now apply Hlt with j.
  - intros (Hi & _ & Hle & Hlt). split; [exact Hi|]. split.
    + intros j u Hu. apply Hle with j. now rewrite nth_error_map, Hu.
    + intros j u Hji Hu. apply Hlt with j; [exact Hji|].
      now rewrite nth_error_map, Hu.
Qed.

(** C1. For stored vectors, at least one, with as many labels, and any query
    embedding, the matching block computes for every stored vector its
    Euclidean distance to the query, the square root of the sum of the squared
    coordinate differences, in the arithmetic of the encodings; whenever
    these distances are numbers, there is a first stored vector at the least
    distance, and the block assigns the label stored at its position when
    that distance is strictly below 0.8 and ["Unknown"] otherwise.  Among
    several vectors at the least computed distance the first in insertion
    order is the one taken. *)
Theorem query_nearest_label_below_threshold
  (known : list (Row T dim)) (names : list pystr) (q : Row T dim) :
  known <> [] ->
  List.length known = List.length names ->
  numbers T (List.map (fun u => euclidean_distance T dim u q) known) ->
  (exists i v label,
     first_nearest T dim known q i v /\ nth_error names i = Some label) /\
  (forall i v label,
     first_nearest T dim known q i v ->
     nth_error names i = Some label ->
     match_rows T dim known names q =
       Some {| row_name :=
                 if np_less T (euclidean_distance T dim v q) (literal_0_8 T) then label
                 else Unknown;
               row_computed_distances :=
                 Some (List.map (fun u => euclidean_distance T dim u q) known) |}).
Proof.
  intros Hne Hlen Hnum.
  set (ds := List.map (fun u => euclidean_distance T dim u q) known) in *.
  assert (Hds : ds <> []) by (unfold ds; destruct known; simpl; congruence).
  destruct (np_argmin_first_least ds Hds Hnum) as (k & m & Harg & Hmin).
  pose proof Hmin as (Hk & _).
  unfold ds in Hk. rewrite nth_error_map in Hk.
  destruct (nth_error known k) as [w|] eqn:Hw; [|discriminate].
  injection Hk as Hm. subst m.
  assert (Hkl : (k < List.length names)%nat).
  { rewrite <- Hlen. apply nth_error_Some. congruence. }
  destruct (nth_error names k) as [l|] eqn:Hl;
    [|apply nth_error_Some in Hkl; congruence].
  split.
  - exists k, w, l. split; [|exact Hl].
    apply first_nearest_first_least. split; [exact Hw|exact Hmin].
  - intros i v label Hnear Hlabel.
    apply first_nearest_first_least in Hnear. destruct Hnear as (Hv & Hleast).
    assert (i = k) by exact (first_least_unique ds i k _ _ Hleast Hmin). subst i.
    assert (v = w) by congruence. subst w.
    assert (label = l) by congruence. subst l.
    unfold match_rows.
    assert (Hpos : (0 <? List.length known)%nat = true).
    { apply Nat.ltb_lt. destruct known; [congruence|simpl; lia]. }
    rewrite Hpos, row_distances_euclidean. fold ds. rewrite Harg.
    destruct Hmin as (Hk' & _). rewrite Hk', Hl. reflexivity.
Qed.

End MatchingProperties.

(** ** Exact arithmetic *)

Lemma numbers_exact (ds : list R) : numbers exact ds.
Proof.
  unfold numbers. cbn [np_isnan np_greater_equal np_less exact].
  split; [reflexivity|]. split; [|split].
  - intros x y _ _. destruct (Rge_dec x y), (Rlt_dec x y); try reflexivity; lra.
  - intros x y _ _. destruct (Rlt_dec x y), (Rlt_dec y x); try reflexivity;
      try discriminate; lra.
  - intros x y z _ _ _.
    destruct (Rlt_dec x y), (Rlt_dec x z), (Rlt_dec z y); auto; try discriminate; lra.
Qed.

Lemma norm_exact (dim : nat) (x : Encoding dim) : norm x = np_linalg_norm exact dim x.
Proof.
  unfold norm, np_linalg_norm. cbn [np_sqrt np_add_reduce np_multiply exact]. f_equal.
  induction x as [|c n x IH]; [reflexivity|].
  cbn [Vector.fold_right Vector.map]. rewrite Vector.to_list_cons.
  cbn [fold_right]. now rewrite IH.
Qed.

Lemma distances_to_exact (dim : nat) (known : list (Encoding dim)) (q : Encoding dim) :
  distances_to known q = row_distances exact dim known q.
Proof.
  unfold distances_to, row_distances. apply map_ext. intros k. apply norm_exact.
Qed.

Lemma argmin_from_exact (l : list R) (i best_i : nat) (best : R) :
  np_argmin_from exact l i best_i best = argmin_from l i best_i best.
Proof.
  revert i best_i best. induction l as [|x t IH]; intros i best_i best;
    [reflexivity|].
  cbn [np_argmin_from argmin_from np_greater_equal np_isnan exact].
  destruct (Rge_dec x best), (Rlt_dec x best); cbn [negb]; try apply IH; lra.
Qed.

Lemma argmin_exact (l : list R) : np_argmin exact l = argmin l.
Proof.
  destruct l as [|x t]; [reflexivity|].
  unfold np_argmin, argmin. cbn [np_isnan exact]. now rewrite argmin_from_exact.
Qed.

(** [match_known] is the matching block in exact arithmetic. *)
Lemma match_known_exact (dim : nat) (reg : Registry dim) (q : Encoding dim) :
  match_known reg q =
  option_map (fun m => {| matched_name := row_name exact m;
                          computed_distances := row_computed_distances exact m |})
             (match_rows exact dim (known_face_encodings reg) (known_face_names reg) q).
Proof.
  unfold match_known, match_rows. rewrite <- distances_to_exact, argmin_exact.
  change (Row exact dim) with (Encoding dim). change (scalar exact) with R.
  destruct (0 <? List.length (known_face_encodings reg))%nat; [|reflexivity].
  destruct (argmin _) as [idx|]; [|reflexivity].
  destruct (nth_error (distances_to _ _) idx) as [d|]; [|reflexivity].
  destruct (nth_error (known_face_names reg) idx) as [candidate|]; [|reflexivity].
  cbn [option_map row_name row_computed_distances np_less literal_0_8 exact].
  destruct (Rlt_dec d 0.8); reflexivity.
Qed.

(** In exact arithmetic the Euclidean distance is the real square root of
    the real sum of squares. *)
Lemma euclidean_distance_exact (dim : nat) (v q : Encoding dim) :
  euclidean_distance exact dim v q = norm (sub v q).
Proof. rewrite norm_exact. symmetry. apply np_linalg_norm_euclidean. Qed.

(** * Saving a profile on a disk *)

(** C2 (what the code does).  For the name ["a/b"] and three captured frames
    [save_profile] passes validation, creates [dataset/a/b], hands the three
    frames to [cv2.imwrite] under [dataset/a/b/a/b_<n>.jpg], a directory that
    does not exist, writes [dataset/a/b/profile.json] and reports success with
    ["3 images saved."]: on a fresh disk no image file exists afterwards, and
    the captured frames are dropped from the session.  For the name
    ["  Alice "] the same call stores the three frames. *)
Theorem save_profile_reports_success_without_persisting (now : pystr) :
  let saved := save_profile posix_join now slash_session in
  written_images (snd saved) =
    [str "dataset/a/b/a/b_1.jpg"; str "dataset/a/b/a/b_2.jpg";
     str "dataset/a/b/a/b_3.jpg"] /\
  last (snd saved) (MessageWarning [] []) =
    MessageInformation (str "Success")
      (str "Profile for a/b saved successfully!" ++ [10%N] ++ str "3 images saved.") /\
  captured_images (fst saved) = [] /\
  perform_all (snd saved) fresh_disk =
    Completed
      {| working_directory := [str "app"];
         directories :=
           [[str "app"]; [str "app"; str "dataset"];
            [str "app"; str "dataset"; str "a"];
            [str "app"; str "dataset"; str "a"; str "b"]];
         files :=
           [([str "app"; str "dataset"; str "a"; str "b"; str "profile.json"],
             JsonContent (make_profile_data now (str "a/b") slash_form))] |} /\
  stored_images (state_of (perform_all (snd saved) fresh_disk)) = [] /\
  stored_images
    (state_of (perform_all (snd (save_profile posix_join now alice_session))
                           fresh_disk)) =
    [([str "app"; str "dataset"; str "Alice"; str "Alice_1.jpg"], frame100);
     ([str "app"; str "dataset"; str "Alice"; str "Alice_2.jpg"], offside);
     ([str "app"; str "dataset"; str "Alice"; str "Alice_3.jpg"], frame100)].
Proof.
  cbv zeta. repeat split; vm_compute; reflexivity.
Qed.

(** * Properties of the settings objects *)

(** ** The object store *)

Lemma nth_error_alloc_old (h : Heap) (o : PyObj) (i : nat) :
  (i < List.length h)%nat -> nth_error (h ++ [o]) i = nth_error h i.
Proof. intros H. now apply nth_error_app1. Qed.

Lemma nth_error_alloc_new (h : Heap) (o : PyObj) :
  nth_error (h ++ [o]) (List.length h) = Some o.
Proof. rewrite nth_error_app2 by lia. now rewrite Nat.sub_diag. Qed.

Lemma replace_nth_length {A : Type} (n : nat) (a : A) (l : list A) :
  List.length (replace_nth n a l) = List.length l.
Proof.
  revert n. induction l as [|x t IH]; intros [|n]; simpl; try reflexivity.
  now rewrite IH.
Qed.

Lemma nth_error_replace_same {A : Type} (n : nat) (a : A) (l : list A) :
  (n < List.length l)%nat -> nth_error (replace_nth n a l) n = Some a.
Proof.
  revert n. induction l as [|x t IH]; intros [|n] H; simpl in *; try lia;
    [reflexivity|]. apply IH. lia.
Qed.

Lemma nth_error_replace_other {A : Type} (n i : nat) (a : A) (l : list A) :
  i <> n -> nth_error (replace_nth n a l) i = nth_error l i.
Proof.
  revert n i. induction l as [|x t IH]; intros [|n] [|i] H; simpl;
    try reflexivity; try congruence.
  apply IH. congruence.
Qed.

Lemma entries_get_set_same (entries : list (string * PyVal)) (key : string) (v : PyVal) :
  entries_get (entries_set entries key v) key = Some v.
Proof.
  induction entries as [|[k x] t IH]; simpl.
  - now rewrite String.eqb_refl.
  - destruct (String.eqb k key) eqn:E; simpl; rewrite E; [reflexivity|exact IH].
Qed.

Lemma entries_get_set_other (entries : list (string * PyVal)) (key k' : string)
  (v : PyVal) :
  k' <> key -> entries_get (entries_set entries key v) k' = entries_get entries k'.
Proof.
  intros Hk. induction entries as [|[k x] t IH]; simpl.
  - destruct (String.eqb key k') eqn:E; [|reflexivity].
    apply String.eqb_eq in E. congruence.
  - destruct (String.eqb k key) eqn:E; simpl.
    + apply String.eqb_eq in E. subst k.
      destruct (String.eqb key k') eqn:E'; [|reflexivity].
      apply String.eqb_eq in E'. congruence.
    + destruct (String.eqb k k'); [reflexivity|exact IH].
Qed.

Lemma keeps_names_refl (h : Heap) : keeps_names h h.
Proof. intros i e H. now exists e. Qed.

Lemma keeps_names_trans (a b c : Heap) :
  keeps_names a b -> keeps_names b c -> keeps_names a c.
Proof.
  intros Hab Hbc i e H. destruct (Hab i e H) as (e' & H' & Hn & Hc).
  destruct (Hbc i e' H') as (e'' & H'' & Hn' & Hc').
  exists e''. split; [exact H''|]. split; congruence.
Qed.

Lemma keeps_names_alloc (h : Heap) (o : PyObj) : keeps_names h (h ++ [o]).
Proof.
  intros i e H. exists e. split; [|split; reflexivity].
  rewrite nth_error_alloc_old; [exact H|]. apply nth_error_Some. congruence.
Qed.

Lemma keeps_names_store_list (h : Heap) (l : nat) (old new : list PyVal) :
  nth_error h l = Some (PyList old) ->
  keeps_names h (replace_nth l (PyList new) h).
Proof.
  intros Hl i e H. exists e. split; [|split; reflexivity].
  rewrite nth_error_replace_other; [exact H|]. congruence.
Qed.

Lemma keeps_names_setitem (h : Heap) (d : nat) (entries : list (string * PyVal))
  (key : string) (v : PyVal) :
  key <> "name"%string -> key <> "color"%string ->
  nth_error h d = Some (PyDict entries) ->
  keeps_names h (replace_nth d (PyDict (entries_set entries key v)) h).
Proof.
  intros Hn Hc Hd i e H.
  destruct (Nat.eq_dec i d) as [->|Hi].
  - rewrite Hd in H. injection H as <-.
    exists (entries_set entries key v).
    rewrite nth_error_replace_same by (apply nth_error_Some; congruence).
    split; [reflexivity|].
    split; apply entries_get_set_other; congruence.
  - exists e. rewrite nth_error_replace_other by exact Hi.
    split; [exact H|split; reflexivity].
Qed.

Lemma is_named_color_keeps (h h' : Heap) (v : PyVal) (item : pystr * pystr) :
  keeps_names h h' -> is_named_color h v item -> is_named_color h' v item.
Proof.
  intros Hk (i & e & -> & Hi & Hn & Hc).
  destruct (Hk i e Hi) as (e' & Hi' & Hn' & Hc').
  exists i, e'. repeat split; congruence.
Qed.

Lemma named_colors_keep (h h' : Heap) (elems : list PyVal)
  (items : list (pystr * pystr)) :
  keeps_names h h' ->
  Forall2 (is_named_color h) elems items -> Forall2 (is_named_color h') elems items.
Proof.
  intros Hk H. induction H; constructor; [|assumption].
  now apply is_named_color_keeps with h.
Qed.

Lemma pystr_eqb_eq (a b : pystr) : pystr_eqb a b = true <-> a = b.
Proof.
  unfold pystr_eqb. destruct (list_eq_dec N.eq_dec a b); split; congruence.
Qed.

Lemma getitem_named (h : Heap) (v : PyVal) (item : pystr * pystr) :
  is_named_color h v item ->
  py_getitem v "name" h = (Some (PStr (fst item)), h) /\
  py_getitem v "color" h = (Some (PStr (snd item)), h).
Proof.
  intros (i & e & -> & Hi & Hn & Hc).
  unfold py_getitem, bind, deref. rewrite Hi, Hn, Hc. split; reflexivity.
Qed.

Lemma any_named_absent (h : Heap) (elems : list PyVal) (items : list (pystr * pystr))
  (name : pystr) :
  Forall2 (is_named_color h) elems items ->
  ~ In name (List.map fst items) ->
  any_named elems name h = (Some false, h).
Proof.
  induction 1 as [|v item elems items Hv _ IH]; intros Hn; [reflexivity|].
  cbn [any_named]. unfold bind at 1.
  rewrite (proj1 (getitem_named h v item Hv)). cbn [py_eq_str].
  destruct (pystr_eqb (fst item) name) eqn:E.
  - apply pystr_eqb_eq in E. exfalso. apply Hn. left. exact E.
  - apply IH. intros Hi. apply Hn. now right.
Qed.

Lemma any_named_present (h : Heap) (elems : list PyVal) (items : list (pystr * pystr))
  (name : pystr) :
  Forall2 (is_named_color h) elems items ->
  In name (List.map fst items) ->
  any_named elems name h = (Some true, h).
Proof.
  induction 1 as [|v item elems items Hv _ IH]; intros Hn; [destruct Hn|].
  cbn [any_named]. unfold bind at 1.
  rewrite (proj1 (getitem_named h v item Hv)). cbn [py_eq_str].
  destruct (pystr_eqb (fst item) name) eqn:E; [reflexivity|].
  apply IH. destruct Hn as [Hn|Hn]; [|exact Hn].
  apply pystr_eqb_eq in Hn. congruence.
Qed.

Lemma names_of_spec (h : Heap) (elems : list PyVal) (items : list (pystr * pystr)) :
  Forall2 (is_named_color h) elems items ->
  names_of elems h = (Some (List.map (fun it => PStr (fst it)) items), h).
Proof.
  induction 1 as [|v item elems items Hv _ IH]; [reflexivity|].
  cbn [names_of]. unfold bind.
  rewrite (proj1 (getitem_named h v item Hv)), IH. reflexivity.
Qed.

Lemma get_names_spec (h : Heap) (d l : nat) (key : string)
  (items : list (pystr * pystr)) :
  dict_has h d key (PRef l) -> holds_named_colors h l items ->
  get_names d key h = (Some (List.map (fun it => PStr (fst it)) items), h).
Proof.
  intros (e & Hd & Hk) (elems & Hl & Hall).
  unfold get_names, py_get_or_new_list, py_iter, bind, deref, ret.
  rewrite Hd, Hk, Hl. now apply names_of_spec.
Qed.

Lemma color_of_spec (h : Heap) (elems : list PyVal) (items : list (pystr * pystr))
  (name : pystr) :
  Forall2 (is_named_color h) elems items ->
  color_of elems name h =
    (Some (PStr (match first_named items name with
                 | Some it => snd it
                 | None => str "#808080"
                 end)), h).
Proof.
  induction 1 as [|v item elems items Hv _ IH]; [reflexivity|].
  cbn [color_of]. unfold bind at 1.
  destruct (getitem_named h v item Hv) as [Hn Hc]. rewrite Hn.
  cbn [py_eq_str]. unfold first_named. cbn [find].
  destruct (pystr_eqb (fst item) name); [exact Hc|exact IH].
Qed.

Lemma get_color_spec (h : Heap) (d l : nat) (key : string)
  (items : list (pystr * pystr)) (name : pystr) :
  dict_has h d key (PRef l) -> holds_named_colors h l items ->
  get_color d key name h =
    (Some (PStr (match first_named items name with
                 | Some it => snd it
                 | None => str "#808080"
                 end)), h).
Proof.
  intros (e & Hd & Hk) (elems & Hl & Hall).
  unfold get_color, py_get_or_new_list, py_iter, bind, deref, ret.
  rewrite Hd, Hk, Hl. now apply color_of_spec.
Qed.

Lemma first_named_app_absent (items : list (pystr * pystr)) (name color : pystr) :
  ~ In name (List.map fst items) ->
  first_named (items ++ [(name, color)]) name = Some (name, color).
Proof.
  unfold first_named. induction items as [|it t IH]; intros Hn; cbn [app find fst].
  - replace (pystr_eqb name name) with true; [reflexivity|].
    symmetry. now apply pystr_eqb_eq.
  - destruct (pystr_eqb (fst it) name) eqn:E.
    + apply pystr_eqb_eq in E. exfalso. apply Hn. left. exact E.
    + apply IH. intros Hi. apply Hn. now right.
Qed.

Lemma dict_list_distinct (h : Heap) (d l : nat) (entries : list (string * PyVal))
  (elems : list PyVal) :
  nth_error h d = Some (PyDict entries) -> nth_error h l = Some (PyList elems) ->
  d <> l.
Proof. intros Hd Hl E. subst. congruence. Qed.

(** What a successful [add_named] leaves behind. *)
Lemma add_named_absent (h : Heap) (d l : nat) (key : string)
  (items : list (pystr * pystr)) (name color : pystr) :
  key <> "name"%string -> key <> "color"%string ->
  dict_has h d key (PRef l) -> holds_named_colors h l items ->
  ~ In name (List.map fst items) ->
  exists h',
    add_named d key name color h = (Some true, h') /\
    keeps_names h h' /\
    holds_named_colors h' l (items ++ [(name, color)]) /\
    (forall d' v, dict_has h d' key v -> dict_has h' d' key v).
Proof.
  intros Hkn Hkc (e & Hd & Hk) (elems & Hl & Hall) Habsent.
  pose proof (dict_list_distinct h d l e elems Hd Hl) as Hdl.
  assert (Hdlen : (d < List.length h)%nat) by (apply nth_error_Some; congruence).
  assert (Hllen : (l < List.length h)%nat) by (apply nth_error_Some; congruence).
  set (item := PyDict [("name"%string, PStr name); ("color"%string, PStr color)]).
  set (h1 := h ++ [item]).
  set (h2 := replace_nth l (PyList (elems ++ [PRef (List.length h)])) h1).
  set (h3 := replace_nth d (PyDict (entries_set e key (PRef l))) h2).
  assert (Hl1 : nth_error h1 l = Some (PyList elems))
    by (unfold h1; rewrite nth_error_alloc_old; assumption).
  assert (Hd1 : nth_error h1 d = Some (PyDict e))
    by (unfold h1; rewrite nth_error_alloc_old; assumption).
  assert (Hd2 : nth_error h2 d = Some (PyDict e))
    by (unfold h2; rewrite nth_error_replace_other; assumption).
  exists h3. split; [|split; [|split]].
  - unfold add_named, py_get_or_new_list, py_iter, bind, deref, ret.
    rewrite Hd, Hk, Hl. rewrite (any_named_absent h elems items name Hall Habsent).
    unfold alloc, py_append, py_setitem, store, bind, deref. fold item. fold h1.
    rewrite Hl1. fold h2. rewrite Hd2. reflexivity.
  - apply keeps_names_trans with h1; [apply keeps_names_alloc|].
    apply keeps_names_trans with h2.
    + unfold h2. now apply keeps_names_store_list with elems.
    + unfold h3. now apply keeps_names_setitem.
  - exists (elems ++ [PRef (List.length h)]). split.
    + unfold h3. rewrite nth_error_replace_other by congruence.
      unfold h2. apply nth_error_replace_same.
      unfold h1. rewrite length_app. simpl. lia.
    + apply Forall2_app.
      * apply named_colors_keep with h; [|exact Hall].
        apply keeps_names_trans with h1; [apply keeps_names_alloc|].
        apply keeps_names_trans with h2.
        -- unfold h2. now apply keeps_names_store_list with elems.
        -- unfold h3. now apply keeps_names_setitem.
      * constructor; [|constructor].
        exists (List.length h), [("name"%string, PStr name); ("color"%string, PStr color)].
        split; [reflexivity|]. split; [|split; reflexivity].
        unfold h3. rewrite nth_error_replace_other by lia.
        unfold h2. rewrite nth_error_replace_other by lia.
        unfold h1. apply nth_error_alloc_new.
  - intros d' v (e' & Hd' & Hk').
    assert (Hd'len : (d' < List.length h)%nat) by (apply nth_error_Some; congruence).
    destruct (Nat.eq_dec d' d) as [->|Hne].
    + assert (e' = e) by congruence. subst e'.
      exists (entries_set e key (PRef l)). split.
      * unfold h3. apply nth_error_replace_same.
        unfold h2. rewrite replace_nth_length. unfold h1. rewrite length_app. simpl. lia.
      * rewrite entries_get_set_same. congruence.
    + exists e'. split; [|exact Hk'].
      unfold h3. rewrite nth_error_replace_other by exact Hne.
      unfold h2. rewrite nth_error_replace_other
        by (intros ->; congruence).
      unfold h1. rewrite nth_error_alloc_old; assumption.
Qed.

Lemma add_named_present (h : Heap) (d l : nat) (key : string)
  (items : list (pystr * pystr)) (name color : pystr) :
  dict_has h d key (PRef l) -> holds_named_colors h l items ->
  In name (List.map fst items) ->
  add_named d key name color h = (Some false, h).
Proof.
  intros (e & Hd & Hk) (elems & Hl & Hall) Hin.
  unfold add_named, py_get_or_new_list, py_iter, bind, deref, ret.
  rewrite Hd, Hk, Hl. now rewrite (any_named_present h elems items name Hall Hin).
Qed.

Lemma py_copy_spec (h : Heap) (d : nat) (entries : list (string * PyVal)) :
  nth_error h d = Some (PyDict entries) ->
  py_copy d h = (Some (List.length h), h ++ [PyDict entries]).
Proof. intros Hd. unfold py_copy, bind, deref. now rewrite Hd. Qed.

Lemma dict_has_alloc (h : Heap) (o : PyObj) (d : nat) (key : string) (v : PyVal) :
  dict_has h d key v -> dict_has (h ++ [o]) d key v.
Proof.
  intros (e & Hd & Hk). exists e. split; [|exact Hk].
  rewrite nth_error_alloc_old; [exact Hd|]. apply nth_error_Some. congruence.
Qed.

Lemma holds_named_colors_alloc (h : Heap) (o : PyObj) (l : nat)
  (items : list (pystr * pystr)) :
  holds_named_colors h l items -> holds_named_colors (h ++ [o]) l items.
Proof.
  intros (elems & Hl & Hall). exists elems. split.
  - rewrite nth_error_alloc_old; [exact Hl|]. apply nth_error_Some. congruence.
  - apply named_colors_keep with h; [apply keeps_names_alloc|exact Hall].
Qed.

(** The copy made by [dict.copy()] refers to the same list. *)
Lemma py_copy_shares (h : Heap) (d l : nat) (key : string)
  (items : list (pystr * pystr)) :
  dict_has h d key (PRef l) -> holds_named_colors h l items ->
  exists h',
    py_copy d h = (Some (List.length h), h') /\
    dict_has h' (List.length h) key (PRef l) /\
    dict_has h' d key (PRef l) /\
    holds_named_colors h' l items /\
    (forall d' v, dict_has h d' key v -> dict_has h' d' key v).
Proof.
  intros (e & Hd & Hk) Hl. exists (h ++ [PyDict e]).
  split; [now apply py_copy_spec|]. split; [|split; [|split]].
  - exists e. split; [apply nth_error_alloc_new|exact Hk].
  - apply dict_has_alloc. now exists e.
  - now apply holds_named_colors_alloc.
  - intros d' v. apply dict_has_alloc.
Qed.

Lemma without_name_spec (h : Heap) (elems : list PyVal) (items : list (pystr * pystr))
  (name : pystr) :
  Forall2 (is_named_color h) elems items ->
  exists kept,
    without_name elems name h = (Some kept, h) /\
    Forall2 (is_named_color h) kept (others items name).
Proof.
  induction 1 as [|v item elems items Hv _ (kept & IH & Hkept)].
  - exists []. split; [reflexivity|constructor].
  - exists (if pystr_eqb (fst item) name then kept else v :: kept). split.
    + cbn [without_name]. unfold bind.
      rewrite (proj1 (getitem_named h v item Hv)), IH. reflexivity.
    + unfold others. cbn [filter].
      destruct (pystr_eqb (fst item) name); cbn [negb]; [exact Hkept|].
      now constructor.
Qed.

Lemma remove_named_spec (h : Heap) (d l : nat) (key : string)
  (items : list (pystr * pystr)) (name : pystr) :
  key <> "name"%string -> key <> "color"%string ->
  dict_has h d key (PRef l) -> holds_named_colors h l items ->
  exists h',
    remove_named d key name h = (Some tt, h') /\
    dict_has h' d key (PRef (List.length h)) /\
    holds_named_colors h' (List.length h) (others items name) /\
    holds_named_colors h' l items /\
    (forall d' v, d' <> d -> dict_has h d' key v -> dict_has h' d' key v).
Proof.
  intros Hkn Hkc (e & Hd & Hk) (elems & Hl & Hall).
  destruct (without_name_spec h elems items name Hall) as (kept & Hw & Hkept).
  assert (Hdlen : (d < List.length h)%nat) by (apply nth_error_Some; congruence).
  assert (Hllen : (l < List.length h)%nat) by (apply nth_error_Some; congruence).
  pose proof (dict_list_distinct h d l e elems Hd Hl) as Hdl.
  set (h1 := h ++ [PyList kept]).
  set (h2 := replace_nth d (PyDict (entries_set e key (PRef (List.length h)))) h1).
  assert (Hd1 : nth_error h1 d = Some (PyDict e))
    by (unfold h1; rewrite nth_error_alloc_old; assumption).
  assert (Hkeep : keeps_names h h2).
  { apply keeps_names_trans with h1; [apply keeps_names_alloc|].
    unfold h2. now apply keeps_names_setitem. }
  exists h2. split; [|split; [|split; [|split]]].
  - unfold remove_named, py_get_or_new_list, py_iter, bind, deref, ret.
    rewrite Hd, Hk, Hl, Hw. unfold alloc, py_setitem, store, bind, deref.
    fold h1. rewrite Hd1. reflexivity.
  - exists (entries_set e key (PRef (List.length h))). split.
    + unfold h2. apply nth_error_replace_same.
      unfold h1. rewrite length_app. simpl. lia.
    + apply entries_get_set_same.
  - exists kept. split.
    + unfold h2. rewrite nth_error_replace_other by lia.
      unfold h1. apply nth_error_alloc_new.
    + now apply named_colors_keep with h.
  - exists elems. split.
    + unfold h2. rewrite nth_error_replace_other by congruence.
      unfold h1. rewrite nth_error_alloc_old; assumption.
    + now apply named_colors_keep with h.
  - intros d' v Hne (e' & Hd' & Hk'). exists e'. split; [|exact Hk'].
    unfold h2. rewrite nth_error_replace_other by exact Hne.
    unfold h1. rewrite nth_error_alloc_old; [exact Hd'|].
    apply nth_error_Some. congruence.
Qed.

Lemma first_named_others (items : list (pystr * pystr)) (name : pystr) :
  first_named (others items name) name = None.
Proof.
  unfold first_named, others. induction items as [|it t IH]; [reflexivity|].
  cbn [filter]. destruct (pystr_eqb (fst it) name) eqn:E; cbn [negb]; [exact IH|].
  cbn [find]. now rewrite E.
Qed.

Lemma list_key_ok (key : string) :
  key = "threat_levels"%string \/ key = "status_types"%string ->
  key <> "name"%string /\ key <> "color"%string.
Proof. intros [->| ->]; split; discriminate. Qed.

Lemma first_named_app_other (items : list (pystr * pystr)) (name color other : pystr) :
  other <> name ->
  first_named (items ++ [(name, color)]) other = first_named items other.
Proof.
  intros Hne. unfold first_named. induction items as [|it t IH]; cbn [app find fst].
  - destruct (pystr_eqb name other) eqn:E; [|reflexivity].
    apply pystr_eqb_eq in E. congruence.
  - destruct (pystr_eqb (fst it) other); [reflexivity|exact IH].
Qed.

Lemma names_app (items : list (pystr * pystr)) (name color : pystr) :
  List.map (fun it => PStr (fst it)) (items ++ [(name, color)]) =
  List.map (fun it => PStr (fst it)) items ++ [PStr name].
Proof. now rewrite map_app. Qed.

Lemma bind_eval {A B : Type} (c : Py A) (k : A -> Py B) (h h' : Heap) (a : A) :
  c h = (Some a, h') -> bind c k h = k a h'.
Proof. intros H. unfold bind. now rewrite H. Qed.

Lemma get_list_spec (h : Heap) (d : nat) (key : string) (v : PyVal) :
  dict_has h d key v -> py_get_or_new_list d key h = (Some v, h).
Proof.
  intros (e & Hd & Hk). unfold py_get_or_new_list, bind, deref. now rewrite Hd, Hk.
Qed.

Lemma iter_list_spec (h : Heap) (l : nat) (elems : list PyVal) :
  nth_error h l = Some (PyList elems) -> py_iter (PRef l) h = (Some elems, h).
Proof. intros Hl. unfold py_iter, bind, deref. now rewrite Hl. Qed.

Lemma dialog_add_named_as_add (upper : pystr -> pystr) (h : Heap) (temp l : nat)
  (key : string) (items : list (pystr * pystr)) (text color : pystr) :
  dict_has h temp key (PRef l) -> holds_named_colors h l items ->
  text <> [] -> ~ In (strip (upper text)) (List.map fst items) ->
  dialog_add_named upper temp key text true (Some color) h =
    (match fst (add_named temp key (strip (upper text)) color h) with
     | Some _ => Some Changed
     | None => None
     end, snd (add_named temp key (strip (upper text)) color h)).
Proof.
  intros Hd (elems & Hl & Hall) Ht Habs.
  assert (Hne : pystr_eqb text [] = false).
  { destruct (pystr_eqb text []) eqn:E; [|reflexivity].
    apply pystr_eqb_eq in E. congruence. }
  pose proof (get_list_spec h temp key (PRef l) Hd) as Hget.
  pose proof (iter_list_spec h l elems Hl) as Hiter.
  pose proof (any_named_absent h elems items _ Hall Habs) as Hany.
  unfold dialog_add_named, add_named. rewrite Hne. cbn [andb negb].
  rewrite !(bind_eval (py_get_or_new_list temp key) _ h h (PRef l) Hget).
  rewrite !(bind_eval (py_iter (PRef l)) _ h h elems Hiter).
  rewrite !(bind_eval (any_named elems (strip (upper text))) _ h h false Hany).
  rewrite !(bind_eval (py_get_or_new_list temp key) _ h h (PRef l) Hget).
  unfold bind.
  destruct (alloc _ h) as [[item|] h1]; [|reflexivity].
  destruct (py_append (PRef l) (PRef item) h1) as [[[]|] h2]; [|reflexivity].
  destruct (py_setitem temp key (PRef l) h2) as [[[]|] h3]; reflexivity.
Qed.

Lemma dialog_remove_named_as_remove (h : Heap) (temp : nat) (key : string)
  (name : pystr) :
  dialog_remove_named temp key name true h =
    (match fst (remove_named temp key name h) with
     | Some _ => Some Changed
     | None => None
     end, snd (remove_named temp key name h)).
Proof.
  unfold dialog_remove_named, remove_named, bind.
  destruct (py_get_or_new_list temp key h) as [[lst|] h1]; [|reflexivity].
  destruct (py_iter lst h1) as [[items|] h2]; [|reflexivity].
  destruct (without_name items name h2) as [[kept|] h3]; [|reflexivity].
  destruct (alloc (PyList kept) h3) as [[fresh|] h4]; [|reflexivity].
  destruct (py_setitem temp key (PRef fresh) h4) as [[[]|] h5]; reflexivity.
Qed.

(** ** Threat levels and status types in the settings manager *)

(** X16. [get_threat_levels] and [get_status_types] return the names of the
    stored entries in list order, repeated names included;
    [get_threat_level_color] and [get_status_color] return the colour of the
    first entry with the given name and ["#808080"] when there is none.  None
    of them changes an object. *)
Theorem lookups_read_names_in_order_and_first_color (h : Heap) (settings l : nat)
  (key : string) (items : list (pystr * pystr)) :
  dict_has h settings key (PRef l) -> holds_named_colors h l items ->
  get_names settings key h = (Some (List.map (fun it => PStr (fst it)) items), h) /\
  forall name,
    get_color settings key name h =
      (Some (PStr (match first_named items name with
                   | Some it => snd it
                   | None => str "#808080"
                   end)), h).
Proof.
  intros Hd Hl. split; [now apply get_names_spec with l|].
  intros name. now apply get_color_spec with l.
Qed.

(** X17. [add_threat_level] and [add_status_type] with a name that is not
    listed return [True]; afterwards the name is listed last, after the
    earlier names in their order, its colour is the one given, and the colour
    looked up for every other name is as before. *)
Theorem new_name_is_added_last_with_its_color (h : Heap) (settings l : nat)
  (key : string) (items : list (pystr * pystr)) (name color : pystr) :
  key = "threat_levels"%string \/ key = "status_types"%string ->
  dict_has h settings key (PRef l) -> holds_named_colors h l items ->
  ~ In name (List.map fst items) ->
  exists h',
    add_named settings key name color h = (Some true, h') /\
    get_names settings key h' =
      (Some (List.map (fun it => PStr (fst it)) items ++ [PStr name]), h') /\
    get_color settings key name h' = (Some (PStr color), h') /\
    forall other, other <> name ->
      fst (get_color settings key other h') = fst (get_color settings key other h).
Proof.
  intros Hkey Hd Hl Habs. destruct (list_key_ok key Hkey) as [Hkn Hkc].
  destruct (add_named_absent h settings l key items name color Hkn Hkc Hd Hl Habs)
    as (h' & Hadd & _ & Hl' & Hd').
  exists h'. split; [exact Hadd|].
  pose proof (Hd' settings (PRef l) Hd) as Hds.
  split; [|split].
  - rewrite <- (names_app items name color). now apply get_names_spec with l.
  - rewrite (get_color_spec h' settings l key _ name Hds Hl').
    now rewrite first_named_app_absent.
  - intros other Hne.
    rewrite (get_color_spec h' settings l key _ other Hds Hl').
    rewrite (get_color_spec h settings l key _ other Hd Hl).
    now rewrite (first_named_app_other items name color other Hne).
Qed.

(** X18. [add_threat_level] and [add_status_type] with a name that is
    already listed return [False] and change no object: the list stays as it
    is and the colour given in the call is dropped. *)
Theorem existing_name_is_not_added_again (h : Heap) (settings l : nat)
  (key : string) (items : list (pystr * pystr)) (name color : pystr) :
  dict_has h settings key (PRef l) -> holds_named_colors h l items ->
  In name (List.map fst items) ->
  add_named settings key name color h = (Some false, h).
Proof. apply add_named_present. Qed.

(** X19. [remove_threat_level] and [remove_status_type] never raise, whether
    the name is listed or not.  Afterwards the settings list every entry with
    another name, in the old order, and the colour looked up for the removed
    name is ["#808080"].  The list object that was stored before is not
    modified: the settings refer to a new list. *)
Theorem removed_name_is_gone_and_old_list_untouched (h : Heap) (settings l : nat)
  (key : string) (items : list (pystr * pystr)) (name : pystr) :
  key = "threat_levels"%string \/ key = "status_types"%string ->
  dict_has h settings key (PRef l) -> holds_named_colors h l items ->
  exists h',
    remove_named settings key name h = (Some tt, h') /\
    get_names settings key h' =
      (Some (List.map (fun it => PStr (fst it)) (others items name)), h') /\
    get_color settings key name h' = (Some (PStr (str "#808080")), h') /\
    holds_named_colors h' l items.
Proof.
  intros Hkey Hd Hl. destruct (list_key_ok key Hkey) as [Hkn Hkc].
  destruct (remove_named_spec h settings l key items name Hkn Hkc Hd Hl)
    as (h' & Hrem & Hd' & Hfresh & Hold & _).
  exists h'. split; [exact Hrem|]. split; [|split].
  - now apply get_names_spec with (List.length h).
  - rewrite (get_color_spec h' settings _ key _ name Hd' Hfresh).
    now rewrite first_named_others.
  - exact Hold.
Qed.

(** ** Shared lists: defaults, manager and dialog *)

(** X20. [DEFAULT_SETTINGS.copy()] copies the dict but not its lists.  When
    the settings were started from the defaults (no readable settings file),
    a name added with [add_threat_level] or [add_status_type] is appended to
    the list of [DEFAULT_SETTINGS] itself, so after [reset_to_defaults] the
    settings still list it. *)
Theorem added_name_survives_reset_to_defaults (h : Heap) (defaults l : nat)
  (key : string) (items : list (pystr * pystr)) (name color : pystr) :
  key = "threat_levels"%string \/ key = "status_types"%string ->
  dict_has h defaults key (PRef l) -> holds_named_colors h l items ->
  ~ In name (List.map fst items) ->
  fst ((settings <- copy_defaults defaults ;;
        added <- add_named settings key name color ;;
        settings' <- copy_defaults defaults ;;
        names <- get_names settings' key ;;
        ret (added, names)) h) =
  Some (true, List.map (fun it => PStr (fst it)) items ++ [PStr name]).
Proof.
  intros Hkey Hd Hl Habs. destruct (list_key_ok key Hkey) as [Hkn Hkc].
  destruct (py_copy_shares h defaults l key items Hd Hl)
    as (h1 & Hcopy & Hs1 & Hd1 & Hl1 & _).
  destruct (add_named_absent h1 (List.length h) l key items name color
              Hkn Hkc Hs1 Hl1 Habs) as (h2 & Hadd & _ & Hl2 & Hd2).
  destruct (py_copy_shares h2 defaults l key _ (Hd2 defaults (PRef l) Hd1) Hl2)
    as (h3 & Hcopy' & Hs3 & _ & Hl3 & _).
  unfold copy_defaults.
  rewrite (bind_eval _ _ h h1 _ Hcopy), (bind_eval _ _ h1 h2 _ Hadd),
    (bind_eval _ _ h2 h3 _ Hcopy'),
    (bind_eval _ _ h3 h3 _ (get_names_spec h3 _ l key _ Hs3 Hl3)).
  cbn [ret fst]. now rewrite (names_app items _ color).
Qed.

(** X21. The dialog works on [settings.settings.copy()], which shares the
    lists of the manager.  A threat level or status type added in the dialog
    (non-empty text, a name not listed yet, a colour picked) is listed by the
    manager at once, under the upper-cased and stripped text, whether or not
    the dialog is saved afterwards. *)
Theorem dialog_addition_reaches_manager_without_save (upper : pystr -> pystr)
  (h : Heap) (settings l : nat) (key : string) (items : list (pystr * pystr))
  (text color : pystr) :
  key = "threat_levels"%string \/ key = "status_types"%string ->
  dict_has h settings key (PRef l) -> holds_named_colors h l items ->
  text <> [] -> ~ In (strip (upper text)) (List.map fst items) ->
  fst ((temp <- dialog_init settings ;;
        outcome <- dialog_add_named upper temp key text true (Some color) ;;
        names <- get_names settings key ;;
        ret (outcome, names)) h) =
  Some (Changed,
        List.map (fun it => PStr (fst it)) items ++ [PStr (strip (upper text))]).
Proof.
  intros Hkey Hd Hl Ht Habs. destruct (list_key_ok key Hkey) as [Hkn Hkc].
  destruct (py_copy_shares h settings l key items Hd Hl)
    as (h1 & Hcopy & Ht1 & Hd1 & Hl1 & _).
  destruct (add_named_absent h1 (List.length h) l key items _ color
              Hkn Hkc Ht1 Hl1 Habs) as (h2 & Hadd & _ & Hl2 & Hd2).
  assert (Hdialog : dialog_add_named upper (List.length h) key text true (Some color) h1
                    = (Some Changed, h2)).
  { rewrite (dialog_add_named_as_add upper h1 _ l key items text color Ht1 Hl1 Ht Habs).
    now rewrite Hadd. }
  unfold dialog_init.
  rewrite (bind_eval _ _ h h1 _ Hcopy), (bind_eval _ _ h1 h2 _ Hdialog),
    (bind_eval _ _ h2 h2 _
       (get_names_spec h2 _ l key _ (Hd2 settings (PRef l) Hd1) Hl2)).
  cbn [ret fst]. now rewrite (names_app items _ color).
Qed.

(** X22. A threat level or status type removed in the dialog is gone from
    the dialog's settings, while the manager lists what it listed before: the
    dialog stores a new list and leaves the shared one alone. *)
Theorem dialog_removal_does_not_reach_manager (h : Heap) (settings l : nat)
  (key : string) (items : list (pystr * pystr)) (name : pystr) :
  key = "threat_levels"%string \/ key = "status_types"%string ->
  dict_has h settings key (PRef l) -> holds_named_colors h l items ->
  fst ((temp <- dialog_init settings ;;
        outcome <- dialog_remove_named temp key name true ;;
        shown <- get_names temp key ;;
        names <- get_names settings key ;;
        ret (outcome, shown, names)) h) =
  Some (Changed,
        List.map (fun it => PStr (fst it)) (others items name),
        List.map (fun it => PStr (fst it)) items).
Proof.
  intros Hkey Hd Hl. destruct (list_key_ok key Hkey) as [Hkn Hkc].
  destruct (py_copy_shares h settings l key items Hd Hl)
    as (h1 & Hcopy & Ht1 & Hd1 & Hl1 & _).
  destruct (remove_named_spec h1 (List.length h) l key items name Hkn Hkc Ht1 Hl1)
    as (h2 & Hrem & Ht2 & Hfresh & Hold & Hother).
  assert (Hdialog : dialog_remove_named (List.length h) key name true h1
                    = (Some Changed, h2)).
  { rewrite dialog_remove_named_as_remove. now rewrite Hrem. }
  assert (Hne : settings <> List.length h).
  { destruct Hd as (e & Hd & _). intros E.
    assert (settings < List.length h)%nat by (apply nth_error_Some; congruence).
    lia. }
  unfold dialog_init.
  rewrite (bind_eval _ _ h h1 _ Hcopy), (bind_eval _ _ h1 h2 _ Hdialog),
    (bind_eval _ _ h2 h2 _ (get_names_spec h2 _ _ key _ Ht2 Hfresh)),
    (bind_eval _ _ h2 h2 _
       (get_names_spec h2 _ l key _ (Hother settings (PRef l) Hne Hd1) Hold)).
  reflexivity.
Qed.

(** ** Renaming an entry *)

Lemma changes_only_refl (elems : list PyVal) (h : Heap) : changes_only elems h h.
Proof. split; [|split]; auto. Qed.

Lemma changes_only_cons (v : PyVal) (elems : list PyVal) (h h' : Heap) :
  changes_only elems h h' -> changes_only (v :: elems) h h'.
Proof.
  intros (H1 & H2 & H3). split; [|split]; [|exact H2|exact H3].
  intros j Hj. apply H1. intros Hin. apply Hj. now right.
Qed.

Lemma is_named_color_same (h h' : Heap) (v : PyVal) (item : pystr * pystr) :
  (forall j, v = PRef j -> nth_error h' j = nth_error h j) ->
  is_named_color h v item -> is_named_color h' v item.
Proof.
  intros Hsame (i & e & -> & Hi & Hn & Hc). exists i, e.
  rewrite (Hsame i eq_refl). auto.
Qed.

Lemma named_colors_same (h h' : Heap) (elems : list PyVal)
  (items : list (pystr * pystr)) :
  (forall j, In (PRef j) elems -> nth_error h' j = nth_error h j) ->
  Forall2 (is_named_color h) elems items -> Forall2 (is_named_color h') elems items.
Proof.
  intros Hsame Hall. induction Hall as [|v it elems items Hv _ IH]; constructor.
  - apply is_named_color_same with h; [|exact Hv].
    intros j ->. apply Hsame. now left.
  - apply IH. intros j Hj. apply Hsame. now right.
Qed.

Lemma rename_first_spec (h : Heap) (elems : list PyVal)
  (items : list (pystr * pystr)) (old_name new_name color : pystr) :
  NoDup elems -> Forall2 (is_named_color h) elems items ->
  exists h',
    rename_first elems old_name new_name color h = (Some tt, h') /\
    changes_only elems h h' /\
    Forall2 (is_named_color h') elems (renamed items old_name new_name color).
Proof.
  intros Hnd Hall. revert Hnd.
  induction Hall as [|v item elems items Hv Hall IH]; intros Hnd.
  - exists h. split; [reflexivity|]. split; [apply changes_only_refl|constructor].
  - inversion Hnd as [|? ? Hnotin Hnd']; subst.
    destruct (getitem_named h v item Hv) as [Hn _].
    cbn [rename_first renamed]. rewrite (bind_eval _ _ h h _ Hn). cbn [py_eq_str].
    destruct (pystr_eqb (fst item) old_name) eqn:E.
    + destruct Hv as (i & e & -> & Hi & Hin & Hic).
      assert (Hilen : (i < List.length h)%nat) by (apply nth_error_Some; congruence).
      set (e1 := entries_set e "name" (PStr new_name)).
      set (h1 := replace_nth i (PyDict e1) h).
      set (e2 := entries_set e1 "color" (PStr color)).
      set (h2 := replace_nth i (PyDict e2) h1).
      assert (Hi1 : nth_error h1 i = Some (PyDict e1))
        by (unfold h1; now apply nth_error_replace_same).
      assert (Hother : forall j, j <> i -> nth_error h2 j = nth_error h j).
      { intros j Hj. unfold h2, h1. now rewrite !nth_error_replace_other by exact Hj. }
      exists h2. split; [|split].
      * unfold py_setitem_val, py_setitem, bind, deref, store.
        rewrite Hi. fold e1. fold h1. rewrite Hi1. reflexivity.
      * split; [|split].
        -- intros j Hj. apply Hother. intros ->. apply Hj. now left.
        -- intros j es Hj. rewrite Hother; [exact Hj|]. intros ->. congruence.
        -- intros j key v Hkn Hkc (e' & Hj & Hk).
           destruct (Nat.eq_dec j i) as [->|Hji].
           ++ exists e2. split.
              ** unfold h2. apply nth_error_replace_same.
                 unfold h1. now rewrite replace_nth_length.
              ** unfold e2, e1. rewrite !entries_get_set_other by assumption.
                 congruence.
           ++ exists e'. split; [|exact Hk]. now rewrite Hother.
      * constructor.
        -- exists i, e2. split; [reflexivity|]. split; [|split].
           ++ unfold h2. apply nth_error_replace_same.
              unfold h1. now rewrite replace_nth_length.
           ++ unfold e2, e1. rewrite entries_get_set_other by discriminate.
              apply entries_get_set_same.
           ++ apply entries_get_set_same.
        -- apply named_colors_same with h; [|exact Hall].
           intros j Hj. apply Hother. intros ->. now apply Hnotin.
    + destruct (IH Hnd') as (h' & Hrun & Hch & Hall').
      exists h'. split; [exact Hrun|]. split; [now apply changes_only_cons|].
      constructor; [|exact Hall'].
      apply is_named_color_same with h; [|exact Hv].
      intros j ->. destruct Hch as (Hsame & _). now apply Hsame.
Qed.

Lemma holds_distinct_holds (h : Heap) (l : nat) (items : list (pystr * pystr)) :
  holds_distinct_named_colors h l items -> holds_named_colors h l items.
Proof. intros (elems & Hl & _ & Hall). now exists elems. Qed.

Lemma update_named_spec (h : Heap) (d l : nat) (key : string)
  (items : list (pystr * pystr)) (old_name new_name color : pystr) :
  key <> "name"%string -> key <> "color"%string ->
  dict_has h d key (PRef l) -> holds_distinct_named_colors h l items ->
  exists h',
    update_named d key old_name new_name color h = (Some tt, h') /\
    dict_has h' d key (PRef l) /\
    holds_distinct_named_colors h' l (renamed items old_name new_name color).
Proof.
  intros Hkn Hkc Hd (elems & Hl & Hnd & Hall).
  destruct (rename_first_spec h elems items old_name new_name color Hnd Hall)
    as (h1 & Hrun & (_ & Hlists & Hdicts) & Hall1).
  destruct (Hdicts d key (PRef l) Hkn Hkc Hd) as (e1 & Hd1 & Hk1).
  set (h2 := replace_nth d (PyDict (entries_set e1 key (PRef l))) h1).
  assert (Hdl : d <> l).
  { apply dict_list_distinct with h1 e1 elems; [exact Hd1|now apply Hlists]. }
  exists h2. split; [|split].
  - unfold update_named.
    rewrite (bind_eval _ _ h h _ (get_list_spec h d key _ Hd)),
      (bind_eval _ _ h h _ (iter_list_spec h l elems Hl)),
      (bind_eval _ _ h h1 _ Hrun).
    unfold py_setitem, bind, deref, store. now rewrite Hd1.
  - exists (entries_set e1 key (PRef l)). split.
    + unfold h2. apply nth_error_replace_same. apply nth_error_Some. congruence.
    + apply entries_get_set_same.
  - exists elems. split; [|split; [exact Hnd|]].
    + unfold h2. rewrite nth_error_replace_other by congruence. now apply Hlists.
    + apply named_colors_keep with h1; [|exact Hall1].
      unfold h2. now apply keeps_names_setitem.
Qed.

Lemma renamed_absent (items : list (pystr * pystr)) (old_name new_name color : pystr) :
  ~ In old_name (List.map fst items) -> renamed items old_name new_name color = items.
Proof.
  induction items as [|it t IH]; intros Habs; [reflexivity|]. cbn [renamed].
  destruct (pystr_eqb (fst it) old_name) eqn:E.
  - apply pystr_eqb_eq in E. exfalso. apply Habs. now left.
  - f_equal. apply IH. intros Hin. apply Habs. now right.
Qed.

(** X23. [update_threat_level] and [update_status_type] never raise.  They
    give the first entry named [old_name] the new name and colour, in the
    stored list itself, and leave every other entry, later entries named
    [old_name] included, as it is; the new name is not checked against the
    names already listed.  When no entry is named [old_name] the names stay
    as they are. *)
Theorem update_renames_first_match_only (h : Heap) (settings l : nat)
  (key : string) (items : list (pystr * pystr)) (old_name new_name color : pystr) :
  key = "threat_levels"%string \/ key = "status_types"%string ->
  dict_has h settings key (PRef l) -> holds_distinct_named_colors h l items ->
  exists h',
    update_named settings key old_name new_name color h = (Some tt, h') /\
    holds_distinct_named_colors h' l (renamed items old_name new_name color) /\
    get_names settings key h' =
      (Some (List.map (fun it => PStr (fst it))
               (renamed items old_name new_name color)), h') /\
    (~ In old_name (List.map fst items) ->
       get_names settings key h' = (Some (List.map (fun it => PStr (fst it)) items), h')).
Proof.
  intros Hkey Hd Hl. destruct (list_key_ok key Hkey) as [Hkn Hkc].
  destruct (update_named_spec h settings l key items old_name new_name color
              Hkn Hkc Hd Hl) as (h' & Hrun & Hd' & Hl').
  exists h'. split; [exact Hrun|]. split; [exact Hl'|].
  assert (Hnames : get_names settings key h' =
            (Some (List.map (fun it => PStr (fst it))
                     (renamed items old_name new_name color)), h')).
  { apply get_names_spec with l; [exact Hd'|now apply holds_distinct_holds]. }
  split; [exact Hnames|].
  intros Habs. rewrite Hnames. now rewrite renamed_absent.
Qed.

Lemma holds_distinct_alloc (h : Heap) (o : PyObj) (l : nat)
  (items : list (pystr * pystr)) :
  holds_distinct_named_colors h l items ->
  holds_distinct_named_colors (h ++ [o]) l items.
Proof.
  intros (elems & Hl & Hnd & Hall). exists elems. split; [|split; [exact Hnd|]].
  - rewrite nth_error_alloc_old; [exact Hl|]. apply nth_error_Some. congruence.
  - apply named_colors_keep with h; [apply keeps_names_alloc|exact Hall].
Qed.

(** X24. Editing a threat level or status type in the dialog (non-empty
    text, a colour picked) changes the entry the manager shares with the
    dialog: the manager lists the upper-cased and stripped text in place of
    the first entry with the old name at once, whether or not the dialog is
    saved afterwards. *)
Theorem dialog_edit_reaches_manager_without_save (upper : pystr -> pystr)
  (h : Heap) (settings l : nat) (key : string) (items : list (pystr * pystr))
  (old_name text color : pystr) :
  key = "threat_levels"%string \/ key = "status_types"%string ->
  dict_has h settings key (PRef l) -> holds_distinct_named_colors h l items ->
  text <> [] ->
  fst ((temp <- dialog_init settings ;;
        outcome <- dialog_edit_named upper temp key old_name text true (Some color) ;;
        names <- get_names settings key ;;
        ret (outcome, names)) h) =
  Some (Changed,
        List.map (fun it => PStr (fst it))
          (renamed items old_name (strip (upper text)) color)).
Proof.
  intros Hkey Hd Hl Ht. destruct (list_key_ok key Hkey) as [Hkn Hkc].
  assert (Hne : pystr_eqb text [] = false).
  { destruct (pystr_eqb text []) eqn:E; [|reflexivity].
    apply pystr_eqb_eq in E. congruence. }
  destruct (py_copy_shares h settings l key items Hd (holds_distinct_holds h l items Hl))
    as (h1 & Hcopy & Ht1 & Hd1 & _ & _).
  assert (Hl1 : holds_distinct_named_colors h1 l items).
  { destruct Hd as (e & Hd & _).
    rewrite (py_copy_spec h settings e Hd) in Hcopy. injection Hcopy as <-.
    now apply holds_distinct_alloc. }
  destruct Hl1 as (elems & Hl1 & Hnd & Hall).
  destruct (rename_first_spec h1 elems items old_name (strip (upper text)) color
              Hnd Hall) as (h2 & Hrun & (_ & Hlists & Hdicts) & Hall2).
  assert (Hdialog : dialog_edit_named upper (List.length h) key old_name text true
                      (Some color) h1 = (Some Changed, h2)).
  { unfold dialog_edit_named. rewrite Hne. cbn [andb negb].
    rewrite (bind_eval _ _ h1 h1 _ (get_list_spec h1 _ key _ Ht1)),
      (bind_eval _ _ h1 h1 _ (iter_list_spec h1 l elems Hl1)),
      (bind_eval _ _ h1 h2 _ Hrun). reflexivity. }
  assert (Hnames : get_names settings key h2 =
            (Some (List.map (fun it => PStr (fst it))
                     (renamed items old_name (strip (upper text)) color)), h2)).
  { apply get_names_spec with l.
    - now apply Hdicts.
    - exists elems. split; [now apply Hlists|exact Hall2]. }
  unfold dialog_init.
  rewrite (bind_eval _ _ h h1 _ Hcopy), (bind_eval _ _ h1 h2 _ Hdialog),
    (bind_eval _ _ h2 h2 _ Hnames).
  reflexivity.
Qed.

(** ** The status badge of the profile card *)

(** X25. For a profile whose status is neither ["SCANNING"] nor
    ["UNIDENTIFIED"], and status types whose colours are non-empty strings,
    the badge colour of the profile card is [_hex_to_rgba] of the colour of
    the first status type with that name, and of ["#808080"] when there is
    none.  The threat level of the profile and the stored threat levels play
    no part: the fallback to the threat level colour and the fixed
    ["rgba(120, 144, 156, 255)"] are never reached. *)
Theorem badge_color_ignores_threat_level (int16 : pystr -> option Z) (h : Heap)
  (settings l : nat) (items : list (pystr * pystr)) (status threat_level : pystr) :
  dict_has h settings "status_types" (PRef l) -> holds_named_colors h l items ->
  Forall (fun it => snd it <> []) items ->
  status <> str "SCANNING" -> status <> str "UNIDENTIFIED" ->
  badge_color int16 settings status threat_level h =
    hex_to_rgba int16
      (PStr (match first_named items status with
             | Some it => snd it
             | None => str "#808080"
             end)) h.
Proof.
  intros Hd Hl Hcolors Hs Hu. unfold badge_color.
  replace (pystr_eqb status (str "SCANNING")) with false.
  2:{ destruct (pystr_eqb status (str "SCANNING")) eqn:E; [|reflexivity].
      apply pystr_eqb_eq in E. congruence. }
  replace (pystr_eqb status (str "UNIDENTIFIED")) with false.
  2:{ destruct (pystr_eqb status (str "UNIDENTIFIED")) eqn:E; [|reflexivity].
      apply pystr_eqb_eq in E. congruence. }
  unfold get_status_color.
  rewrite (bind_eval _ _ h h _ (get_color_spec h settings l _ items status Hd Hl)).
  assert (Hne : (match first_named items status with
                 | Some it => snd it
                 | None => str "#808080"
                 end) <> []).
  { destruct (first_named items status) as [it|] eqn:E; [|discriminate].
    unfold first_named in E. apply find_some in E. destruct E as [Hin _].
    rewrite Forall_forall in Hcolors. now apply Hcolors. }
  unfold bind, truthy, ret.
  destruct (pystr_eqb _ []) eqn:E; [|reflexivity].
  apply pystr_eqb_eq in E. congruence.
Qed.

(** * Evaluation on concrete inputs *)

(** ** Deciding comparisons and truncations of given numbers *)

Lemma Rgt_dec_true {A : Type} (a b : R) (x y : A) :
  a > b -> (if Rgt_dec a b then x else y) = x.
Proof. intros H. destruct (Rgt_dec a b); [reflexivity|contradiction]. Qed.

Lemma Rgt_dec_false {A : Type} (a b : R) (x y : A) :
  ~ a > b -> (if Rgt_dec a b then x else y) = y.
Proof. intros H. destruct (Rgt_dec a b); [contradiction|reflexivity]. Qed.

Lemma Rlt_dec_true {A : Type} (a b : R) (x y : A) :
  a < b -> (if Rlt_dec a b then x else y) = x.
Proof. intros H. destruct (Rlt_dec a b); [reflexivity|contradiction]. Qed.

Lemma Rlt_dec_false {A : Type} (a b : R) (x y : A) :
  ~ a < b -> (if Rlt_dec a b then x else y) = y.
Proof. intros H. destruct (Rlt_dec a b); [contradiction|reflexivity]. Qed.

Lemma Int_part_IZR (z : Z) : Int_part (IZR z) = z.
Proof. symmetry. apply Int_part_spec. lra. Qed.

Lemma truncate_IZR (z : Z) : truncate (IZR z) = z.
Proof.
  unfold truncate.
  destruct (Rle_dec 0 (IZR z)); [apply Int_part_IZR|].
  rewrite <- opp_IZR, Int_part_IZR. lia.
Qed.

Lemma astype_int_exact (r : R) (z : Z) :
  r = IZR z -> (INT64_MIN <= z <= INT64_MAX)%Z -> astype_int r = z.
Proof.
  intros -> [Hlo Hhi]. unfold astype_int. rewrite truncate_IZR.
  apply Z.leb_le in Hlo. apply Z.leb_le in Hhi. now rewrite Hlo, Hhi.
Qed.

Ltac in_int64 := unfold INT64_MIN, INT64_MAX; lia.

(** ** Live matching on a frame with two faces *)

Lemma live_box_1 :
  live_box (mkDetection 0.9 0.1 0.1 0.5 0.5) (halve (flip frame100)) (flip frame100)
  = (10, 10, 50, 50)%Z.
Proof.
  unfold live_box, scale_box, box_astype_int.
  cbn [confidence rel_x1 rel_y1 rel_x2 rel_y2 halve flip frame100 blank height width].
  change (100 / 2)%Z with 50%Z.
  rewrite (astype_int_exact (0.1 * IZR 50) 5) by (lra || in_int64).
  rewrite (astype_int_exact (0.5 * IZR 50) 25) by (lra || in_int64).
  reflexivity.
Qed.

Lemma live_box_2 :
  live_box (mkDetection 0.8 0.5 0.5 0.7 0.9) (halve (flip frame100)) (flip frame100)
  = (50, 50, 70, 90)%Z.
Proof.
  unfold live_box, scale_box, box_astype_int.
  cbn [confidence rel_x1 rel_y1 rel_x2 rel_y2 halve flip frame100 blank height width].
  change (100 / 2)%Z with 50%Z.
  rewrite (astype_int_exact (0.5 * IZR 50) 25) by (lra || in_int64).
  rewrite (astype_int_exact (0.7 * IZR 50) 35) by (lra || in_int64).
  rewrite (astype_int_exact (0.9 * IZR 50) 45) by (lra || in_int64).
  reflexivity.
Qed.

Lemma resolve_alice : resolve_name two_people (vec1 40) = alice.
Proof.
  destruct (match_known_identical 1 two_people (vec1 40) 0 eq_refl eq_refl)
    as (j & label & Hj & _ & Hl & _ & Hm).
  unfold resolve_name. rewrite Hm. cbn [matched_name].
  assert (j = 0%nat) by lia. subst j. simpl in Hl. congruence.
Qed.

Lemma resolve_bob : resolve_name two_people (vec1 20) = bob.
Proof.
  destruct (match_known_identical 1 two_people (vec1 20) 1 eq_refl eq_refl)
    as (j & label & Hj & Hq & Hl & _ & Hm).
  unfold resolve_name. rewrite Hm. cbn [matched_name].
  destruct j as [|[|j]]; [|simpl in Hl; congruence|lia].
  simpl in Hq. injection Hq as Hq. lra.
Qed.

Lemma live_two_faces_names : face_names (snd live_two_faces) = [alice; bob].
Proof.
  unfold live_two_faces, update_frame, initial_window.
  cbn [process_this_frame registry frame_count].
  rewrite detect_faces_kept.
  destruct (update_profile _ _ _ _) as [shown current].
  cbn [snd face_names]. unfold two_faces, kept_detections. cbn [filter confidence].
  rewrite !Rgt_dec_true by lra. cbn [List.map].
  rewrite live_box_1, live_box_2. unfold live_name, width_recognizer.
  cbn. rewrite resolve_alice, resolve_bob. reflexivity.
Qed.


(** C4 as stated fails: with two kept detections the second one is embedded
    and matched as well, and gets the identity [bob]. *)
Lemma second_detection_is_resolved :
  kept_detections (two_faces (halve (flip frame100))) =
    [mkDetection 0.9 0.1 0.1 0.5 0.5; mkDetection 0.8 0.5 0.5 0.7 0.9] /\
  face_names (snd live_two_faces) = [alice; bob] /\
  nth_error (known_face_names two_people) 1 = Some bob /\
  bob <> Unknown.
Proof.
  split; [|split; [exact live_two_faces_names|split; [reflexivity|discriminate]]].
  unfold two_faces, kept_detections. cbn [filter confidence].
  rewrite !Rgt_dec_true by lra. reflexivity.
Qed.

(** C4 (amended), on the same frame. *)
Lemma every_kept_detection_resolved_witness :
  process_this_frame (initial_window two_people) = true /\
  face_locations (snd live_two_faces) = [(10, 10, 50, 50); (50, 50, 70, 90)]%Z /\
  face_names (snd live_two_faces) = [alice; bob].
Proof.
  assert (Hp : process_this_frame (initial_window two_people) = true)
    by reflexivity.
  destruct (every_kept_detection_resolved_first_drives_profile
    1 two_faces width_recognizer profile_of halve
    (initial_window two_people) frame100 Hp) as (Hloc & Hnames & _).
  assert (Hkept : kept_detections (two_faces (halve (flip frame100))) =
            [mkDetection 0.9 0.1 0.1 0.5 0.5; mkDetection 0.8 0.5 0.5 0.7 0.9]).
  { unfold two_faces, kept_detections. cbn [filter confidence].
    rewrite !Rgt_dec_true by lra. reflexivity. }
  split; [exact Hp|]. unfold live_two_faces. split.
  - etransitivity; [exact Hloc|]. rewrite Hkept. cbn [List.map].
    rewrite live_box_1, live_box_2. reflexivity.
  - etransitivity; [exact Hnames|]. rewrite Hkept. cbn [List.map].
    rewrite live_box_1, live_box_2. unfold live_name, width_recognizer.
    cbn. rewrite resolve_alice, resolve_bob. reflexivity.
Defined.

Ltac decide_comparisons :=
  repeat first [ rewrite Rgt_dec_true by lra | rewrite Rgt_dec_false by lra
               | rewrite Rlt_dec_true by lra | rewrite Rlt_dec_false by lra ].

Lemma load_frame100 (reg : Registry 1) :
  load_image by_height width_recognizer alice frame100 reg =
  Completed (append_face reg (vec1 40) alice).
Proof.
  unfold load_image, by_height, frame100, blank.
  cbn [height width Z.eqb Pos.eqb select_best confidence].
  decide_comparisons. cbn [fst]. unfold scale_box, box_astype_int.
  cbn [rel_x1 rel_y1 rel_x2 rel_y2].
  rewrite (astype_int_exact (0.2 * IZR 100) 20) by (lra || in_int64).
  rewrite (astype_int_exact (0.6 * IZR 100) 60) by (lra || in_int64).
  reflexivity.
Qed.

Lemma load_offside (reg : Registry 1) :
  load_image by_height width_recognizer alice offside reg = Completed reg.
Proof.
  unfold load_image, by_height, offside, blank.
  cbn [height width Z.eqb Pos.eqb select_best confidence].
  decide_comparisons. cbn [fst]. unfold scale_box, box_astype_int.
  cbn [rel_x1 rel_y1 rel_x2 rel_y2].
  rewrite (astype_int_exact (1.2 * IZR 100) 120) by (lra || in_int64).
  rewrite (astype_int_exact (0.2 * IZR 80) 16) by (lra || in_int64).
  rewrite (astype_int_exact (1.5 * IZR 100) 150) by (lra || in_int64).
  rewrite (astype_int_exact (0.8 * IZR 80) 64) by (lra || in_int64).
  reflexivity.
Qed.

Lemma astype_int_out_of_range (r : R) (z : Z) :
  r = IZR z -> (z < INT64_MIN \/ INT64_MAX < z)%Z -> astype_int r = INT64_MIN.
Proof.
  intros -> Hz. unfold astype_int. rewrite truncate_IZR.
  destruct (INT64_MIN <=? z)%Z eqn:Hlo; [|reflexivity].
  destruct (z <=? INT64_MAX)%Z eqn:Hhi; [|reflexivity].
  apply Z.leb_le in Hlo. apply Z.leb_le in Hhi. lia.
Qed.

(** The right edge [10 ^ 22] converts to [INT64_MIN]: the slice
    [0:INT64_MIN] of the columns is empty and nothing is appended. *)
Lemma load_far_right (reg : Registry 1) :
  load_image far_right width_recognizer alice frame100 reg = Completed reg.
Proof.
  unfold load_image, far_right, frame100, blank.
  cbn [height width select_best confidence].
  decide_comparisons. cbn [fst]. unfold scale_box, box_astype_int.
  cbn [rel_x1 rel_y1 rel_x2 rel_y2].
  rewrite (astype_int_exact (0 * IZR 100) 0) by (lra || in_int64).
  rewrite (astype_int_out_of_range (IZR (10 ^ 20) * IZR 100) (10 ^ 22))
    by (first [ rewrite <- mult_IZR; reflexivity | right; in_int64 ]).
  rewrite (astype_int_exact (1 * IZR 100) 100) by (lra || in_int64).
  reflexivity.
Qed.

Lemma load_alice_dataset :
  load_known_faces by_height width_recognizer alice_dataset =
  Completed {| known_face_encodings := [vec1 40]; known_face_names := [alice] |}.
Proof.
  unfold load_known_faces, alice_dataset.
  cbn [for_each load_person fst snd].
  unfold load_image_file at 1. cbn [fst snd].
  replace (endswith_any (str "alice_1.jpg") image_suffixes) with true
    by (vm_compute; reflexivity).
  rewrite load_frame100.
  unfold load_image_file at 1. cbn [fst snd].
  replace (endswith_any (str "alice_2.jpg") image_suffixes) with true
    by (vm_compute; reflexivity).
  rewrite load_offside.
  unfold load_image_file at 1. cbn [fst snd].
  replace (endswith_any (str "notes.txt") image_suffixes) with false
    by (vm_compute; reflexivity).
  reflexivity.
Qed.

(** C8 as stated fails: [offside] has a detection above 0.5 and the recognizer
    never raises, yet the build appends nothing for it, the clipped crop being
    empty. *)
Lemma qualifying_detection_with_empty_crop_not_appended :
  (exists d, In d (by_height offside) /\ confidence d > 0.5) /\
  (forall img, width_recognizer img <> None) /\
  load_image by_height width_recognizer alice offside (empty_registry 1) =
    Completed (empty_registry 1).
Proof.
  split; [|split; [discriminate|apply load_offside]].
  exists (mkDetection 0.9 1.2 0.2 1.5 0.8). split; [left; reflexivity|].
  cbn [confidence]. lra.
Qed.

(** C8 (amended), on the image with three detections: the second is kept,
    and the width of its crop is stored under the label. *)
Lemma build_keeps_first_best_detection_witness :
  (exists d, In d (by_height frame100) /\ confidence d > 0.5) /\
  load_image by_height width_recognizer alice frame100 (empty_registry 1) =
    Completed {| known_face_encodings := [vec1 40]; known_face_names := [alice] |}.
Proof.
  assert (Hq : exists d, In d (by_height frame100) /\ confidence d > 0.5).
  { exists (mkDetection 0.6 0.1 0.1 0.5 0.5). split; [left; reflexivity|].
    cbn [confidence]. lra. }
  split; [exact Hq|].
  destruct (proj1 (proj2 (build_keeps_first_best_detection_with_nonempty_crop
    1 by_height width_recognizer alice frame100 (empty_registry 1))) Hq)
    as (i & d & Hi & Hd & Hle & Hlt & Happend & _).
  assert (Hlist : by_height frame100 =
            [mkDetection 0.6 0.1 0.1 0.5 0.5; mkDetection 0.9 0.2 0.2 0.6 0.6;
             mkDetection 0.9 0 0 1 1]) by reflexivity.
  rewrite Hlist in Hi, Hle, Hlt.
  assert (Hsecond : d = mkDetection 0.9 0.2 0.2 0.6 0.6).
  { destruct i as [|[|[|i]]]; cbn [nth_error] in Hi.
    - injection Hi as <-. specialize (Hle 1%nat _ eq_refl). cbn [confidence] in Hle. lra.
    - now injection Hi.
    - injection Hi as <-.
      assert (H12 : (1 < 2)%nat) by lia.
      specialize (Hlt 1%nat _ H12 eq_refl). cbn [confidence] in Hlt. lra.
    - destruct i; discriminate. }
  subst d.
  assert (Hbox : box_astype_int (scale_box (mkDetection 0.9 0.2 0.2 0.6 0.6)
                                           (width frame100) (height frame100)) =
                 (20, 20, 60, 60)%Z).
  { unfold scale_box, box_astype_int, frame100, blank.
    cbn [rel_x1 rel_y1 rel_x2 rel_y2 width height].
    rewrite (astype_int_exact (0.2 * IZR 100) 20) by (lra || in_int64).
    rewrite (astype_int_exact (0.6 * IZR 100) 60) by (lra || in_int64).
    reflexivity. }
  rewrite Hbox in Happend.
  apply (Happend ltac:(vm_compute; reflexivity) (vec1 40)).
  reflexivity.
Defined.

(** C10, on the registry built from [alice_dataset]. *)
Lemma build_keeps_lists_aligned_witness :
  known_face_encodings
    (state_of (load_known_faces by_height width_recognizer alice_dataset)) <> [] /\
  exists idx label,
    argmin (distances_to
              (known_face_encodings
                 (state_of (load_known_faces by_height width_recognizer alice_dataset)))
              (vec1 20)) = Some idx /\
    nth_error
      (known_face_names
         (state_of (load_known_faces by_height width_recognizer alice_dataset)))
      idx = Some label.
Proof.
  assert (Hne : known_face_encodings
    (state_of (load_known_faces by_height width_recognizer alice_dataset)) <> []).
  { rewrite load_alice_dataset. discriminate. }
  split; [exact Hne|].
  destruct (proj2 (build_keeps_lists_aligned 1 by_height width_recognizer
                     alice_dataset (vec1 20)) Hne)
    as (idx & label & Harg & _ & Hl).
  exists idx, label. split; [exact Harg|exact Hl].
Defined.

(** ** Enrollment on concrete sessions *)

Lemma scanner59_due : capture_due one_face scanner59 frame100.
Proof.
  unfold capture_due. split; [reflexivity|]. split; [|split; [reflexivity|]].
  - unfold scanner_face_detected, one_face. cbn [existsb confidence].
    rewrite Rgt_dec_true by lra. reflexivity.
  - cbn. lia.
Qed.

(** C6 as stated fails: all four conditions hold on this tick, but the read
    made by [capture_image] fails and no frame is appended. *)
Lemma due_capture_with_failed_read_appends_nothing :
  auto_capture scanner59 = true /\
  scanner_face_detected one_face (flip frame100) = true /\
  ((scanner_frame_count scanner59 + 1) mod 60 = 0)%Z /\
  (List.length (captured_images scanner59) < 10)%nat /\
  captured_images
    (scanner_update_frame one_face scanner59
       {| frame_read := Some frame100; capture_read := None |}) =
  captured_images scanner59.
Proof.
  destruct scanner59_due as (A & B & C & D).
  split; [exact A|]. split; [exact B|]. split; [exact C|]. split; [exact D|].
  rewrite scanner_update_frame_captured.
  destruct (auto_capture_due _ _ _); reflexivity.
Qed.

(** C6 (amended), on the same tick with a capture read that succeeds. *)
Lemma auto_capture_appends_witness :
  capture_due one_face scanner59 frame100 /\
  captured_images
    (scanner_update_frame one_face scanner59
       {| frame_read := Some frame100; capture_read := Some offside |}) =
  [flip offside].
Proof.
  split; [exact scanner59_due|].
  exact (proj1 (auto_capture_appends_when_due_and_read_ok
                  one_face scanner59 frame100 (Some offside))
               offside scanner59_due eq_refl).
Defined.

(** X26, on a session with five frames and a name of two spaces. *)
Lemma save_profile_rejects_witness :
  strip (field_name (form_fields blank_session)) = [] /\
  save_profile posix_join (str "2024-01-01 12:00:00") blank_session =
    (blank_session, [MessageWarning (str "Error") (str "Please enter a name")]) /\
  perform_all
    (snd (save_profile posix_join (str "2024-01-01 12:00:00") blank_session))
    fresh_disk = Completed fresh_disk.
Proof.
  assert (Hblank : strip (field_name (form_fields blank_session)) = [])
    by reflexivity.
  destruct (save_profile_rejects_without_writing
              posix_join (str "2024-01-01 12:00:00") blank_session fresh_disk
              (or_introl Hblank)) as (Hs & _ & Hdisk).
  split; [exact Hblank|]. split; [exact Hs|exact Hdisk].
Defined.

(** ** The settings store and the matcher *)

Lemma norm_sub_vec1 (a b : R) : norm (sub (vec1 a) (vec1 b)) = Rabs (a - b).
Proof.
  unfold norm, sub, vec1. cbn.
  replace ((a - b) * (a - b) + 0) with (Rsqr (a - b)) by (unfold Rsqr; lra).
  apply sqrt_Rsqr_abs.
Qed.

Lemma norm_40_405 : norm (sub (vec1 40) (vec1 40.5)) = 0.5.
Proof.
  rewrite norm_sub_vec1. unfold Rabs. destruct (Rcase_abs (40 - 40.5)); lra.
Qed.

(** C3 (what the code does). The defaults of the three keys are 0.8, 0.5 and
    2.  With a settings store that holds 0.1, 0.95 and 1 instead, the matcher
    still accepts a face at distance 0.5, the live loop still keeps a
    detection of confidence 0.9, and the tick after a processed frame is
    still skipped: the decisions are those of the constants 0.8, 0.5 and of
    the alternating flag. *)
Theorem recognition_settings_not_consulted :
  settings_get DEFAULT_SETTINGS "recognition_threshold" None = Some (VFloat 0.8) /\
  settings_get DEFAULT_SETTINGS "confidence_threshold" None = Some (VFloat 0.5) /\
  settings_get DEFAULT_SETTINGS "process_every_n_frames" None = Some (VInt 2) /\
  settings_get strict_settings "recognition_threshold" None = Some (VFloat 0.1) /\
  settings_get strict_settings "confidence_threshold" None = Some (VFloat 0.95) /\
  settings_get strict_settings "process_every_n_frames" None = Some (VInt 1) /\
  match_known one_person (vec1 40.5) =
    Some {| matched_name := alice; computed_distances := Some [0.5] |} /\
  ~ 0.5 < 0.1 /\
  kept_detections (one_face frame100) = one_face frame100 /\
  ~ 0.9 > 0.95 /\
  process_this_frame
    (fst (update_frame one_face width_recognizer profile_of halve
            (initial_window one_person) (Some frame100))) = false.
Proof.
  repeat split; try reflexivity; try lra.
  - unfold match_known, one_person, distances_to.
    cbn [known_face_encodings known_face_names List.length Nat.ltb Nat.leb
         List.map argmin argmin_from nth_error].
    rewrite norm_40_405. rewrite Rlt_dec_true by lra. reflexivity.
  - unfold kept_detections, one_face. cbn [filter confidence].
    rewrite Rgt_dec_true by lra. reflexivity.
  - unfold update_frame, initial_window. cbn [process_this_frame].
    destruct (detect_faces _ _ _ _ _) as [locations names].
    destruct (update_profile _ _ _ _) as [shown current]. reflexivity.
Qed.

(** ** Further evaluations: matching and registry build *)

(** X2, appending the vector [100] to the registry of two people, for the
    query [40]. *)
Lemma appended_vectors_witness :
  known_face_encodings two_people <> [] /\
  (forall e, In e [vec1 100] ->
     exists u, In u (known_face_encodings two_people) /\
               norm (sub u (vec1 40)) <= norm (sub e (vec1 40))) /\
  resolve_name
    {| known_face_encodings := known_face_encodings two_people ++ [vec1 100];
       known_face_names := known_face_names two_people ++ [str "carol"] |}
    (vec1 40) = alice.
Proof.
  assert (Hne : known_face_encodings two_people <> []) by discriminate.
  assert (Hfar : forall e, In e [vec1 100] ->
     exists u, In u (known_face_encodings two_people) /\
               norm (sub u (vec1 40)) <= norm (sub e (vec1 40))).
  { intros e _. exists (vec1 40). split; [left; reflexivity|].
    rewrite norm_sub_self. apply norm_nonneg. }
  split; [exact Hne|]. split; [exact Hfar|].
  rewrite (appended_vectors_not_closer_keep_match 1 two_people [vec1 100]
             [str "carol"] (vec1 40) Hne eq_refl Hfar).
  exact resolve_alice.
Defined.

(** X3, for the label of [alice_dataset]. *)
Lemma registry_labels_witness :
  In alice (known_face_names
              (state_of (load_known_faces by_height width_recognizer alice_dataset))) /\
  exists listing files file_name image d,
    alice_dataset = Listed listing /\
    In (alice, PersonDirectory files) listing /\
    In (file_name, Some image) files /\
    endswith_any file_name image_suffixes = true /\
    In d (by_height image) /\ confidence d > 0.5.
Proof.
  assert (Hin : In alice (known_face_names
    (state_of (load_known_faces by_height width_recognizer alice_dataset)))).
  { rewrite load_alice_dataset. left. reflexivity. }
  split; [exact Hin|].
  exact (registry_labels_are_person_directories 1 by_height width_recognizer
           alice_dataset alice Hin).
Defined.

(** X5, for the recognizer that returns the width of the crop. *)
Lemma build_completes_witness :
  listable alice_dataset /\
  load_known_faces by_height width_recognizer alice_dataset =
    Completed {| known_face_encodings := [vec1 40]; known_face_names := [alice] |}.
Proof.
  assert (Hlist : listable alice_dataset).
  { intros name [H|[H|[]]]; discriminate. }
  assert (Htotal : forall image, (size image > 0)%Z -> width_recognizer image <> None)
    by discriminate.
  split; [exact Hlist|].
  destruct (build_completes_when_recognizer_total 1 by_height width_recognizer
              alice_dataset Hlist Htotal) as [reg Hreg].
  rewrite Hreg. f_equal. rewrite load_alice_dataset in Hreg. now injection Hreg.
Defined.

(** An unreadable person directory, or a regular file named [dataset],
    stops the build, whatever the recognizer does. *)
Lemma build_stops_on_unlistable_directory :
  load_known_faces by_height width_recognizer Unlistable =
    Raised (empty_registry 1) /\
  load_known_faces by_height width_recognizer
    (Listed [(alice, UnreadableDirectory)]) = Raised (empty_registry 1).
Proof. split; reflexivity. Qed.

(** ** Further evaluations: enrollment *)

Lemma one_face_detected (frame : Image) : scanner_face_detected one_face frame = true.
Proof.
  unfold scanner_face_detected, one_face. cbn [existsb confidence].
  rewrite Rgt_dec_true by lra. reflexivity.
Qed.

Lemma both_reads_face_tick : face_tick one_face both_reads.
Proof.
  exists frame100, offside. split; [reflexivity|apply one_face_detected].
Qed.

(** X9, over 150 ticks: two frames are captured. *)
Lemma auto_capture_count_witness :
  auto_capture fresh_session = true /\
  scanner_frame_count fresh_session = 0%Z /\
  captured_images fresh_session = [] /\
  Forall (face_tick one_face) (repeat both_reads 150) /\
  Z.of_nat (List.length
              (captured_images
                 (scanner_run one_face fresh_session (repeat both_reads 150)))) = 2%Z.
Proof.
  assert (Hticks : Forall (face_tick one_face) (repeat both_reads 150)).
  { apply Forall_forall. intros t Ht. apply repeat_spec in Ht. subst t.
    exact both_reads_face_tick. }
  split; [reflexivity|]. split; [reflexivity|]. split; [reflexivity|].
  split; [exact Hticks|].
  rewrite (auto_capture_count_after_ticks one_face (repeat both_reads 150)
             fresh_session eq_refl eq_refl eq_refl Hticks).
  rewrite repeat_length. reflexivity.
Defined.

(** X10, for a session with auto-capture off. *)
Lemma no_auto_capture_witness :
  auto_capture four_frames_session = false /\
  captured_images
    (scanner_run one_face four_frames_session (repeat both_reads 120)) =
  captured_images four_frames_session.
Proof.
  split; [reflexivity|].
  exact (proj1 (no_auto_capture_without_flag_or_face one_face
                  (repeat both_reads 120) four_frames_session
                  (or_introl eq_refl))).
Defined.

(** X11, for a session with four captured frames. *)
Lemma save_profile_four_frames_witness :
  strip (field_name (form_fields four_frames_session)) <> [] /\
  (3 <= List.length (captured_images four_frames_session))%nat /\
  snd (save_profile posix_join (str "2024-01-01 12:00:00") four_frames_session) =
    [ MakeDirs (str "dataset");
      MakeDirs (str "dataset/Alice");
      ImWrite (str "dataset/Alice/Alice_1.jpg") frame100;
      ImWrite (str "dataset/Alice/Alice_2.jpg") offside;
      ImWrite (str "dataset/Alice/Alice_3.jpg") frame100;
      ImWrite (str "dataset/Alice/Alice_4.jpg") offside;
      JsonDump (str "dataset/Alice/profile.json")
        (make_profile_data (str "2024-01-01 12:00:00") (str "Alice") alice_form);
      MessageInformation (str "Success")
        (str "Profile for Alice saved successfully!" ++ [10%N]
         ++ str "4 images saved.") ].
Proof.
  assert (Hname : strip (field_name (form_fields four_frames_session)) <> [])
    by discriminate.
  assert (Hlen : (3 <= List.length (captured_images four_frames_session))%nat)
    by (simpl; lia).
  split; [exact Hname|]. split; [exact Hlen|].
  destruct (save_profile_hands_every_captured_frame_to_imwrite posix_join
              (str "2024-01-01 12:00:00") four_frames_session Hname Hlen)
    as (_ & _ & Hcalls & _).
  rewrite Hcalls. reflexivity.
Defined.

Lemma posix_join_alice_inj (a b : pystr) :
  posix_join (str "dataset/Alice") a = posix_join (str "dataset/Alice") b -> a = b.
Proof.
  unfold posix_join.
  assert (Hslash : forall x, startswith x (str "/") = true ->
                             exists t, x = 47%N :: t).
  { change (str "/") with [47%N].
    intros [|c t]; cbn [startswith]; [discriminate|]. intros H.
    apply andb_true_iff in H. destruct H as [H _]. apply N.eqb_eq in H.
    exists t. congruence. }
  change (endswith (str "dataset/Alice") (str "/")) with false.
  destruct (startswith a (str "/")) eqn:Ha, (startswith b (str "/")) eqn:Hb;
    cbn [str List.map list_ascii_of_string]; intros H.
  - exact H.
  - destruct (Hslash a Ha) as [t ->]. simpl in H. discriminate.
  - destruct (Hslash b Hb) as [t ->]. simpl in H. discriminate.
  - apply (app_inv_head (str "dataset/Alice" ++ str "/")).
    rewrite <- !app_assoc. exact H.
Qed.

(** X12, with [posixpath.join] under [dataset/Alice]. *)
Lemma saved_frames_distinct_witness :
  (forall a b,
     posix_join (posix_join (str "dataset")
                   (strip (field_name (form_fields four_frames_session)))) a =
     posix_join (posix_join (str "dataset")
                   (strip (field_name (form_fields four_frames_session)))) b ->
     a = b) /\
  NoDup (written_images
           (snd (save_profile posix_join (str "2024-01-01 12:00:00")
                              four_frames_session))).
Proof.
  assert (Hinj : forall a b,
     posix_join (posix_join (str "dataset")
                   (strip (field_name (form_fields four_frames_session)))) a =
     posix_join (posix_join (str "dataset")
                   (strip (field_name (form_fields four_frames_session)))) b ->
     a = b) by exact posix_join_alice_inj.
  split; [exact Hinj|].
  exact (saved_frames_never_overwrite_each_other posix_join
           (str "2024-01-01 12:00:00") four_frames_session Hinj).
Defined.

(** X13, for the same session. *)
Lemma save_profile_twice_witness :
  strip (field_name (form_fields four_frames_session)) <> [] /\
  (3 <= List.length (captured_images four_frames_session))%nat /\
  snd (save_profile posix_join (str "2024-01-01 12:00:00")
         (fst (save_profile posix_join (str "2024-01-01 12:00:00")
                 four_frames_session))) =
    [MessageWarning (str "Error") (str "Please enter a name")].
Proof.
  assert (Hname : strip (field_name (form_fields four_frames_session)) <> [])
    by discriminate.
  assert (Hlen : (3 <= List.length (captured_images four_frames_session))%nat)
    by (simpl; lia).
  split; [exact Hname|]. split; [exact Hlen|].
  rewrite (save_profile_twice_second_rejected posix_join
             (str "2024-01-01 12:00:00") four_frames_session Hname Hlen).
  reflexivity.
Defined.

(** ** The settings objects of [DEFAULT_SETTINGS] *)

Lemma default_heap_threat_levels :
  holds_distinct_named_colors default_heap 1 default_threat_levels.
Proof.
  exists [PRef 3; PRef 4; PRef 5; PRef 6]%nat. split; [reflexivity|]. split.
  - repeat (constructor; [simpl; intuition discriminate|]). constructor.
  - repeat (constructor; [eexists _, _; repeat split; reflexivity|]). constructor.
Qed.

Lemma default_heap_status_types :
  holds_distinct_named_colors default_heap 2 default_status_types.
Proof.
  exists [PRef 7; PRef 8; PRef 9; PRef 10; PRef 11; PRef 12]%nat.
  split; [reflexivity|]. split.
  - repeat (constructor; [simpl; intuition discriminate|]). constructor.
  - repeat (constructor; [eexists _, _; repeat split; reflexivity|]). constructor.
Qed.

Lemma default_heap_has_threat_levels :
  dict_has default_heap 0 "threat_levels" (PRef 1).
Proof. eexists. split; reflexivity. Qed.

Lemma default_heap_has_status_types :
  dict_has default_heap 0 "status_types" (PRef 2).
Proof. eexists. split; reflexivity. Qed.

Lemma severe_not_a_default_threat_level :
  ~ In (str "SEVERE") (List.map fst default_threat_levels).
Proof. simpl. intuition discriminate. Qed.

(** X16, on the default status types. *)
Lemma lookups_witness :
  get_status_types 0 default_heap =
    (Some [PStr (str "CIVILIAN"); PStr (str "VIP"); PStr (str "EMPLOYEE");
           PStr (str "VISITOR"); PStr (str "WANTED"); PStr (str "UNKNOWN")],
     default_heap) /\
  get_status_color 0 (str "VIP") default_heap = (Some (PStr (str "#FFD700")), default_heap) /\
  get_status_color 0 (str "GUEST") default_heap = (Some (PStr (str "#808080")), default_heap).
Proof.
  destruct (lookups_read_names_in_order_and_first_color default_heap 0 2
              "status_types" default_status_types default_heap_has_status_types
              (holds_distinct_holds _ _ _ default_heap_status_types))
    as [Hnames Hcolor].
  split; [exact Hnames|]. split; [exact (Hcolor (str "VIP"))|exact (Hcolor (str "GUEST"))].
Defined.

(** X17: ["SEVERE"] added to the default threat levels. *)
Lemma new_name_witness :
  exists h',
    add_threat_level 0 (str "SEVERE") (str "#FF00FF") default_heap = (Some true, h') /\
    get_threat_levels 0 h' =
      (Some [PStr (str "LOW"); PStr (str "MODERATE"); PStr (str "HIGH");
             PStr (str "CRITICAL"); PStr (str "SEVERE")], h') /\
    get_threat_level_color 0 (str "SEVERE") h' = (Some (PStr (str "#FF00FF")), h').
Proof.
  destruct (new_name_is_added_last_with_its_color default_heap 0 1 "threat_levels"
              default_threat_levels (str "SEVERE") (str "#FF00FF")
              (or_introl eq_refl) default_heap_has_threat_levels
              (holds_distinct_holds _ _ _ default_heap_threat_levels)
              severe_not_a_default_threat_level)
    as (h' & Hadd & Hnames & Hcolor & _).
  exists h'. split; [exact Hadd|]. split; [exact Hnames|exact Hcolor].
Defined.

(** X18: ["HIGH"] is a default threat level. *)
Lemma existing_name_witness :
  add_threat_level 0 (str "HIGH") (str "#FF00FF") default_heap = (Some false, default_heap).
Proof.
  apply (existing_name_is_not_added_again default_heap 0 1 "threat_levels"
           default_threat_levels (str "HIGH") (str "#FF00FF")
           default_heap_has_threat_levels
           (holds_distinct_holds _ _ _ default_heap_threat_levels)).
  simpl. auto.
Defined.

(** X19: ["VIP"] removed from the default status types. *)
Lemma removed_name_witness :
  exists h',
    remove_status_type 0 (str "VIP") default_heap = (Some tt, h') /\
    get_status_types 0 h' =
      (Some [PStr (str "CIVILIAN"); PStr (str "EMPLOYEE"); PStr (str "VISITOR");
             PStr (str "WANTED"); PStr (str "UNKNOWN")], h') /\
    get_status_color 0 (str "VIP") h' = (Some (PStr (str "#808080")), h') /\
    holds_named_colors h' 2 default_status_types.
Proof.
  exact (removed_name_is_gone_and_old_list_untouched default_heap 0 2 "status_types"
           default_status_types (str "VIP") (or_intror eq_refl)
           default_heap_has_status_types
           (holds_distinct_holds _ _ _ default_heap_status_types)).
Defined.

(** X20: ["SEVERE"] added, then a reset. *)
Lemma added_name_survives_reset_witness :
  fst ((settings <- copy_defaults 0 ;;
        added <- add_named settings "threat_levels" (str "SEVERE") (str "#FF00FF") ;;
        settings' <- copy_defaults 0 ;;
        names <- get_names settings' "threat_levels" ;;
        ret (added, names)) default_heap) =
  Some (true, [PStr (str "LOW"); PStr (str "MODERATE"); PStr (str "HIGH");
               PStr (str "CRITICAL"); PStr (str "SEVERE")]).
Proof.
  exact (added_name_survives_reset_to_defaults default_heap 0 1 "threat_levels"
           default_threat_levels (str "SEVERE") (str "#FF00FF")
           (or_introl eq_refl) default_heap_has_threat_levels
           (holds_distinct_holds _ _ _ default_heap_threat_levels)
           severe_not_a_default_threat_level).
Defined.

Lemma severe_typed_not_a_default_threat_level :
  ~ In (strip (ascii_upper (str " severe ")))
       (List.map fst default_threat_levels).
Proof. vm_compute. intuition discriminate. Qed.

(** X21: [" severe "] typed into the dialog. *)
Lemma dialog_addition_witness :
  fst ((temp <- dialog_init 0 ;;
        outcome <- dialog_add_named ascii_upper temp "threat_levels"
                     (str " severe ") true (Some (str "#ff00ff")) ;;
        names <- get_names 0 "threat_levels" ;;
        ret (outcome, names)) default_heap) =
  Some (Changed, [PStr (str "LOW"); PStr (str "MODERATE"); PStr (str "HIGH");
                  PStr (str "CRITICAL"); PStr (str "SEVERE")]).
Proof.
  assert (Htext : str " severe " <> []) by discriminate.
  exact (dialog_addition_reaches_manager_without_save ascii_upper default_heap 0 1
           "threat_levels" default_threat_levels (str " severe ") (str "#ff00ff")
           (or_introl eq_refl) default_heap_has_threat_levels
           (holds_distinct_holds _ _ _ default_heap_threat_levels)
           Htext severe_typed_not_a_default_threat_level).
Defined.

(** X22: ["HIGH"] removed in the dialog. *)
Lemma dialog_removal_witness :
  fst ((temp <- dialog_init 0 ;;
        outcome <- dialog_remove_named temp "threat_levels" (str "HIGH") true ;;
        shown <- get_names temp "threat_levels" ;;
        names <- get_names 0 "threat_levels" ;;
        ret (outcome, shown, names)) default_heap) =
  Some (Changed,
        [PStr (str "LOW"); PStr (str "MODERATE"); PStr (str "CRITICAL")],
        [PStr (str "LOW"); PStr (str "MODERATE"); PStr (str "HIGH");
         PStr (str "CRITICAL")]).
Proof.
  exact (dialog_removal_does_not_reach_manager default_heap 0 1 "threat_levels"
           default_threat_levels (str "HIGH") (or_introl eq_refl)
           default_heap_has_threat_levels
           (holds_distinct_holds _ _ _ default_heap_threat_levels)).
Defined.

(** X23: ["VIP"] renamed to ["WANTED"], a name already listed. *)
Lemma update_witness :
  exists h',
    update_status_type 0 (str "VIP") (str "WANTED") (str "#000000") default_heap =
      (Some tt, h') /\
    get_status_types 0 h' =
      (Some [PStr (str "CIVILIAN"); PStr (str "WANTED"); PStr (str "EMPLOYEE");
             PStr (str "VISITOR"); PStr (str "WANTED"); PStr (str "UNKNOWN")], h').
Proof.
  destruct (update_renames_first_match_only default_heap 0 2 "status_types"
              default_status_types (str "VIP") (str "WANTED") (str "#000000")
              (or_intror eq_refl) default_heap_has_status_types
              default_heap_status_types)
    as (h' & Hrun & _ & Hnames & _).
  exists h'. split; [exact Hrun|exact Hnames].
Defined.

(** X24: ["LOW"] renamed to ["minor"] in the dialog. *)
Lemma dialog_edit_witness :
  fst ((temp <- dialog_init 0 ;;
        outcome <- dialog_edit_named ascii_upper temp "threat_levels" (str "LOW")
                     (str "minor") true (Some (str "#00ff00")) ;;
        names <- get_names 0 "threat_levels" ;;
        ret (outcome, names)) default_heap) =
  Some (Changed, [PStr (str "MINOR"); PStr (str "MODERATE"); PStr (str "HIGH");
                  PStr (str "CRITICAL")]).
Proof.
  assert (Htext : str "minor" <> []) by discriminate.
  exact (dialog_edit_reaches_manager_without_save ascii_upper default_heap 0 1
           "threat_levels" default_threat_levels (str "LOW") (str "minor")
           (str "#00ff00") (or_introl eq_refl) default_heap_has_threat_levels
           default_heap_threat_levels Htext).
Defined.

Lemma default_status_colors_nonempty :
  Forall (fun it : pystr * pystr => snd it <> []) default_status_types.
Proof. repeat (constructor; [discriminate|]). constructor. Qed.

(** X25: a status that is not listed, with a listed threat level. *)
Lemma badge_color_witness :
  badge_color int16_of_digits 0 (str "SUSPECT") (str "CRITICAL") default_heap =
    (Some (str "rgba(128, 128, 128, 255)"), default_heap).
Proof.
  assert (Hs : str "SUSPECT" <> str "SCANNING") by discriminate.
  assert (Hu : str "SUSPECT" <> str "UNIDENTIFIED") by discriminate.
  rewrite (badge_color_ignores_threat_level int16_of_digits default_heap 0 2
             default_status_types (str "SUSPECT") (str "CRITICAL")
             default_heap_has_status_types
             (holds_distinct_holds _ _ _ default_heap_status_types)
             default_status_colors_nonempty Hs Hu).
  reflexivity.
Defined.

(** ** A near tie in binary64 *)

Lemma near_tie_numbers :
  numbers binary64
    (List.map (fun u => euclidean_distance binary64 1 u (row1 0.5%float)) near_tie).
Proof.
  assert (Hin : forall x,
    In x (List.map (fun u => euclidean_distance binary64 1 u (row1 0.5%float)) near_tie) ->
    x = 0.5%float).
  { intros x [H|[H|[]]]; rewrite <- H; vm_compute; reflexivity. }
  split; [|split; [|split]].
  - intros x Hx. rewrite (Hin x Hx). reflexivity.
  - intros x y Hx Hy. rewrite (Hin x Hx), (Hin y Hy). reflexivity.
  - intros x y Hx Hy. rewrite (Hin x Hx), (Hin y Hy). reflexivity.
  - intros x y z Hx Hy Hz. rewrite (Hin x Hx), (Hin y Hy), (Hin z Hz).
    intros H. vm_compute in H. discriminate.
Qed.

Lemma near_tie_first_nearest :
  first_nearest binary64 1 near_tie (row1 0.5%float) 0 (row1 0%float).
Proof.
  split; [reflexivity|]. split.
  - intros j u Hj.
    destruct j as [|[|j]]; cbn in Hj; [| |destruct j; discriminate];
      injection Hj as <-; vm_compute; reflexivity.
  - intros j u Hj. lia.
Qed.

(** C1 on the near tie: the computed distances are equal and the first
    stored label is returned. *)
Lemma query_nearest_label_witness :
  match_rows binary64 1 near_tie [alice; bob] (row1 0.5%float) =
    Some (mkRowMatch binary64 alice (Some [0.5%float; 0.5%float])).
Proof.
  assert (Hne : near_tie <> []) by discriminate.
  assert (Hlen : List.length near_tie = List.length [alice; bob]) by reflexivity.
  rewrite (proj2 (query_nearest_label_below_threshold binary64 1 near_tie
                    [alice; bob] (row1 0.5%float) Hne Hlen near_tie_numbers)
                 0%nat (row1 0%float) alice near_tie_first_nearest eq_refl).
  vm_compute. reflexivity.
Defined.

(** In exact arithmetic the same registry and query give the second label:
    the distances [1/2] and [1/2 - 2^-60] differ. *)
Lemma near_tie_in_exact_arithmetic :
  resolve_name {| known_face_encodings := [vec1 0; vec1 (/ 2 ^ 60)];
                  known_face_names := [alice; bob] |} (vec1 0.5) = bob.
Proof.
  assert (Hpos : 0 < / 2 ^ 60) by (apply Rinv_0_lt_compat; apply pow_lt; lra).
  assert (Hsmall : / 2 ^ 60 < 0.5).
  { apply Rlt_trans with (/ 2 ^ 2).
    - apply Rinv_lt_contravar; [apply Rmult_lt_0_compat; apply pow_lt; lra|].
      apply Rlt_pow; [lra|lia].
    - simpl. lra. }
  unfold resolve_name, match_known, distances_to.
  cbn [known_face_encodings known_face_names List.length Nat.ltb Nat.leb List.map].
  rewrite !norm_sub_vec1.
  replace (Rabs (0 - 0.5)) with 0.5
    by (unfold Rabs; destruct (Rcase_abs (0 - 0.5)); lra).
  replace (Rabs (/ 2 ^ 60 - 0.5)) with (0.5 - / 2 ^ 60)
    by (unfold Rabs; destruct (Rcase_abs (/ 2 ^ 60 - 0.5)); lra).
  cbn [argmin argmin_from].
  rewrite Rlt_dec_true by lra. cbn [nth_error matched_name].
  rewrite Rlt_dec_true by lra. reflexivity.
Qed.
